(** * Portfolio site: validation, proxy handlers and 3D quality selection

    A shallow embedding of the functional units of the portfolio
    repository: the contact-form validator [validateContactForm], the two
    proxy route handlers [GET] (GitHub statistics and dev.to articles),
    the device-capability quality selector [detectDeviceCapability] with
    its presets, the hook [useAdaptiveQuality] and the network scene graph
    of [NetworkGraph.tsx].

    JavaScript strings are sequences of UTF-16 code units; numbers that the
    code only uses as integers are [Z]; [navigator.deviceMemory] (a dyadic
    fraction such as 0.5) and the 3D coordinates are [Q]. *)

From Stdlib Require Import ZArith QArith List String Ascii Bool Lia.
From Stdlib Require Import Permutation Sorted Lqa.
From stdpp Require Import base gmap strings list sorting.
Import ListNotations.

Local Open Scope Z_scope.

(** ** The JavaScript runtime fragments the code relies on *)

Module JS.

(** A string value: its UTF-16 code units. *)
Definition jsstring := list N.

(** String literal of the source, given by its (ASCII) characters. *)
Definition lit (s : string) : jsstring :=
  map N_of_ascii (list_ascii_of_string s).

(** [ToBoolean] on a string: only the empty string is falsy. *)
Definition truthy (s : jsstring) : bool :=
  match s with [] => false | _ :: _ => true end.

(** [ToBoolean] on [string | null]. *)
Definition truthy_opt (s : option jsstring) : bool :=
  match s with None => false | Some s => truthy s end.

(** [a === b] on strings. *)
Definition str_eqb (a b : jsstring) : bool := bool_decide (a = b).

(** The relational comparison of two strings ([<], [<=]): lexicographic
    on code units, a proper prefix being smaller. *)
Fixpoint str_compare (a b : jsstring) : comparison :=
  match a, b with
  | [], [] => Eq
  | [], _ :: _ => Lt
  | _ :: _, [] => Gt
  | x :: a', y :: b' =>
      match N.compare x y with
      | Eq => str_compare a' b'
      | c => c
      end
  end.

(** [a <= b] on strings. *)
Definition str_leb (a b : jsstring) : bool :=
  match str_compare a b with Gt => false | _ => true end.

(** The code units matched by [\s] in a regular expression, which are
    also the ones [String.prototype.trim] strips: WhiteSpace and
    LineTerminator. *)
Definition isWhiteSpace (c : N) : bool :=
  ((9 <=? c) && (c <=? 13) || (c =? 32) || (c =? 160) || (c =? 5760)
   || (8192 <=? c) && (c <=? 8202) || (c =? 8232) || (c =? 8233)
   || (c =? 8239) || (c =? 8287) || (c =? 12288) || (c =? 65279))%N.

Fixpoint trimStart (s : jsstring) : jsstring :=
  match s with
  | c :: s' => if isWhiteSpace c then trimStart s' else s
  | [] => []
  end.

Definition trimEnd (s : jsstring) : jsstring := rev (trimStart (rev s)).

(** [String.prototype.trim]. *)
Definition trim (s : jsstring) : jsstring := trimEnd (trimStart s).

(** [s.length] as a number. *)
Definition strlen (s : jsstring) : Z := Z.of_nat (length s).

(** [Array.prototype.slice(start, end)]: negative indices count from the
    end, everything is clamped to the array. *)
Definition slice {A} (l : list A) (start end_ : Z) : list A :=
  let len := Z.of_nat (length l) in
  let k := if start <? 0 then Z.max (len + start) 0 else Z.min start len in
  let final := if end_ <? 0 then Z.max (len + end_) 0 else Z.min end_ len in
  firstn (Z.to_nat (final - k)) (skipn (Z.to_nat k) l).

(** [Array.prototype.sort(cmp)].  The language fixes the result for a
    consistent comparator: the stable ordering in which [a] precedes [b]
    whenever [cmp a b < 0].  Stable insertion (from the right) computes
    it. *)
Fixpoint insert {A} (cmp : A -> A -> Z) (x : A) (l : list A) : list A :=
  match l with
  | [] => [x]
  | y :: l' => if cmp x y <=? 0 then x :: l else y :: insert cmp x l'
  end.

Definition sort {A} (cmp : A -> A -> Z) (l : list A) : list A :=
  fold_right (insert cmp) [] l.

(** A thrown exception, as far as the handlers can observe it: they
    catch everything and never inspect the value. *)
Inductive completion (A : Type) : Type :=
| Normal (a : A)
| Throw.
Arguments Normal {A} a.
Arguments Throw {A}.

Definition bind {A B} (c : completion A) (k : A -> completion B)
  : completion B :=
  match c with Normal a => k a | Throw => Throw end.

(** [try { c } catch { handler }] *)
Definition try_catch {A} (c : completion A) (handler : A) : A :=
  match c with Normal a => a | Throw => handler end.

(** ** Regular expressions

    The fragment the source uses: an anchored sequence of single
    characters, negated classes and their [+] iterations. *)
Inductive atom : Type :=
| Char (c : N)                   (* a literal code unit *)
| NoneOf (excluded : N -> bool). (* [^...] *)

Inductive item : Type :=
| One (a : atom)
| OneOrMore (a : atom).          (* a+ *)

Definition atom_matches (a : atom) (c : N) : bool :=
  match a with
  | Char c' => (c =? c')%N
  | NoneOf excluded => negb (excluded c)
  end.

(** [/^items$/.test(s)], by backtracking: a [+] first tries to take one
    more character and falls back to the rest of the pattern. *)
Fixpoint test_anchored (r : list item) : jsstring -> bool :=
  match r with
  | [] => fun s => match s with [] => true | _ :: _ => false end
  | One a :: r' => fun s =>
      match s with
      | c :: s' => atom_matches a c && test_anchored r' s'
      | [] => false
      end
  | OneOrMore a :: r' =>
      fix more (s : jsstring) : bool :=
        match s with
        | c :: s' => atom_matches a c && (more s' || test_anchored r' s')
        | [] => false
        end
  end.

(** Canonicalisation of the [i] flag (without [u]): upper-casing, where a
    non-ASCII character is never identified with an ASCII one; only its
    action on ASCII matters against an ASCII pattern. *)
Definition canonicalize (c : N) : N :=
  (if (97 <=? c) && (c <=? 122) then c - 32 else c)%N.

(** Does the literal [pat] match at the start of [s], ignoring case? *)
Fixpoint prefix_ci (pat s : jsstring) : bool :=
  match pat, s with
  | [], _ => true
  | _ :: _, [] => false
  | p :: pat', c :: s' =>
      (canonicalize p =? canonicalize c)%N && prefix_ci pat' s'
  end.

(** [/pat/i.test(s)] for a literal [pat]: a match at some position. *)
Fixpoint search_ci (pat s : jsstring) : bool :=
  prefix_ci pat s ||
  match s with [] => false | _ :: s' => search_ci pat s' end.

(** [/p1|...|pn/i.test(s)] for literal alternatives. *)
Definition test_alternatives_ci (pats : list jsstring) (s : jsstring)
  : bool :=
  existsb (fun pat => search_ci pat s) pats.

End JS.

(** ** Contact form validation: [validateContactForm] *)

Module Validation.
Import JS.

Record ContactFormData : Type := {
  name : jsstring;
  email : jsstring;
  message : jsstring;
}.

(** The [errors] object is built by assigning properties: a finite map
    from property name to message. *)
Record ContactFormValidation : Type := {
  isValid : bool;
  errors : gmap string string;
}.

(** [/^[^\s@]+@[^\s@]+\.[^\s@]+$/] *)
Definition local_char : atom :=
  NoneOf (fun c => isWhiteSpace c || (c =? 64)%N).

Definition emailRegex : list item :=
  [OneOrMore local_char; One (Char 64); OneOrMore local_char;
   One (Char 46); OneOrMore local_char].

Definition name_error : string := "Name must be at least 2 characters".
Definition email_error : string := "Please enter a valid email address".
Definition message_error : string :=
  "Message must be at least 10 characters".

Definition validateContactForm (data : ContactFormData)
  : ContactFormValidation :=
  let errors : gmap string string := ∅ in
  let errors :=
    if negb (truthy (name data)) || (strlen (trim (name data)) <? 2)
    then <["name" := name_error]> errors else errors in
  let errors :=
    if negb (truthy (email data))
       || negb (test_anchored emailRegex (email data))
    then <["email" := email_error]> errors else errors in
  let errors :=
    if negb (truthy (message data))
       || (strlen (trim (message data)) <? 10)
    then <["message" := message_error]> errors else errors in
  {| isValid := (size errors =? 0)%nat; errors := errors |}.

End Validation.

(** ** HTTP plumbing shared by the two proxy handlers *)

Module Http.
Import JS.

(** What the handler reads of the incoming request:
    [new URL(request.url).searchParams.get('username')], which is [null]
    when the parameter is absent. *)
Record Request : Type := { username : option jsstring }.

(** The body of an upstream response.  Reading it can fail (the stream
    breaks), and [json()] also fails when the text does not parse as the
    expected value. *)
Inductive Body (A : Type) : Type :=
| Unreadable
| Text (parsed : option A).
Arguments Unreadable {A}.
Arguments Text {A} parsed.

Record Response (A : Type) : Type := {
  status : Z;
  body : Body A;
}.
Arguments status {A} r.
Arguments body {A} r.

(** [res.ok] *)
Definition ok {A} (res : Response A) : bool :=
  (200 <=? status res) && (status res <=? 299).

(** [await res.text()], of which the handlers only log the result. *)
Definition text {A} (res : Response A) : completion unit :=
  match body res with
  | Unreadable => Throw
  | Text _ => Normal tt
  end.

(** [await res.json()] *)
Definition json {A} (res : Response A) : completion A :=
  match body res with
  | Text (Some a) => Normal a
  | Text None | Unreadable => Throw
  end.

(** The outcome of [await fetch(url, ...)]: a response, or a rejection
    (network failure). *)
Definition Fetch (A : Type) : Type := completion (Response A).

(** What [NextResponse.json(data, { status })] sends back; the status
    defaults to 200. *)
Inductive Payload (A : Type) : Type :=
| ErrorBody (error : string)   (* { error } *)
| Data (data : A).
Arguments ErrorBody {A} error.
Arguments Data {A} data.

Record NextResponse (A : Type) : Type := {
  code : Z;
  payload : Payload A;
}.
Arguments code {A} n.
Arguments payload {A} n.

Definition json_error {A} (error : string) (status : Z) : NextResponse A :=
  {| code := status; payload := ErrorBody error |}.

Definition json_ok {A} (data : A) : NextResponse A :=
  {| code := 200; payload := Data data |}.

(** A response is a success when it carries data with status 200. *)
Definition is_success {A} (r : NextResponse A) : Prop :=
  code r = 200 /\ exists d, payload r = Data d.

(** A response is a JSON [{error}] body with the given status. *)
Definition is_error {A} (r : NextResponse A) (status : Z) : Prop :=
  code r = status /\ exists e, payload r = ErrorBody e.

End Http.

(** ** The GitHub statistics handler: [GET] of [api/github/route.ts] *)

Module GitHub.
Import JS Http.

Record GitHubUser : Type := {
  public_repos : Z;
  followers : Z;
  following : Z;
}.

Record GitHubRepo : Type := {
  stargazers_count : Z;
  language : option jsstring;
}.

Record Contribution : Type := { date : jsstring; count : Z }.

(** The contributions API answer; both properties are tested for
    presence before use.  [total] maps a year to its count. *)
Record AllYearsData : Type := {
  total : option (list (jsstring * Z));
  contributions : option (list Contribution);
}.

(** A value held by the object [langCount].  The code means it to hold
    numbers, but [(x || 0) + 1] on a member that [langCount] inherits from
    [Object.prototype] (a function, or the prototype itself for
    [__proto__]) is a string concatenation: it gives the text of that
    member followed by [1], and one more [1] at each later visit.
    [Text member ones] is that string. *)
Inductive PropertyValue : Type :=
| Num (n : Z)
| Text (member : jsstring) (ones : nat).

(** An entry [{ name, count }] of [topLanguages]; its [count] is
    [lcount], [count] being the field of [Contribution]. *)
Record Language : Type := { name : jsstring; lcount : PropertyValue }.

(** The success body.  [followers'] and [following'] are its [followers]
    and [following], the plain names being the fields of [GitHubUser]. *)
Record Stats : Type := {
  publicRepos : Z;
  followers' : Z;
  following' : Z;
  totalStars : Z;
  topLanguages : list Language;
  totalContributions : Z;
  currentStreak : Z;
  longestStreak : Z;
}.

(** Everything outside the handler: the three upstream services, the
    clock and the collation behind [localeCompare]. *)
Record World : Type := {
  fetchUser : jsstring -> Fetch GitHubUser;
  fetchRepos : jsstring -> Fetch (list GitHubRepo);
  fetchContributions : jsstring -> Fetch AllYearsData;
  (** [new Date().toISOString().split('T')[0]] *)
  today : jsstring;
  localeCompare : jsstring -> jsstring -> Z;
}.

(** [repos.reduce((sum, repo) => sum + repo.stargazers_count, 0)] *)
Definition sumStars (repos : list GitHubRepo) : Z :=
  fold_left (fun sum repo => sum + stargazers_count repo) repos 0.

(** [langCount] is a plain object used as a map.  Its own properties are
    kept as an association list in the order of their creation; what it
    inherits from [Object.prototype] is listed here. *)
Definition objectPrototypeNames : list jsstring :=
  map lit ["constructor"; "__defineGetter__"; "__defineSetter__";
           "hasOwnProperty"; "__lookupGetter__"; "__lookupSetter__";
           "isPrototypeOf"; "propertyIsEnumerable"; "toString"; "valueOf";
           "__proto__"; "toLocaleString"]%string.

Definition inherited (key : jsstring) : bool :=
  existsb (str_eqb key) objectPrototypeNames.

Fixpoint lookup (key : jsstring) (obj : list (jsstring * PropertyValue))
  : option PropertyValue :=
  match obj with
  | [] => None
  | (k, v) :: obj' => if str_eqb k key then Some v else lookup key obj'
  end.

(** What [obj[key]] evaluates to: an own value, a member of
    [Object.prototype] (an object), or [undefined]. *)
Inductive Got : Type :=
| Own (v : PropertyValue)
| Member
| Undefined.

Definition get (key : jsstring) (obj : list (jsstring * PropertyValue))
  : Got :=
  match lookup key obj with
  | Some v => Own v
  | None => if inherited key then Member else Undefined
  end.

(** [(x || 0) + 1] for [x = obj[key]].  A number is incremented, [0]
    and [undefined] count as 0; a string (never empty here) and an object
    are truthy, and [+] concatenates. *)
Definition or_zero_plus_one (key : jsstring) (x : Got) : PropertyValue :=
  match x with
  | Own (Num n) => Num ((if n =? 0 then 0 else n) + 1)
  | Own (Text member ones) => Text member (S ones)
  | Member => Text key 1
  | Undefined => Num 1
  end.

(** Writing an own property: an existing one keeps its place, a new one
    is added last. *)
Fixpoint assign (key : jsstring) (v : PropertyValue)
  (obj : list (jsstring * PropertyValue)) : list (jsstring * PropertyValue) :=
  match obj with
  | [] => [(key, v)]
  | (k, v') :: obj' =>
      if str_eqb k key then (k, v) :: obj'
      else (k, v') :: assign key v obj'
  end.

(** [obj[key] = v].  Every name of [Object.prototype] is a writable data
    property, which the assignment shadows with an own property, except
    [__proto__]: that one is an accessor, whose setter ignores a value
    that is neither an object nor [null]. *)
Definition set (key : jsstring) (v : PropertyValue)
  (obj : list (jsstring * PropertyValue)) : list (jsstring * PropertyValue) :=
  if str_eqb key (lit "__proto__") then obj else assign key v obj.

(** The body of the [repos.forEach] callback. *)
Definition countLanguage (langCount : list (jsstring * PropertyValue))
  (repo : GitHubRepo) : list (jsstring * PropertyValue) :=
  match language repo with
  | Some l =>
      if truthy l then set l (or_zero_plus_one l (get l langCount)) langCount
      else langCount
  | None => langCount
  end.

Definition langCountOf (repos : list GitHubRepo)
  : list (jsstring * PropertyValue) :=
  fold_left countLanguage repos [].

(** A property name is an array index when it is the decimal numeral,
    without leading zero, of an integer below [2^32 - 1]. *)
Definition digit (c : N) : option Z :=
  if ((48 <=? c) && (c <=? 57))%N then Some (Z.of_N c - 48) else None.

Fixpoint decimal (acc : Z) (s : jsstring) : option Z :=
  match s with
  | [] => Some acc
  | c :: s' =>
      match digit c with
      | Some d => decimal (10 * acc + d) s'
      | None => None
      end
  end.

Definition arrayIndex (key : jsstring) : option Z :=
  match key with
  | [] => None
  | c :: rest =>
      if (c =? 48)%N && truthy rest then None
      else
        match decimal 0 key with
        | Some n => if n <? 4294967295 then Some n else None
        | None => None
        end
  end.

Definition isArrayIndex (key : jsstring) : bool :=
  match arrayIndex key with Some _ => true | None => false end.

Definition indexOf (key : jsstring) : Z :=
  match arrayIndex key with Some n => n | None => 0 end.

(** [Object.entries(obj)]: the own properties, those named by an array
    index first, in ascending order of the index, then the others in the
    order of their creation. *)
Definition entries (obj : list (jsstring * PropertyValue))
  : list (jsstring * PropertyValue) :=
  sort (fun a b => indexOf (fst a) - indexOf (fst b))
    (List.filter (fun p => isArrayIndex (fst p)) obj)
  ++ List.filter (fun p => negb (isArrayIndex (fst p))) obj.

(** [b.count - a.count], as [sort] reads it.  A string of [langCount]
    converts to [NaN], and [sort] takes a comparator result of [NaN]
    for [+0]. *)
Definition compareCounts (a b : Language) : Z :=
  match lcount b, lcount a with
  | Num y, Num x => y - x
  | _, _ => 0
  end.

Definition computeTopLanguages (repos : list GitHubRepo) : list Language :=
  slice
    (sort compareCounts
       (map (fun '(name, count) => {| name := name; lcount := count |})
          (entries (langCountOf repos))))
    0 5.

(** [Object.values(total).reduce((sum, count) => sum + count, 0)] *)
Definition sumTotal (total : list (jsstring * Z)) : Z :=
  fold_left (fun sum count => sum + count) (map snd total) 0.

(** [contributions.filter(c => c.date <= today)], then sorted in place by
    [a.date.localeCompare(b.date)]. *)
Definition validContribs (w : World) (contributions : list Contribution)
  : list Contribution :=
  sort (fun a b => localeCompare w (date a) (date b))
    (List.filter (fun c => str_leb (date c) (today w)) contributions).

(** The backward loop [for (i = length - 1; i >= 0; i--)]: it walks the
    array from its last element, that is, the reversed list. *)
Fixpoint currentStreakLoop (today : jsstring) (backwards : list Contribution)
  (tempStreak : Z) : Z :=
  match backwards with
  | [] => tempStreak
  | c :: rest =>
      if count c >? 0 then currentStreakLoop today rest (tempStreak + 1)
      else if negb (str_eqb (date c) today) then tempStreak (* break *)
      else currentStreakLoop today rest tempStreak
  end.

Definition computeCurrentStreak (today : jsstring)
  (validContribs : list Contribution) : Z :=
  currentStreakLoop today (rev validContribs) 0.

(** One iteration of [for (const c of validContribs)] on the pair
    [(streak, longestStreak)]. *)
Definition longestStreakStep (st : Z * Z) (c : Contribution) : Z * Z :=
  let '(streak, longestStreak) := st in
  if count c >? 0 then (streak + 1, Z.max longestStreak (streak + 1))
  else (0, longestStreak).

Definition computeLongestStreak (validContribs : list Contribution) : Z :=
  snd (fold_left longestStreakStep validContribs (0, 0)).

(** The three contribution figures, as the inner [try] block leaves
    them. *)
Record ContribStats : Type := {
  cs_total : Z;
  cs_current : Z;
  cs_longest : Z;
}.

Definition noContribStats : ContribStats :=
  {| cs_total := 0; cs_current := 0; cs_longest := 0 |}.

(** [if (allYearsData.total) ...; if (allYearsData.contributions) ...] *)
Definition contribStatsOf (w : World) (allYearsData : AllYearsData)
  : ContribStats :=
  let totalContributions :=
    match total allYearsData with
    | Some t => sumTotal t
    | None => 0
    end in
  match contributions allYearsData with
  | Some contributions =>
      let valid := validContribs w contributions in
      {| cs_total := totalContributions;
         cs_current := computeCurrentStreak (today w) valid;
         cs_longest := computeLongestStreak valid |}
  | None =>
      {| cs_total := totalContributions; cs_current := 0; cs_longest := 0 |}
  end.

(** The inner [try { ... } catch { }]: any failure leaves the zeros. *)
Definition fetchContribStats (w : World) (username : jsstring)
  : ContribStats :=
  try_catch
    (bind (fetchContributions w username) (fun allYearsRes =>
       if ok allYearsRes then
         bind (json allYearsRes) (fun allYearsData =>
           Normal (contribStatsOf w allYearsData))
       else Normal noContribStats))
    noContribStats.

(** The user-fetch error branch: log the body, then map the status. *)
Definition userError (userRes : Response GitHubUser)
  : completion (NextResponse Stats) :=
  bind (text userRes) (fun _ =>
    if status userRes =? 403 then
      Normal (json_error "GitHub API rate limit exceeded" 429)
    else if status userRes =? 401 then
      Normal (json_error "Invalid GitHub token" 401)
    else if status userRes =? 404 then
      Normal (json_error "User not found" 404)
    else Throw).

(** The outer [try] block. *)
Definition fetchStats (w : World) (username : jsstring)
  : completion (NextResponse Stats) :=
  bind (fetchUser w username) (fun userRes =>
    if negb (ok userRes) then userError userRes
    else
      bind (json userRes) (fun userData =>
      bind (fetchRepos w username) (fun reposRes =>
      bind (if ok reposRes then json reposRes else Normal [])
        (fun repos =>
      let totalStars := sumStars repos in
      let topLanguages := computeTopLanguages repos in
      let cs := fetchContribStats w username in
      Normal (json_ok
        {| publicRepos := public_repos userData;
           followers' := followers userData;
           following' := following userData;
           totalStars := totalStars;
           topLanguages := topLanguages;
           totalContributions := cs_total cs;
           currentStreak := cs_current cs;
           longestStreak := cs_longest cs |}))))).

(** [if (!username)] rejects [null] and the empty string alike. *)
Definition GET (w : World) (request : Request) : NextResponse Stats :=
  match username request with
  | None => json_error "Username required" 400
  | Some username =>
      if negb (truthy username) then json_error "Username required" 400
      else try_catch (fetchStats w username)
             (json_error "Failed to fetch GitHub data" 500)
  end.

End GitHub.

(** ** The dev.to blog handler: the [GET] next to [transformArticle] *)

Module DevTo.
Import JS Http.

(** The article as dev.to sends it (snake_case). *)
Record DevToArticle : Type := {
  id : Z;
  title : jsstring;
  description : jsstring;
  url : jsstring;
  cover_image : option jsstring;
  social_image : option jsstring;
  published_at : jsstring;
  reading_time_minutes : Z;
  tag_list : list jsstring;
}.

(** The [Blog] type of the front end (camelCase); [blog_id], [blog_title],
    [blog_description] and [blog_url] are its [id], [title], [description]
    and [url]. *)
Record Blog : Type := {
  blog_id : Z;
  blog_title : jsstring;
  blog_description : jsstring;
  blog_url : jsstring;
  coverImage : option jsstring;
  socialImage : option jsstring;
  publishedAt : jsstring;
  readingTimeMinutes : Z;
  tags : list jsstring;
}.

Definition transformArticle (article : DevToArticle) : Blog :=
  {| blog_id := id article;
     blog_title := title article;
     blog_description := description article;
     blog_url := url article;
     coverImage := cover_image article;
     socialImage := social_image article;
     publishedAt := published_at article;
     readingTimeMinutes := reading_time_minutes article;
     tags := tag_list article |}.

(** The upstream service; the cache-busting timestamp only reaches the
    URL. *)
Record World : Type := {
  fetchArticles : jsstring -> Fetch (list DevToArticle);
}.

(** The response body [{ blogs }]. *)
Record Blogs : Type := { blogs : list Blog }.

(** The [if (!response.ok)] branch. *)
Definition articlesError (response : Response (list DevToArticle))
  : completion (NextResponse Blogs) :=
  bind (text response) (fun _ =>
    if status response =? 404 then
      Normal (json_error "User not found" 404)
    else if status response =? 429 then
      Normal (json_error "Rate limit exceeded" 429)
    else Throw).

(** The [try] block. *)
Definition fetchBlogs (w : World) (username : jsstring)
  : completion (NextResponse Blogs) :=
  bind (fetchArticles w username) (fun response =>
    if negb (ok response) then articlesError response
    else
      bind (json response) (fun articles =>
        let blogs := map transformArticle (slice articles 0 3) in
        Normal (json_ok {| blogs := blogs |}))).

(** [if (!username)] rejects [null] and the empty string alike. *)
Definition GET (w : World) (request : Request) : NextResponse Blogs :=
  match username request with
  | None => json_error "Username required" 400
  | Some username =>
      if negb (truthy username) then json_error "Username required" 400
      else try_catch (fetchBlogs w username)
             (json_error "Failed to fetch blog posts" 500)
  end.

End DevTo.

(** ** Quality presets and device detection ([@/lib/performance]) *)

Module Performance.
Import JS.

Inductive QualityLevel : Type := high | medium | low.

Record PerformanceConfig : Type := {
  quality : QualityLevel;
  maxNodes : Z;
  geometryDetail : Z;
  enableAnimations : bool;
  enableGlow : bool;
  targetFPS : Z;
}.

Definition QUALITY_PRESETS (q : QualityLevel) : PerformanceConfig :=
  match q with
  | high =>
      {| quality := high; maxNodes := 8; geometryDetail := 16;
         enableAnimations := true; enableGlow := true; targetFPS := 60 |}
  | medium =>
      {| quality := medium; maxNodes := 6; geometryDetail := 12;
         enableAnimations := true; enableGlow := false; targetFPS := 30 |}
  | low =>
      {| quality := low; maxNodes := 4; geometryDetail := 8;
         enableAnimations := false; enableGlow := false; targetFPS := 30 |}
  end.

(** What the detection reads of the browser.  A property the browser does
    not implement is [undefined]. *)
Record Navigator : Type := {
  hardwareConcurrency : option Z;
  deviceMemory : option Q;
  userAgent : jsstring;
}.

Record Window : Type := {
  (** is [canvas.getContext('webgl')] non-null? *)
  webgl : bool;
  (** is [canvas.getContext('experimental-webgl')] non-null? *)
  experimental_webgl : bool;
  navigator : Navigator;
}.

(** [navigator.hardwareConcurrency || 2] *)
Definition cores (n : Navigator) : Z :=
  match hardwareConcurrency n with
  | Some c => if c =? 0 then 2 else c
  | None => 2
  end.

(** [navigator.deviceMemory || 4] *)
Definition memory (n : Navigator) : Q :=
  match deviceMemory n with
  | Some m => if Qeq_bool m 0 then 4%Q else m
  | None => 4%Q
  end.

Definition mobilePattern : list jsstring :=
  map lit ["Android"; "webOS"; "iPhone"; "iPad"; "iPod"; "BlackBerry";
           "IEMobile"; "Opera Mini"]%string.

(** [/Android|webOS|.../i.test(navigator.userAgent)] *)
Definition isMobile (n : Navigator) : bool :=
  test_alternatives_ci mobilePattern (userAgent n).

(** [a < b] and [a >= b] on numbers. *)
Definition Qltb (a b : Q) : bool := negb (Qle_bool b a).
Definition Qgeb (a b : Q) : bool := Qle_bool b a.

(** [typeof window === 'undefined'] holds on the server: there is no
    window. *)
Definition detectDeviceCapability (window : option Window) : QualityLevel :=
  match window with
  | None => medium
  | Some win =>
      let gl := webgl win || experimental_webgl win in
      if negb gl then low
      else
        let cores := cores (navigator win) in
        let memory := memory (navigator win) in
        let isMobile := isMobile (navigator win) in
        if isMobile || (cores <=? 2) || Qltb memory 4 then low
        else if (cores >=? 8) && Qgeb memory 8 then high
        else medium
  end.

(** [quality || detectDeviceCapability()]: every quality level is a
    non-empty string, hence truthy. *)
Definition getPerformanceConfig (window : option Window)
  (quality : option QualityLevel) : PerformanceConfig :=
  let detectedQuality :=
    match quality with
    | Some q => q
    | None => detectDeviceCapability window
    end in
  QUALITY_PRESETS detectedQuality.

End Performance.

(** ** The adaptive-quality hook: [useAdaptiveQuality] *)

Module Hooks.
Import Performance.

(** The three state cells of [useAdaptiveQuality]. *)
Record AdaptiveState : Type := {
  fps : Z;
  quality : QualityLevel;
  config : PerformanceConfig;
}.

Definition QualityLevel_eqb (a b : QualityLevel) : bool :=
  match a, b with
  | high, high | medium, medium | low, low => true
  | _, _ => false
  end.

(** The initial state, [useAdaptiveQuality(initialQuality = 'medium')]. *)
Definition init (initialQuality : option QualityLevel) : AdaptiveState :=
  let q := match initialQuality with Some q => q | None => medium end in
  {| fps := 60; quality := q;
     config := getPerformanceConfig None (Some q) |}.

(** The block run when a second has elapsed, on the frames counted in
    it: [setFps(frameCount)] and the adaptive adjustment. *)
Definition adjust (frameCount : Z) (st : AdaptiveState) : AdaptiveState :=
  if (frameCount <? 20) && negb (QualityLevel_eqb (quality st) low) then
    {| fps := frameCount; quality := low;
       config := getPerformanceConfig None (Some low) |}
  else if (frameCount <? 30) && QualityLevel_eqb (quality st) high then
    {| fps := frameCount; quality := medium;
       config := getPerformanceConfig None (Some medium) |}
  else
    {| fps := frameCount; quality := quality st; config := config st |}.

(** The hook over a run of one-second samples. *)
Definition run (samples : list Z) (st : AdaptiveState) : AdaptiveState :=
  fold_left (fun st frameCount => adjust frameCount st) samples st.

(** The order [low < medium < high]. *)
Definition rank (q : QualityLevel) : Z :=
  match q with low => 0 | medium => 1 | high => 2 end.

End Hooks.

(** ** The network scene graph ([components/three/NetworkGraph.tsx]) *)

Module NetworkGraph.
Import JS Performance.

Record NodeData : Type := {
  id : string;
  position : Q * Q * Q;
  connections : list string;
  label : option string;
}.

Definition node (id : string) (position : Q * Q * Q)
  (connections : list string) (label : string) : NodeData :=
  {| id := id; position := position; connections := connections;
     label := Some label |}.

Definition NETWORK_NODES : list NodeData :=
  [ node "api-gateway" (0, 3#2, 0)%Q ["auth"; "users"; "data"]%string
      "API Gateway";
    node "auth" (-2, 1#2, 1#2)%Q ["users"; "cache"]%string "Auth Service";
    node "users" (2, 1#2, -1#2)%Q ["db"; "cache"]%string "User Service";
    node "data" (0, 0, 1)%Q ["db"; "queue"]%string "Data Service";
    node "db" (-1, -3#2, 0)%Q ["cache"]%string "Database";
    node "cache" (1, -1, 1#2)%Q [] "Cache";
    node "queue" (2, -3#2, -1#2)%Q ["workers"]%string "Message Queue";
    node "workers" (0, -2, 0)%Q [] "Workers" ].

(** [NETWORK_NODES.slice(0, performanceConfig.maxNodes)] *)
Definition visibleNodesOf (nodes : list NodeData)
  (performanceConfig : PerformanceConfig) : list NodeData :=
  slice nodes 0 (maxNodes performanceConfig).

Definition visibleNodes (performanceConfig : PerformanceConfig)
  : list NodeData :=
  visibleNodesOf NETWORK_NODES performanceConfig.

Record Connection : Type := {
  start : Q * Q * Q;
  end_ : Q * Q * Q;
  key : string;
}.

(** [visibleNodes.find((n) => n.id === targetId)] *)
Definition findNode (visibleNodes : list NodeData) (targetId : string)
  : option NodeData :=
  List.find (fun n => String.eqb (id n) targetId) visibleNodes.

(** The inner [forEach] callback, on the array [conns] built so far. *)
Definition connectTarget (visibleNodes : list NodeData)
  (visibleIds : gset string) (node : NodeData) (conns : list Connection)
  (targetId : string) : list Connection :=
  if negb (bool_decide (targetId ∈ visibleIds)) then conns
  else
    match findNode visibleNodes targetId with
    | Some targetNode =>
        conns ++ [{| start := position node;
                     end_ := position targetNode;
                     key := id node ++ "-" ++ targetId |}]
    | None => conns
    end.

(** The [connections] memo. *)
Definition connectionsOf (visibleNodes : list NodeData) : list Connection :=
  let visibleIds : gset string := list_to_set (map id visibleNodes) in
  fold_left
    (fun conns node =>
       fold_left (connectTarget visibleNodes visibleIds node)
         (connections node) conns)
    visibleNodes [].

End NetworkGraph.

(** ** More of the runtime: [split], [startsWith], [join] *)

Module JSText.
Import JS.

(** [s.startsWith(prefix)] *)
Fixpoint startsWith (s prefix : jsstring) : bool :=
  match prefix, s with
  | [], _ => true
  | _ :: _, [] => false
  | p :: prefix', c :: s' => (c =? p)%N && startsWith s' prefix'
  end.

(** [s.split(/\s+/)]: the pieces between the maximal runs of white space.
    [piece] is the piece being read and [inGap] tells that the last
    character was white space; white space at either end leaves an empty
    piece there, and the empty string gives one empty piece. *)
Fixpoint splitFrom (inGap : bool) (piece : jsstring) (s : jsstring)
  : list jsstring :=
  match s with
  | [] => [piece]
  | c :: s' =>
      if isWhiteSpace c then
        if inGap then splitFrom true [] s'
        else piece :: splitFrom true [] s'
      else splitFrom false (piece ++ [c]) s'
  end.

Definition splitWhiteSpace (s : jsstring) : list jsstring :=
  splitFrom false [] s.

(** [pieces.join(' ')] *)
Fixpoint joinSpace (pieces : list jsstring) : jsstring :=
  match pieces with
  | [] => []
  | [p] => p
  | p :: rest => p ++ 32%N :: joinSpace rest
  end.

End JSText.

(** ** Numbers under comparison *)

Module JSNumber.

(** A JavaScript number as [<], [<=] and [>=] see it: a finite value
    (every finite double is a rational), an infinity, or [NaN]. *)
Inductive number : Type :=
| Finite (q : Q)
| PosInfinity
| NegInfinity
| NaN.

(** An integer literal of the source. *)
Definition ofZ (z : Z) : number := Finite (inject_Z z).

(** [a < b]; a comparison with [NaN] is false. *)
Definition ltb (a b : number) : bool :=
  match a, b with
  | NaN, _ | _, NaN => false
  | Finite x, Finite y => negb (Qle_bool y x)
  | Finite _, PosInfinity => true
  | Finite _, NegInfinity => false
  | PosInfinity, _ => false
  | NegInfinity, NegInfinity => false
  | NegInfinity, _ => true
  end.

(** [a <= b] *)
Definition leb (a b : number) : bool :=
  match a, b with
  | NaN, _ | _, NaN => false
  | _, _ => negb (ltb b a)
  end.

(** [a >= b] *)
Definition geb (a b : number) : bool := leb b a.

End JSNumber.

(** ** Responsive breakpoints ([@/lib/responsive]) *)

Module Responsive.
Import JS JSText JSNumber.

Inductive Breakpoint : Type := mobile | tablet | desktop.

(** [maxWidth] is [null] for the last breakpoint.  The bounds of the
    three configurations are integer literals. *)
Record BreakpointConfig : Type := {
  name : Breakpoint;
  minWidth : Z;
  maxWidth : option Z;
  cssClass : string;
}.

Definition breakpoints : list BreakpointConfig :=
  [ {| name := mobile; minWidth := 0; maxWidth := Some 767;
       cssClass := EmptyString |};
    {| name := tablet; minWidth := 768; maxWidth := Some 1023;
       cssClass := "md:" |};
    {| name := desktop; minWidth := 1024; maxWidth := None;
       cssClass := "lg:" |} ].

Definition Breakpoint_eqb (a b : Breakpoint) : bool :=
  match a, b with
  | mobile, mobile | tablet, tablet | desktop, desktop => true
  | _, _ => false
  end.

Definition getBreakpoint (width : number) : Breakpoint :=
  if ltb width (ofZ 768) then mobile
  else if ltb width (ofZ 1024) then tablet
  else desktop.

(** [breakpoints.find(b => b.name === breakpoint)], [undefined] when
    there is none. *)
Definition findConfig (breakpoint : Breakpoint) : option BreakpointConfig :=
  List.find (fun b => Breakpoint_eqb (name b) breakpoint) breakpoints.

(** The [!] after [find] asserts nothing at run time: the result may be
    [undefined]. *)
Definition getBreakpointConfig (width : number)
  : option BreakpointConfig :=
  findConfig (getBreakpoint width).

(** Reading [config.maxWidth] of an [undefined] config throws. *)
Definition matchesBreakpoint (width : number) (breakpoint : Breakpoint)
  : completion bool :=
  match findConfig breakpoint with
  | None => Throw
  | Some config =>
      match maxWidth config with
      | None => Normal (geb width (ofZ (minWidth config)))
      | Some maxWidth =>
          Normal (geb width (ofZ (minWidth config))
                  && leb width (ofZ maxWidth))
      end
  end.

Record Extracted : Type := {
  ex_mobile : list jsstring;
  ex_tablet : list jsstring;
  ex_desktop : list jsstring;
}.

Definition extractResponsiveClasses (classString : jsstring) : Extracted :=
  let classes := splitWhiteSpace classString in
  {| ex_mobile :=
       List.filter
         (fun cls => negb (startsWith cls (lit "sm:"))
                     && negb (startsWith cls (lit "md:"))
                     && negb (startsWith cls (lit "lg:"))
                     && negb (startsWith cls (lit "xl:")))
         classes;
     ex_tablet := List.filter (fun cls => startsWith cls (lit "md:")) classes;
     ex_desktop :=
       List.filter (fun cls => startsWith cls (lit "lg:")) classes |}.

Record ResponsiveValidation : Type := {
  isValid : bool;
  hasMobileClasses : bool;
  hasTabletClasses : bool;
  hasDesktopClasses : bool;
}.

(** [list.length > 0] *)
Definition nonEmpty {A} (l : list A) : bool :=
  (Z.of_nat (length l) >? 0).

Definition validateResponsiveClasses (classString : jsstring)
  : ResponsiveValidation :=
  let extracted := extractResponsiveClasses classString in
  let hasMobileClasses := nonEmpty (ex_mobile extracted) in
  let hasTabletClasses := nonEmpty (ex_tablet extracted) in
  let hasDesktopClasses := nonEmpty (ex_desktop extracted) in
  {| isValid := hasMobileClasses;
     hasMobileClasses := hasMobileClasses;
     hasTabletClasses := hasTabletClasses;
     hasDesktopClasses := hasDesktopClasses |}.

(** [getResponsiveClass] of the breakpoint hook file: the optional classes
    are skipped when absent or empty. *)
Definition getResponsiveClass (mobileClass : jsstring)
  (tabletClass desktopClass : option jsstring) : jsstring :=
  let classes := [mobileClass] in
  let classes :=
    match tabletClass with
    | Some t => if truthy t then classes ++ [lit "md:" ++ t] else classes
    | None => classes
    end in
  let classes :=
    match desktopClass with
    | Some d => if truthy d then classes ++ [lit "lg:" ++ d] else classes
    | None => classes
    end in
  joinSpace classes.

End Responsive.

(** ** [throttle] and [debounce] ([@/lib/performance])

    Time is left to the environment: a call and the firing of a timer
    that was set are the two events, in any order. *)

Module Timers.

Inductive Event (A : Type) : Type :=
| Call (args : A)
| Fire.
Arguments Call {A} args.
Arguments Fire {A}.

(** What [func] does when the throttled function calls it with [args]:
    while it runs it may call the throttled function again (the calls of
    [during], in order), and it returns or throws. *)
#[local] Unset Elimination Schemes.
Inductive Invocation (A : Type) : Type :=
| Invoke (args : A) (during : list (Invocation A)) (returns : bool).
#[local] Set Elimination Schemes.
Arguments Invoke {A} args during returns.

(** What happens to a throttled function: it is called, [func] behaving
    as told if it is run, or a timer fires. *)
Inductive ThrottleEvent (A : Type) : Type :=
| TCall (i : Invocation A)
| TFire.
Arguments TCall {A} i.
Arguments TFire {A}.

(** The closure of [throttle(func, limit)]: its flag, the timers set and
    not yet fired, and the calls of [func] made so far. *)
Record Throttled (A : Type) : Type := {
  inThrottle : bool;
  th_timers : nat;
  th_invoked : list A;
}.
Arguments inThrottle {A} t.
Arguments th_timers {A} t.
Arguments th_invoked {A} t.

Definition throttle {A} : Throttled A :=
  {| inThrottle := false; th_timers := 0; th_invoked := [] |}.

(** One call of the throttled function.  When idle it runs [func],
    with the calls [func] makes in turn, and only once [func] has
    returned does it set the flag and the timer: a [func] that throws
    leaves both as they are. *)
Fixpoint throttleCall {A} (i : Invocation A) (st : Throttled A)
  : Throttled A :=
  match i with
  | Invoke args during returns =>
      if negb (inThrottle st) then
        (* func.apply(this, args) *)
        let st :=
          fold_left (fun st j => throttleCall j st) during
            {| inThrottle := inThrottle st; th_timers := th_timers st;
               th_invoked := th_invoked st ++ [args] |} in
        if returns then
          {| inThrottle := true; th_timers := S (th_timers st);
             th_invoked := th_invoked st |}
        else st
      else st
  end.

(** One event on the throttled function.  A timer fires only if one is
    pending; it runs [inThrottle = false]. *)
Definition throttleStep {A} (st : Throttled A) (e : ThrottleEvent A)
  : Throttled A :=
  match e with
  | TCall i => throttleCall i st
  | TFire =>
      match th_timers st with
      | O => st
      | S n =>
          {| inThrottle := false; th_timers := n;
             th_invoked := th_invoked st |}
      end
  end.

Definition throttleRun {A} (events : list (ThrottleEvent A)) : Throttled A :=
  fold_left throttleStep events throttle.

(** The closure of [debounce(func, wait)]: the arguments held by the live
    timer, if any, and the calls of [func] made so far.  (After a timer
    has fired [timeout] still holds its id, and clearing it does
    nothing.) *)
Record Debounced (A : Type) : Type := {
  db_pending : option A;
  db_invoked : list A;
}.
Arguments db_pending {A} d.
Arguments db_invoked {A} d.

Definition debounce {A} : Debounced A :=
  {| db_pending := None; db_invoked := [] |}.

Definition debounceStep {A} (st : Debounced A) (e : Event A) : Debounced A :=
  match e with
  | Call args =>
      (* clearTimeout(timeout); timeout = setTimeout(...) *)
      {| db_pending := Some args; db_invoked := db_invoked st |}
  | Fire =>
      match db_pending st with
      | Some args =>
          {| db_pending := None; db_invoked := db_invoked st ++ [args] |}
      | None => st
      end
  end.

Definition debounceRun {A} (events : list (Event A)) : Debounced A :=
  fold_left debounceStep events debounce.

End Timers.

(** ** The quality hooks with [setQuality] *)

Module QualityHooks.
Import Performance Hooks.






End QualityHooks.

(** ** The theme provider ([ThemeProvider])

    The theme is what the state holds at run time, a string: the value
    read from storage is used as it is.  Storage is taken to be
    available. *)

Module ThemeContext.
Import JS.

Record ThemeState : Type := { theme : jsstring; mounted : bool }.

(** The part of the browser the provider touches: the class list of the
    root element (an ordered set of tokens), the stored item ['theme'] and
    the [(prefers-color-scheme: light)] media query. *)
Record Browser : Type := {
  classList : list jsstring;
  themeItem : option jsstring;
  prefersLight : bool;
}.

Definition light : jsstring := lit "light".
Definition dark : jsstring := lit "dark".

(** [useState('dark')], [useState(false)] *)
Definition initial : ThemeState := {| theme := dark; mounted := false |}.


(** [DOMTokenList.remove(token)] *)
Definition removeToken (token : jsstring) (tokens : list jsstring)
  : list jsstring :=
  List.filter (fun t => negb (str_eqb t token)) tokens.

(** ASCII white space, which a token must not contain. *)
Definition isAsciiWhiteSpace (c : N) : bool :=
  ((c =? 9) || (c =? 10) || (c =? 12) || (c =? 13) || (c =? 32))%N.

(** [DOMTokenList.add(token)]: an empty token or one with white space is
    refused with an exception; a token already there is not added
    again. *)
Definition addToken (token : jsstring) (tokens : list jsstring)
  : completion (list jsstring) :=
  if negb (truthy token) || existsb isAsciiWhiteSpace token then Throw
  else if existsb (fun t => str_eqb t token) tokens then Normal tokens
  else Normal (tokens ++ [token]).

(** The second effect, run when [theme] or [mounted] has changed. *)
Definition syncEffect (st : ThemeState) (b : Browser) : completion Browser :=
  if negb (mounted st) then Normal b
  else
    let tokens := removeToken dark (removeToken light (classList b)) in
    bind (addToken (theme st) tokens) (fun tokens =>
      Normal {| classList := tokens;
                themeItem := Some (theme st);
                prefersLight := prefersLight b |}).

Definition toggleTheme (st : ThemeState) : ThemeState :=
  {| theme := if str_eqb (theme st) dark then light else dark;
     mounted := mounted st |}.

Definition setTheme (newTheme : jsstring) (st : ThemeState) : ThemeState :=
  {| theme := newTheme; mounted := mounted st |}.

End ThemeContext.

(** ** The contact form component ([ContactForm]) *)

Module ContactFormUI.
Import JS Validation.

(** The three inputs, by their [name] attribute. *)
Inductive Field : Type := fName | fEmail | fMessage.

Definition fieldName (f : Field) : string :=
  match f with
  | fName => "name"
  | fEmail => "email"
  | fMessage => "message"
  end.

Inductive SubmissionStatus : Type := idle | submitting | success | error.

(** The [validation] state.  It has the type of the validator's result,
    but here a property of [errors] can be present and hold
    [undefined]. *)
Record FormValidation : Type := {
  fv_isValid : bool;
  fv_errors : gmap string (option string);
}.

Record FormState : Type := {
  formData : ContactFormData;
  validation : FormValidation;
  status : SubmissionStatus;
  touched : gmap string bool;
}.

Definition emptyData : ContactFormData :=
  {| name := []; email := []; message := [] |}.

Definition initial : FormState :=
  {| formData := emptyData;
     validation := {| fv_isValid := true; fv_errors := ∅ |};
     status := idle;
     touched := ∅ |}.

(** The validator's result as a [validation] state. *)
Definition ofResult (result : ContactFormValidation) : FormValidation :=
  {| fv_isValid := Validation.isValid result;
     fv_errors := Some <$> Validation.errors result |}.

(** [errors[name]], [undefined] when absent. *)
Definition errorOf (errors : gmap string (option string)) (f : Field)
  : option string :=
  match errors !! fieldName f with
  | Some e => e
  | None => None
  end.

(** [ToBoolean] on [string | undefined]. *)
Definition truthyError (e : option string) : bool :=
  match e with
  | Some s => negb (String.eqb s EmptyString)
  | None => false
  end.

(** [{ ...prev, [name]: value }] *)
Definition setField (f : Field) (value : jsstring) (d : ContactFormData)
  : ContactFormData :=
  match f with
  | fName => {| name := value; email := email d; message := message d |}
  | fEmail => {| name := name d; email := value; message := message d |}
  | fMessage => {| name := name d; email := email d; message := value |}
  end.

Definition handleChange (f : Field) (value : jsstring) (st : FormState)
  : FormState :=
  let prev := validation st in
  {| formData := setField f value (formData st);
     validation :=
       if truthyError (errorOf (fv_errors prev) f) then
         {| fv_isValid := fv_isValid prev;
            fv_errors := <[fieldName f := None]> (fv_errors prev) |}
       else prev;
     status := status st;
     touched := touched st |}.

Definition handleBlur (f : Field) (st : FormState) : FormState :=
  let result := validateContactForm (formData st) in
  let prev := validation st in
  {| formData := formData st;
     validation :=
       if truthyError (Validation.errors result !! fieldName f) then
         {| fv_isValid := fv_isValid prev;
            fv_errors :=
              <[fieldName f := Validation.errors result !! fieldName f]>
                (fv_errors prev) |}
       else prev;
     status := status st;
     touched := <[fieldName f := true]> (touched st) |}.

Definition allTouched : gmap string bool :=
  <["message" := true]> (<["email" := true]> (<["name" := true]> ∅)).

(** [handleSubmit], with the outcome of [onSubmit] when the caller gave
    one: it resolves or rejects.  The inputs and the button are disabled
    while it is awaited.  The result is the new state and the data handed
    to [onSubmit], if it was called. *)
Definition handleSubmit
  (onSubmit : option (ContactFormData -> completion unit)) (st : FormState)
  : FormState * option ContactFormData :=
  let result := validateContactForm (formData st) in
  if negb (Validation.isValid result) then
    ({| formData := formData st; validation := ofResult result;
        status := status st; touched := allTouched |}, None)
  else
    let outcome :=
      match onSubmit with
      | Some send => send (formData st)
      | None => Normal tt
      end in
    let sent :=
      match onSubmit with
      | Some _ => Some (formData st)
      | None => None
      end in
    match outcome with
    | Normal _ =>
        ({| formData := emptyData; validation := ofResult result;
            status := success; touched := ∅ |}, sent)
    | Throw =>
        ({| formData := formData st; validation := ofResult result;
            status := error; touched := allTouched |}, sent)
    end.

(** [getFieldError(field)] *)
Definition getFieldError (st : FormState) (f : Field) : option string :=
  match touched st !! fieldName f with
  | Some true => errorOf (fv_errors (validation st)) f
  | _ => None
  end.

(** What the user does. *)
Inductive FormEvent : Type :=
| Change (f : Field) (value : jsstring)
| Blur (f : Field)
| Submit.

(** The form and the log of what was handed to [onSubmit]. *)
Definition formStep
  (onSubmit : option (ContactFormData -> completion unit))
  (acc : FormState * list ContactFormData) (e : FormEvent)
  : FormState * list ContactFormData :=
  let '(st, log) := acc in
  match e with
  | Change f value => (handleChange f value st, log)
  | Blur f => (handleBlur f st, log)
  | Submit =>
      let '(st', sent) := handleSubmit onSubmit st in
      (st', match sent with Some d => log ++ [d] | None => log end)
  end.

Definition formRun
  (onSubmit : option (ContactFormData -> completion unit))
  (events : list FormEvent) : FormState * list ContactFormData :=
  fold_left (formStep onSubmit) events (initial, []).

End ContactFormUI.

(** ** The components that call the two handlers ([GitHubActivity],
    [Blogs]) *)

Module Clients.
Import JS Http.

(** What a [catch] clause can tell of the value it receives: an [Error]
    with its [name] and [message], or something else. *)
Inductive Thrown : Type :=
| AnError (name message : string)
| NotAnError.

Inductive Outcome (A : Type) : Type :=
| Done (a : A)
| Raised (e : Thrown).
Arguments Done {A} a.
Arguments Raised {A} e.

(** What the component reads of the response: its status and the result
    of [res.json()], one of the two bodies a handler sends. *)
Record ClientResponse (A : Type) : Type := {
  cr_status : Z;
  cr_json : Outcome (Payload A);
}.
Arguments cr_status {A} c.
Arguments cr_json {A} c.

(** [res.ok] *)
Definition cr_ok {A} (res : ClientResponse A) : bool :=
  (200 <=? cr_status res) && (cr_status res <=? 299).

(** A handler's answer as the browser receives it. *)
Definition served {A} (r : NextResponse A) : ClientResponse A :=
  {| cr_status := code r; cr_json := Done (payload r) |}.

(** [data.error], [undefined] on a body without it. *)
Definition errorField {A} (data : Payload A) : option string :=
  match data with
  | ErrorBody e => Some e
  | Data _ => None
  end.

(** [ToBoolean] on [string | null]. *)
Definition isSet (x : option string) : bool :=
  match x with
  | Some s => negb (String.eqb s EmptyString)
  | None => false
  end.

(** [x || fallback] on [string | undefined]. *)
Definition orElse (x : option string) (fallback : string) : string :=
  match x with
  | Some s => if String.eqb s EmptyString then fallback else s
  | None => fallback
  end.

(** [err instanceof Error ? err.message : fallback] *)
Definition messageOf (e : Thrown) (fallback : string) : string :=
  match e with
  | AnError _ message => message
  | NotAnError => fallback
  end.

(** [err instanceof Error && err.name === 'AbortError'] *)
Definition isAbort (e : Thrown) : bool :=
  match e with
  | AnError name _ => String.eqb name "AbortError"
  | NotAnError => false
  end.

(** [new Error(message)] *)
Definition newError (message : string) : Thrown := AnError "Error" message.

(** *** [GitHubActivity] *)

(** The statistics as the component stores them: each field is read off
    the body and is [undefined] when the body lacks it. *)
Record GitHubStats : Type := {
  publicRepos : option Z;
  followers : option Z;
  following : option Z;
  totalStars : option Z;
  topLanguages : option (list GitHub.Language);
  totalContributions : option Z;
  currentStreak : option Z;
  longestStreak : option Z;
  lastUpdated : jsstring;
}.

Record ActivityState : Type := {
  stats : option GitHubStats;
  loading : bool;
  error : option string;
}.

Definition initialActivity : ActivityState :=
  {| stats := None; loading := true; error := None |}.

Definition field {B} (data : Payload GitHub.Stats) (get : GitHub.Stats -> B)
  : option B :=
  match data with
  | Data s => Some (get s)
  | ErrorBody _ => None
  end.

(** The [try] block of [fetchGitHubData], up to what it throws. *)
Definition loadStats (now : jsstring)
  (fetched : Outcome (ClientResponse GitHub.Stats)) : Outcome GitHubStats :=
  match fetched with
  | Raised e => Raised e
  | Done res =>
      if negb (cr_ok res) then
        match cr_json res with
        | Raised e => Raised e
        | Done data =>
            if cr_status res =? 429 then
              Raised (newError
                        "GitHub API rate limit exceeded. Try again later.")
            else
              Raised (newError
                        (orElse (errorField data) "Failed to fetch data"))
        end
      else
        match cr_json res with
        | Raised e => Raised e
        | Done data =>
            Done {| publicRepos := field data GitHub.publicRepos;
                    followers := field data GitHub.followers';
                    following := field data GitHub.following';
                    totalStars := field data GitHub.totalStars;
                    topLanguages := field data GitHub.topLanguages;
                    totalContributions :=
                      field data GitHub.totalContributions;
                    currentStreak := field data GitHub.currentStreak;
                    longestStreak := field data GitHub.longestStreak;
                    lastUpdated := now |}
        end
  end.

(** [fetchGitHubData] from start to [finally], on the state it found. *)
Definition fetchGitHubData (now : jsstring)
  (fetched : Outcome (ClientResponse GitHub.Stats)) (st : ActivityState)
  : ActivityState :=
  match loadStats now fetched with
  | Done s => {| stats := Some s; loading := false; error := None |}
  | Raised e =>
      {| stats := stats st; loading := false;
         error :=
           if isAbort e then Some "Request timed out. Check your connection."
           else Some (messageOf e "Failed to fetch data") |}
  end.

(** What the component renders once loaded: the error panel when there is
    an error or no statistics, the statistics otherwise. *)
Inductive ActivityView : Type :=
| Spinner
| ErrorPanel (message : string)
| StatsPanel (s : GitHubStats).

Definition render (st : ActivityState) : ActivityView :=
  if loading st then Spinner
  else
    match stats st with
    | Some s =>
        if isSet (error st)
        then ErrorPanel (orElse (error st) "Unable to load data")
        else StatsPanel s
    | None => ErrorPanel (orElse (error st) "Unable to load data")
    end.

(** *** [Blogs] *)

Record BlogsState : Type := {
  b_blogs : list DevTo.Blog;
  b_loading : bool;
  b_error : option string;
}.

Definition initialBlogs : BlogsState :=
  {| b_blogs := []; b_loading := true; b_error := None |}.

(** [data.blogs || []] *)
Definition blogsField (data : Payload DevTo.Blogs) : list DevTo.Blog :=
  match data with
  | Data d => DevTo.blogs d
  | ErrorBody _ => []
  end.

(** The [try] block of [fetchBlogs]. *)
Definition loadBlogs (maxPosts : Z)
  (fetched : Outcome (ClientResponse DevTo.Blogs))
  : Outcome (list DevTo.Blog) :=
  match fetched with
  | Raised e => Raised e
  | Done response =>
      if negb (cr_ok response) then
        (* response.json().catch(() => ({})) *)
        let errorData :=
          match cr_json response with
          | Done data => errorField data
          | Raised _ => None
          end in
        Raised (newError (orElse errorData "Failed to fetch blog posts"))
      else
        match cr_json response with
        | Raised e => Raised e
        | Done data => Done (slice (blogsField data) 0 maxPosts)
        end
  end.

Definition fetchBlogs (maxPosts : Z)
  (fetched : Outcome (ClientResponse DevTo.Blogs)) : BlogsState :=
  match loadBlogs maxPosts fetched with
  | Done blogs => {| b_blogs := blogs; b_loading := false; b_error := None |}
  | Raised e =>
      {| b_blogs := []; b_loading := false;
         b_error := Some (messageOf e "Failed to fetch blog posts") |}
  end.

End Clients.

(** ** Specification-level vocabulary

    The notions the statements below are phrased in; none of them is used
    by the code above. *)

Module Spec.
Import JS.

(** *** Sorting *)

(** The order a comparator induces: [x] may precede [y]. *)
Definition before {A} (cmp : A -> A -> Z) (x y : A) : Prop := cmp x y <= 0.

(** A comparator is consistent on the elements of [l] when [before] is
    total and transitive there. *)
Definition consistent {A} (cmp : A -> A -> Z) (l : list A) : Prop :=
  (forall x y, In x l -> In y l -> before cmp x y \/ before cmp y x)
  /\ (forall x y z, In x l -> In y l -> In z l ->
        before cmp x y -> before cmp y z -> before cmp x z).

(** *** Contact form: the three checks *)

Definition nameOk (data : Validation.ContactFormData) : Prop :=
  2 <= strlen (trim (Validation.name data)).

(** The shape the e-mail pattern describes: [local@domain.tld], the three
    parts non-empty and free of white space and of [@]. *)
Definition plainChar (c : N) : Prop := isWhiteSpace c = false /\ c <> 64%N.

Definition emailShape (s : jsstring) : Prop :=
  exists l d t : jsstring,
    s = l ++ 64%N :: d ++ 46%N :: t
    /\ l <> [] /\ d <> [] /\ t <> []
    /\ Forall plainChar l /\ Forall plainChar d /\ Forall plainChar t.

Definition emailOk (data : Validation.ContactFormData) : Prop :=
  test_anchored Validation.emailRegex (Validation.email data) = true.

Definition messageOk (data : Validation.ContactFormData) : Prop :=
  10 <= strlen (trim (Validation.message data)).

(** The [errors] object as a function of the outcome of the three
    checks. *)
Definition errorsFor (n e m : bool) : gmap string string :=
  let errors : gmap string string := ∅ in
  let errors :=
    if n then errors else <["name" := Validation.name_error]> errors in
  let errors :=
    if e then errors else <["email" := Validation.email_error]> errors in
  if m then errors else <["message" := Validation.message_error]> errors.

(** *** Proxy handlers *)

Import Http.

(** [!username]: the parameter is absent, or present with an empty
    value. *)
Definition absentOrEmpty (request : Request) : Prop :=
  username request = None \/ username request = Some [].

Definition errorStatuses : list Z := [401; 404; 429; 500].

(** The status each handler answers with for a non-OK upstream status. *)
Definition githubErrorStatus (upstream : Z) : Z :=
  if upstream =? 403 then 429
  else if upstream =? 401 then 401
  else if upstream =? 404 then 404
  else 500.

Definition devtoErrorStatus (upstream : Z) : Z :=
  if upstream =? 404 then 404
  else if upstream =? 429 then 429
  else 500.

(** An outbound fetch fails when it throws or answers non-OK. *)
Definition failed {A} (f : Fetch A) : Prop :=
  f = Throw \/ exists res, f = Normal res /\ ok res = false.

(** Either a success, or a JSON error with one of the four statuses. *)
Definition successOrKnownError {A} (r : NextResponse A) : Prop :=
  is_success r \/ exists s, In s errorStatuses /\ is_error r s.

(** *** Repository statistics *)

(** The sum of the star counts. *)
Definition starSum (repos : list GitHub.GitHubRepo) : Z :=
  fold_right Z.add 0 (map GitHub.stargazers_count repos).

(** How many repositories are in language [l]. *)
Definition repoCount (l : jsstring) (repos : list GitHub.GitHubRepo) : Z :=
  Z.of_nat
    (length
       (List.filter (fun r => bool_decide (GitHub.language r = Some l))
          repos)).

(** [l] is the language of some repository; the empty name does not
    count. *)
Definition counted (l : jsstring) (repos : list GitHub.GitHubRepo) : Prop :=
  l <> [] /\ exists r, In r repos /\ GitHub.language r = Some l.

(** The names every plain object inherits from [Object.prototype]. *)
Definition inheritedNames : list string :=
  ["constructor"; "toString"; "toLocaleString"; "valueOf";
   "hasOwnProperty"; "isPrototypeOf"; "propertyIsEnumerable"; "__proto__";
   "__defineGetter__"; "__defineSetter__"; "__lookupGetter__";
   "__lookupSetter__"]%string.

(** A language name that is none of them. *)
Definition plainName (l : jsstring) : Prop :=
  forall s, In s inheritedNames -> l <> lit s.

(** No repository has an inherited name for its language. *)
Definition plainLanguages (repos : list GitHub.GitHubRepo) : Prop :=
  forall r l, In r repos -> GitHub.language r = Some l -> plainName l.

(** The entry counts [n] repositories. *)
Definition counts (e : GitHub.Language) (n : Z) : Prop :=
  GitHub.lcount e = GitHub.Num n.

(** Descending order of count, between entries that hold numbers. *)
Definition byCountDesc (a b : GitHub.Language) : Prop :=
  exists x y, counts a x /\ counts b y /\ y <= x.

(** What [langCount] holds once [repos] have been visited: under each
    non-empty language name that occurs, the number of its
    repositories. *)
Definition tallies (repos : list GitHub.GitHubRepo)
  (obj : list (jsstring * GitHub.PropertyValue)) : Prop :=
  NoDup (map fst obj)
  /\ forall l, GitHub.lookup l obj
              = if truthy l && (0 <? repoCount l repos)
                then Some (GitHub.Num (repoCount l repos)) else None.

(** The list the statistics are computed from: the parsed answer of the
    repository fetch, or nothing when it is not OK. *)
Definition reposFrom (reposRes : Response (list GitHub.GitHubRepo))
  (repos : list GitHub.GitHubRepo) : Prop :=
  (if ok reposRes then json reposRes else Normal []) = Normal repos.

(** *** Streaks *)

(** A day with contributions. *)
Definition active (c : GitHub.Contribution) : Prop := 0 < GitHub.count c.

Definition activeb (c : GitHub.Contribution) : bool := 0 <? GitHub.count c.

(** The entries not dated after today. *)
Definition upToToday (w : GitHub.World) (cs : list GitHub.Contribution)
  : list GitHub.Contribution :=
  List.filter (fun c => str_leb (GitHub.date c) (GitHub.today w)) cs.

(** The comparator handed to [sort], and the order it induces. *)
Definition dateCompare (w : GitHub.World) (a b : GitHub.Contribution) : Z :=
  GitHub.localeCompare w (GitHub.date a) (GitHub.date b).

Definition byDate (w : GitHub.World) (a b : GitHub.Contribution) : Prop :=
  before (dateCompare w) a b.

(** [r] is a run of [v]: consecutive entries, all active. *)
Definition activeRun (v r : list GitHub.Contribution) : Prop :=
  exists pre post, v = pre ++ r ++ post /\ Forall active r.

(** [r] is a run at the end of [v]. *)
Definition suffixRun (v r : list GitHub.Contribution) : Prop :=
  exists pre, v = pre ++ r /\ Forall active r.

(** [n] is the length of the longest run of [v]. *)
Definition longestRun (v : list GitHub.Contribution) (n : Z) : Prop :=
  (exists r, activeRun v r /\ Z.of_nat (length r) = n)
  /\ forall r, activeRun v r -> Z.of_nat (length r) <= n.

(** The backward scan passes over an entry that is active or dated today,
    and stops at any other. *)
Definition passed (today : jsstring) (c : GitHub.Contribution) : Prop :=
  active c \/ GitHub.date c = today.

Definition stops (today : jsstring) (c : GitHub.Contribution) : Prop :=
  ~ active c /\ GitHub.date c <> today.

(** [n] is what the backward scan of [v] counts: the active entries of
    the longest suffix it passes over. *)
Definition trailingScan (today : jsstring) (v : list GitHub.Contribution)
  (n : Z) : Prop :=
  exists pre suf,
    v = pre ++ suf
    /\ Forall (passed today) suf
    /\ (pre = [] \/ exists pre' c, pre = pre' ++ [c] /\ stops today c)
    /\ n = Z.of_nat (length (List.filter activeb suf)).

(** What the longest-streak loop holds after the entries [p]: the length
    of the run at the end of [p], and the longest run so far. *)
Definition streakState (p : list GitHub.Contribution) (st : Z * Z) : Prop :=
  (exists r, suffixRun p r /\ Z.of_nat (length r) = fst st)
  /\ (forall r, suffixRun p r -> Z.of_nat (length r) <= fst st)
  /\ longestRun p (snd st).

(** Only the last entry of [v] can be dated today. *)
Definition todayLast (today : jsstring) (v : list GitHub.Contribution)
  : Prop :=
  forall pre x post,
    v = pre ++ x :: post -> GitHub.date x = today -> post = [].

(** The collation orders the given date strings as [<=] does, which is
    the case of dates written [YYYY-MM-DD]. *)
Definition collatesByCodeUnit (w : GitHub.World) (dates : list jsstring)
  : Prop :=
  forall a b, In a dates -> In b dates ->
    (GitHub.localeCompare w a b <= 0 <-> str_leb a b = true).

(** *** Device capability *)

Definition webglAvailable (win : Performance.Window) : Prop :=
  Performance.webgl win || Performance.experimental_webgl win = true.

(** Two code units are the same letter up to ASCII case. *)
Definition asciiLower (c : N) : Prop := (97 <= c <= 122)%N.

Definition sameLetter (a b : N) : Prop :=
  a = b
  \/ (asciiLower a /\ b = (a - 32)%N)
  \/ (asciiLower b /\ a = (b - 32)%N).

(** The names of the mobile pattern. *)
Definition mobileNames : list string :=
  ["Android"; "webOS"; "iPhone"; "iPad"; "iPod"; "BlackBerry"; "IEMobile";
   "Opera Mini"]%string.

(** The user agent matches the mobile pattern: one of the names occurs
    in it, in whatever case. *)
Definition mobileUserAgent (ua : jsstring) : Prop :=
  exists name pre occurrence post,
    In name mobileNames
    /\ ua = pre ++ occurrence ++ post
    /\ Forall2 sameLetter (lit name) occurrence.

(** What the browser reports: so many cores, so much memory. *)
Definition reportsCores (win : Performance.Window) (c : Z) : Prop :=
  Performance.hardwareConcurrency (Performance.navigator win) = Some c.

Definition reportsMemory (win : Performance.Window) (m : Q) : Prop :=
  Performance.deviceMemory (Performance.navigator win) = Some m.

(** The four conditions of ['low'], read on what the browser reports. *)
Definition fewCores (win : Performance.Window) : Prop :=
  exists c, reportsCores win c /\ c <= 2.

Definition littleMemory (win : Performance.Window) : Prop :=
  exists m, reportsMemory win m /\ (m < 4)%Q.

Definition lowConditions (win : Performance.Window) : Prop :=
  ~ webglAvailable win
  \/ mobileUserAgent (Performance.userAgent (Performance.navigator win))
  \/ fewCores win
  \/ littleMemory win.

(** The conditions of ['high']. *)
Definition manyCores (win : Performance.Window) : Prop :=
  exists c, reportsCores win c /\ 8 <= c.

Definition muchMemory (win : Performance.Window) : Prop :=
  exists m, reportsMemory win m /\ (8 <= m)%Q.

(** The conditions under which the detection answers ['low']: those
    four, a browser that reports no cores counting as one with few, and a
    report of no memory at all (0) not counting as little. *)
Definition lowDevice (win : Performance.Window) : Prop :=
  ~ webglAvailable win
  \/ mobileUserAgent (Performance.userAgent (Performance.navigator win))
  \/ fewCores win
  \/ Performance.hardwareConcurrency (Performance.navigator win) = None
  \/ (exists m, reportsMemory win m /\ (m < 4)%Q /\ ~ (m == 0)%Q).

(** The conditions for ['high'], once none of the above holds. *)
Definition highDevice (win : Performance.Window) : Prop :=
  manyCores win /\ muchMemory win.

(** *** Network graph *)

(** The connection joins two nodes of [visible], from a node to one of
    its targets. *)
Definition joins (visible : list NetworkGraph.NodeData)
  (c : NetworkGraph.Connection) : Prop :=
  exists n m,
    In n visible /\ In m visible
    /\ In (NetworkGraph.id m) (NetworkGraph.connections n)
    /\ NetworkGraph.start c = NetworkGraph.position n
    /\ NetworkGraph.end_ c = NetworkGraph.position m
    /\ NetworkGraph.key c
       = (NetworkGraph.id n ++ "-" ++ NetworkGraph.id m)%string.

(** The identifiers of the rendered nodes, as the component holds them. *)
Definition idsOf (visible : list NetworkGraph.NodeData) : gset string :=
  list_to_set (map NetworkGraph.id visible).

End Spec.

(** ** Sample environments, for concrete runs *)

Module Samples.
Import JS Http.

Definition okResponse {A} (a : A) : Response A :=
  {| status := 200; body := Text (Some a) |}.

(** An upstream error answer: the given status and a body that is not the
    expected JSON. *)
Definition errorResponse {A} (status : Z) : Response A :=
  {| status := status; body := Text None |}.

(** A collation that orders strings by code units. *)
Definition codeUnitCompare (a b : jsstring) : Z :=
  match str_compare a b with Lt => -1 | Eq => 0 | Gt => 1 end.

Definition octocat : jsstring := lit "octocat".

Definition someUser : GitHub.GitHubUser :=
  {| GitHub.public_repos := 8; GitHub.followers := 3;
     GitHub.following := 1 |}.

Definition repo (stars : Z) (language : option string) : GitHub.GitHubRepo :=
  {| GitHub.stargazers_count := stars;
     GitHub.language := option_map lit language |}.

Definition someRepos : list GitHub.GitHubRepo :=
  [repo 5 (Some "Java"); repo 2 None; repo 1 (Some "Go");
   repo 0 (Some "Java"); repo 7 (Some EmptyString)]%string.

Definition day (date : string) (count : Z) : GitHub.Contribution :=
  {| GitHub.date := lit date; GitHub.count := count |}.

(** Out of order, with a future entry and an idle today. *)
Definition someContributions : list GitHub.Contribution :=
  [day "2024-03-09" 2; day "2024-03-05" 1; day "2024-03-06" 4;
   day "2024-03-07" 1; day "2024-03-08" 0; day "2024-03-10" 0;
   day "2024-03-11" 6]%string.

Definition someYears : GitHub.AllYearsData :=
  {| GitHub.total := Some [(lit "2023", 40); (lit "2024", 14)];
     GitHub.contributions := Some someContributions |}.

(** All three services answer. *)
Definition healthy : GitHub.World :=
  {| GitHub.fetchUser := fun _ => Normal (okResponse someUser);
     GitHub.fetchRepos := fun _ => Normal (okResponse someRepos);
     GitHub.fetchContributions := fun _ => Normal (okResponse someYears);
     GitHub.today := lit "2024-03-10";
     GitHub.localeCompare := codeUnitCompare |}.

(** The repository listing answers 500 and the contributions service is
    unreachable. *)
Definition degraded : GitHub.World :=
  {| GitHub.fetchUser := fun _ => Normal (okResponse someUser);
     GitHub.fetchRepos := fun _ => Normal (errorResponse 500);
     GitHub.fetchContributions := fun _ => Throw;
     GitHub.today := lit "2024-03-10";
     GitHub.localeCompare := codeUnitCompare |}.

(** GitHub answers 403 to the user request. *)
Definition rateLimited : GitHub.World :=
  {| GitHub.fetchUser := fun _ => Normal (errorResponse 403);
     GitHub.fetchRepos := fun _ => Throw;
     GitHub.fetchContributions := fun _ => Throw;
     GitHub.today := lit "2024-03-10";
     GitHub.localeCompare := codeUnitCompare |}.

(** The answer of the handler in the [healthy] world. *)
Definition healthyStats : GitHub.Stats :=
  {| GitHub.publicRepos := 8; GitHub.followers' := 3;
     GitHub.following' := 1; GitHub.totalStars := 15;
     GitHub.topLanguages :=
       [ {| GitHub.name := lit "Java"; GitHub.lcount := GitHub.Num 2 |};
         {| GitHub.name := lit "Go"; GitHub.lcount := GitHub.Num 1 |} ];
     GitHub.totalContributions := 54;
     GitHub.currentStreak := 1;
     GitHub.longestStreak := 3 |}.

(** The only repository has the empty string for its language. *)
Definition unnamedLanguage : GitHub.World :=
  {| GitHub.fetchUser := fun _ => Normal (okResponse someUser);
     GitHub.fetchRepos := fun _ =>
       Normal (okResponse [repo 7 (Some EmptyString)]);
     GitHub.fetchContributions := fun _ => Throw;
     GitHub.today := lit "2024-03-10";
     GitHub.localeCompare := codeUnitCompare |}.

Definition unnamedLanguageStats : GitHub.Stats :=
  {| GitHub.publicRepos := 8; GitHub.followers' := 3;
     GitHub.following' := 1; GitHub.totalStars := 7;
     GitHub.topLanguages := [];
     GitHub.totalContributions := 0;
     GitHub.currentStreak := 0;
     GitHub.longestStreak := 0 |}.

(** A configuration with a negative node limit. *)
Definition negativeNodes : Performance.PerformanceConfig :=
  {| Performance.quality := Performance.low;
     Performance.maxNodes := -2;
     Performance.geometryDetail := 8;
     Performance.enableAnimations := false;
     Performance.enableGlow := false;
     Performance.targetFPS := 30 |}.

(** A desktop browser: 8 cores, 8 GiB, WebGL. *)
Definition desktop : Performance.Window :=
  {| Performance.webgl := true;
     Performance.experimental_webgl := false;
     Performance.navigator :=
       {| Performance.hardwareConcurrency := Some 8;
          Performance.deviceMemory := Some 8%Q;
          Performance.userAgent :=
            lit "Mozilla/5.0 (X11; Linux x86_64) Chrome/120.0" |} |}.

(** A phone with the same hardware figures. *)
Definition phone : Performance.Window :=
  {| Performance.webgl := true;
     Performance.experimental_webgl := false;
     Performance.navigator :=
       {| Performance.hardwareConcurrency := Some 8;
          Performance.deviceMemory := Some 8%Q;
          Performance.userAgent :=
            lit "Mozilla/5.0 (Linux; ANDROID 14; Pixel 8) Chrome/120.0" |} |}.

(** A browser that reports neither cores nor memory. *)
Definition opaqueBrowser : Performance.Window :=
  {| Performance.webgl := true;
     Performance.experimental_webgl := false;
     Performance.navigator :=
       {| Performance.hardwareConcurrency := None;
          Performance.deviceMemory := None;
          Performance.userAgent := lit "Mozilla/5.0 (X11; Linux x86_64)" |} |}.

(** GitHub answers 403 and the connection breaks while the body is
    read. *)
Definition brokenBody : GitHub.World :=
  {| GitHub.fetchUser := fun _ =>
       Normal {| status := 403; body := Unreadable |};
     GitHub.fetchRepos := fun _ => Throw;
     GitHub.fetchContributions := fun _ => Throw;
     GitHub.today := lit "2024-03-10";
     GitHub.localeCompare := codeUnitCompare |}.

(** A collation that ignores the control character U+0001, as the
    collations of the Unicode algorithm do, and otherwise orders by code
    units. *)
Definition ignoringControl (a b : jsstring) : Z :=
  codeUnitCompare (List.filter (fun c => negb (c =? 1)%N) a)
    (List.filter (fun c => negb (c =? 1)%N) b).

(** Three entries with pairwise-distinct dates, one of them written with
    that control character: it is [<=] today as a string and sorts after
    today. *)
Definition controlContributions : list GitHub.Contribution :=
  [ {| GitHub.date := (lit "2024-03" ++ [1%N] ++ lit "-11")%list;
       GitHub.count := 1 |};
    day "2024-03-10" 0; day "2024-03-09" 1 ].

Definition controlYears : GitHub.AllYearsData :=
  {| GitHub.total := None;
     GitHub.contributions := Some controlContributions |}.

Definition looseCollation : GitHub.World :=
  {| GitHub.fetchUser := fun _ => Normal (okResponse someUser);
     GitHub.fetchRepos := fun _ => Normal (okResponse []);
     GitHub.fetchContributions := fun _ => Normal (okResponse controlYears);
     GitHub.today := lit "2024-03-10";
     GitHub.localeCompare := ignoringControl |}.

Definition looseCollationStats : GitHub.Stats :=
  {| GitHub.publicRepos := 8; GitHub.followers' := 3;
     GitHub.following' := 1; GitHub.totalStars := 0;
     GitHub.topLanguages := [];
     GitHub.totalContributions := 0;
     GitHub.currentStreak := 2;
     GitHub.longestStreak := 1 |}.

(** A repository in a language named [constructor]. *)
Definition inheritedLanguage : list GitHub.GitHubRepo :=
  [repo 1 (Some "constructor"); repo 1 (Some "constructor");
   repo 1 (Some "__proto__"); repo 1 (Some "Go")]%string.

(** Languages named by array indices and others. *)
Definition indexLanguages : list GitHub.GitHubRepo :=
  [repo 1 (Some "Go"); repo 1 (Some "10"); repo 1 (Some "9");
   repo 1 (Some "007")]%string.

Definition article (n : Z) : DevTo.DevToArticle :=
  {| DevTo.id := n; DevTo.title := lit "Title";
     DevTo.description := lit "About"; DevTo.url := lit "https://dev.to/a";
     DevTo.cover_image := None; DevTo.social_image := Some (lit "s.png");
     DevTo.published_at := lit "2024-03-01T10:00:00Z";
     DevTo.reading_time_minutes := n + 2;
     DevTo.tag_list := [lit "java"; lit "spring"] |}.

Definition fourArticles : DevTo.World :=
  {| DevTo.fetchArticles := fun _ =>
       Normal (okResponse [article 1; article 2; article 3; article 4]) |}.

Definition devtoDown : DevTo.World :=
  {| DevTo.fetchArticles := fun _ => Normal (errorResponse 429) |}.

End Samples.

(** ** More vocabulary and samples, for the rest of the code *)

Module SpecMore.
Import JS.

(** A string of white space only. *)
Definition allWhiteSpace (s : jsstring) : Prop :=
  Forall (fun c => isWhiteSpace c = true) s.

(** A string without white space. *)
Definition noWhiteSpace (s : jsstring) : Prop :=
  Forall (fun c => isWhiteSpace c = false) s.

(** A class without one of the four breakpoint prefixes. *)
Definition unprefixed (cls : jsstring) : Prop :=
  JSText.startsWith cls (lit "sm:") = false
  /\ JSText.startsWith cls (lit "md:") = false
  /\ JSText.startsWith cls (lit "lg:") = false
  /\ JSText.startsWith cls (lit "xl:") = false.

(** The widths that fall between the breakpoints or before the first:
    [NaN], minus infinity, a negative width, and a width strictly between
    767 and 768 or between 1023 and 1024. *)
Definition inGap (width : JSNumber.number) : Prop :=
  match width with
  | JSNumber.Finite q =>
      (q < 0)%Q \/ (767 < q /\ q < 768)%Q \/ (1023 < q /\ q < 1024)%Q
  | JSNumber.PosInfinity => False
  | JSNumber.NegInfinity | JSNumber.NaN => True
  end.

(** The width lies within the bounds of the configuration. *)
Definition within (width : JSNumber.number)
  (config : Responsive.BreakpointConfig) : Prop :=
  match width with
  | JSNumber.Finite q =>
      (inject_Z (Responsive.minWidth config) <= q)%Q
      /\ forall m, Responsive.maxWidth config = Some m ->
                   (q <= inject_Z m)%Q
  | JSNumber.PosInfinity => Responsive.maxWidth config = None
  | JSNumber.NegInfinity | JSNumber.NaN => False
  end.

(** A whole number of pixels. *)
Definition wholePixels (width : JSNumber.number) (z : Z) : Prop :=
  exists q, width = JSNumber.Finite q /\ (q == inject_Z z)%Q.

(** The arguments of the calls in a trace, and the number of timer
    firings. *)
Definition callArgs {A} (events : list (Timers.Event A)) : list A :=
  flat_map (fun e => match e with
                     | Timers.Call args => [args]
                     | Timers.Fire => []
                     end) events.

Definition fires {A} (events : list (Timers.Event A)) : nat :=
  length (List.filter (fun e => match e with
                                | Timers.Fire => true
                                | Timers.Call _ => false
                                end) events).

(** The arguments of all the calls an invocation stands for, the calls
    [func] makes in turn included, in the order they are made. *)
Fixpoint invocationArgs {A} (i : Timers.Invocation A) : list A :=
  match i with
  | Timers.Invoke args during _ => args :: flat_map invocationArgs during
  end.

Definition calledArgs {A} (events : list (Timers.ThrottleEvent A)) : list A :=
  flat_map (fun e => match e with
                     | Timers.TCall i => invocationArgs i
                     | Timers.TFire => []
                     end) events.

Definition firings {A} (events : list (Timers.ThrottleEvent A)) : nat :=
  length (List.filter (fun e => match e with
                                | Timers.TFire => true
                                | Timers.TCall _ => false
                                end) events).

(** A call whose [func] returns without calling the throttled function
    again; a trace of such calls and timer firings. *)
Definition plainCall {A} (args : A) : Timers.ThrottleEvent A :=
  Timers.TCall (Timers.Invoke args [] true).

Definition wellBehaved {A} (events : list (Timers.ThrottleEvent A)) : Prop :=
  Forall (fun e => e = Timers.TFire \/ exists args, e = plainCall args)
    events.

(** The throttled function is idle with no timer set, or waiting with
    exactly one. *)
Definition throttleOk {A} (st : Timers.Throttled A) : Prop :=
  (Timers.inThrottle st = false /\ Timers.th_timers st = 0%nat)
  \/ (Timers.inThrottle st = true /\ Timers.th_timers st = 1%nat).

(** While the throttled function waits, a timer is pending. *)
Definition willWake {A} (st : Timers.Throttled A) : Prop :=
  Timers.inThrottle st = true -> Timers.th_timers st <> 0%nat.

(** What a call adds to the calls of [func]: some of the calls it stands
    for, in order.  A waiting function keeps a timer pending. *)
Definition callAdds {A} (i : Timers.Invocation A) : Prop :=
  forall st : Timers.Throttled A,
    willWake st ->
    willWake (Timers.throttleCall i st)
    /\ exists extra,
         Timers.th_invoked (Timers.throttleCall i st)
         = Timers.th_invoked st ++ extra
         /\ sublist extra (invocationArgs i).

(** The arguments held by the live timer of a debounced function. *)
Definition pendingArgs {A} (st : Timers.Debounced A) : list A :=
  match Timers.db_pending st with Some a => [a] | None => [] end.


(** The data passes the three checks of the validator. *)
Definition passes (d : Validation.ContactFormData) : Prop :=
  Spec.nameOk d /\ Spec.emailOk d /\ Spec.messageOk d.

(** What the validator says of one field of the data. *)
Definition fieldError (d : Validation.ContactFormData)
  (f : ContactFormUI.Field) : option string :=
  Validation.errors (Validation.validateContactForm d)
    !! ContactFormUI.fieldName f.

(** No error held by the form is stale: each is what the validator says
    of the data as it is now. *)
Definition fresh (st : ContactFormUI.FormState) : Prop :=
  forall f e,
    ContactFormUI.errorOf
      (ContactFormUI.fv_errors (ContactFormUI.validation st)) f = Some e ->
    fieldError (ContactFormUI.formData st) f = Some e.

(** The message [GitHubActivity] shows for a non-OK status of GitHub's
    user request, and [Blogs] for a non-OK status of dev.to. *)
Definition activityMessage (upstream : Z) : string :=
  if upstream =? 403 then "GitHub API rate limit exceeded. Try again later."
  else if upstream =? 401 then "Invalid GitHub token"
  else if upstream =? 404 then "User not found"
  else "Failed to fetch GitHub data".

Definition blogsMessage (upstream : Z) : string :=
  if upstream =? 404 then "User not found"
  else if upstream =? 429 then "Rate limit exceeded"
  else "Failed to fetch blog posts".

(** The component keeps the statistics it had and shows the error panel
    with the message. *)
Definition showsError (before after : Clients.ActivityState)
  (message : string) : Prop :=
  after = {| Clients.stats := Clients.stats before;
             Clients.loading := false;
             Clients.error := Some message |}
  /\ Clients.render after = Clients.ErrorPanel message.

(** The statistics of a success body as the component stores them. *)
Definition shown (s : GitHub.Stats) (now : jsstring) : Clients.GitHubStats :=
  {| Clients.publicRepos := Some (GitHub.publicRepos s);
     Clients.followers := Some (GitHub.followers' s);
     Clients.following := Some (GitHub.following' s);
     Clients.totalStars := Some (GitHub.totalStars s);
     Clients.topLanguages := Some (GitHub.topLanguages s);
     Clients.totalContributions := Some (GitHub.totalContributions s);
     Clients.currentStreak := Some (GitHub.currentStreak s);
     Clients.longestStreak := Some (GitHub.longestStreak s);
     Clients.lastUpdated := now |}.

(** The sum of the yearly totals. *)
Definition yearlySum (total : list (jsstring * Z)) : Z :=
  fold_right Z.add 0 (map snd total).

End SpecMore.

Module SamplesMore.
Import JS.

Definition alice : Validation.ContactFormData :=
  {| Validation.name := lit "Alice";
     Validation.email := lit "alice@example.org";
     Validation.message := lit "Hello, is this thing on?" |}.

(** A visitor types a one-letter name, leaves the field, completes the
    form and submits it, corrects the name and submits again. *)
Definition session : list ContactFormUI.FormEvent :=
  [ ContactFormUI.Change ContactFormUI.fName (lit "A");
    ContactFormUI.Blur ContactFormUI.fName;
    ContactFormUI.Change ContactFormUI.fEmail (lit "alice@example.org");
    ContactFormUI.Change ContactFormUI.fMessage
      (lit "Hello, is this thing on?");
    ContactFormUI.Submit;
    ContactFormUI.Change ContactFormUI.fName (lit "Alice");
    ContactFormUI.Submit ].

(** An [onSubmit] that always resolves. *)
Definition delivers : option (Validation.ContactFormData -> completion unit) :=
  Some (fun _ => Normal tt).

End SamplesMore.

(** * Properties *)

(** ** Regular expression matching *)

Module RegexFacts.
Import JS.

Lemma test_anchored_nil (s : jsstring) :
  test_anchored [] s = true <-> s = [].
Proof. destruct s; simpl; split; congruence. Qed.

Lemma test_anchored_one (a : atom) (r : list item) (s : jsstring) :
  test_anchored (One a :: r) s = true <->
  exists c s', s = c :: s' /\ atom_matches a c = true
               /\ test_anchored r s' = true.
Proof.
  destruct s as [|c s']; simpl.
  - split; [discriminate | intros (? & ? & ? & _); discriminate].
  - rewrite andb_true_iff. split.
    + intros [Hc Hr]. eauto.
    + intros (c0 & s0 & Heq & Hc & Hr). injection Heq as -> ->. auto.
Qed.

Lemma test_anchored_more_cons (a : atom) (r : list item) (c : N)
  (s : jsstring) :
  test_anchored (OneOrMore a :: r) (c :: s)
  = atom_matches a c
    && (test_anchored (OneOrMore a :: r) s || test_anchored r s).
Proof. reflexivity. Qed.

(** A [+] takes a non-empty block of matching characters, whichever way
    the backtracking goes. *)
Lemma test_anchored_more (a : atom) (r : list item) (s : jsstring) :
  test_anchored (OneOrMore a :: r) s = true <->
  exists p s', s = p ++ s' /\ p <> []
               /\ Forall (fun c => atom_matches a c = true) p
               /\ test_anchored r s' = true.
Proof.
  split.
  - induction s as [|c s IH]; [discriminate|].
    rewrite test_anchored_more_cons, andb_true_iff, orb_true_iff.
    intros [Hc [Hmore | Hrest]].
    + destruct (IH Hmore) as (p & s' & -> & _ & Hp & Hr).
      exists (c :: p), s'. repeat split; auto; discriminate.
    + exists [c], s. repeat split; auto; discriminate.
  - intros (p & s' & -> & Hne & Hp & Hr).
    induction Hp as [|c p Hc Hp IH]; [congruence|].
    rewrite <- app_comm_cons, test_anchored_more_cons, Hc, andb_true_l.
    destruct p as [|c' p].
    + rewrite app_nil_l, Hr. apply orb_true_r.
    + rewrite IH by discriminate. reflexivity.
Qed.

End RegexFacts.

(** ** Contact form validation *)

Module ValidationFacts.
Import JS Validation Spec RegexFacts.

Lemma local_char_plain (c : N) :
  atom_matches local_char c = true <-> plainChar c.
Proof.
  unfold plainChar. simpl. rewrite negb_true_iff, orb_false_iff.
  rewrite N.eqb_neq. tauto.
Qed.

Lemma Forall_local_char (p : jsstring) :
  Forall (fun c => atom_matches local_char c = true) p <-> Forall plainChar p.
Proof. apply Forall_iff. intros c. apply local_char_plain. Qed.

(** The pattern accepts exactly the strings of the shape
    [local@domain.tld]. *)
Lemma emailRegex_shape (s : jsstring) :
  test_anchored emailRegex s = true <-> emailShape s.
Proof.
  unfold emailRegex, emailShape. rewrite test_anchored_more. split.
  - intros (l & s1 & -> & Hl & Fl & H1).
    apply test_anchored_one in H1 as (c1 & s2 & -> & Hc1 & H2).
    apply test_anchored_more in H2 as (d & s3 & -> & Hd & Fd & H3).
    apply test_anchored_one in H3 as (c2 & s4 & -> & Hc2 & H4).
    apply test_anchored_more in H4 as (t & s5 & -> & Ht & Ft & H5).
    apply test_anchored_nil in H5 as ->.
    simpl in Hc1, Hc2. apply N.eqb_eq in Hc1 as ->, Hc2 as ->.
    exists l, d, t. rewrite app_nil_r.
    rewrite Forall_local_char in Fl, Fd, Ft. auto 10.
  - intros (l & d & t & -> & Hl & Hd & Ht & Fl & Fd & Ft).
    rewrite <- Forall_local_char in Fl, Fd, Ft.
    exists l, (64%N :: d ++ 46%N :: t). repeat split; auto.
    apply test_anchored_one. exists 64%N, (d ++ 46%N :: t).
    repeat split; auto.
    apply test_anchored_more. exists d, (46%N :: t). repeat split; auto.
    apply test_anchored_one. exists 46%N, t. repeat split; auto.
    apply test_anchored_more. exists t, []. rewrite app_nil_r.
    repeat split; auto.
Qed.

(** The truthiness guards [!data.x ||] never decide: an empty string
    fails the check that follows anyway. *)
Lemma name_guard (s : jsstring) (n : Z) :
  0 < n -> negb (truthy s) || (strlen (trim s) <? n) = (strlen (trim s) <? n).
Proof.
  intros Hn. destruct s; simpl; [|reflexivity].
  symmetry. apply Z.ltb_lt. exact Hn.
Qed.

Lemma email_guard (s : jsstring) :
  negb (truthy s) || negb (test_anchored emailRegex s)
  = negb (test_anchored emailRegex s).
Proof. destruct s; reflexivity. Qed.

Lemma validateContactForm_errors (data : ContactFormData) :
  errors (validateContactForm data)
  = errorsFor (2 <=? strlen (trim (name data)))
      (test_anchored emailRegex (email data))
      (10 <=? strlen (trim (message data))).
Proof.
  unfold validateContactForm, errorsFor. cbn [errors].
  rewrite !name_guard, email_guard by lia.
  rewrite !Z.leb_antisym.
  generalize (strlen (trim (name data)) <? 2),
    (test_anchored emailRegex (email data)),
    (strlen (trim (message data)) <? 10).
  intros [] [] []; reflexivity.
Qed.

Lemma validateContactForm_isValid (data : ContactFormData) :
  isValid (validateContactForm data)
  = (size (errors (validateContactForm data)) =? 0)%nat.
Proof. reflexivity. Qed.

Lemma errorsFor_size (n e m : bool) :
  (size (errorsFor n e m) =? 0)%nat = n && e && m.
Proof. destruct n, e, m; reflexivity. Qed.


Lemma errorsFor_name (n e m : bool) :
  errorsFor n e m !! "name"%string = if n then None else Some name_error.
Proof. destruct n, e, m; reflexivity. Qed.

Lemma errorsFor_email (n e m : bool) :
  errorsFor n e m !! "email"%string = if e then None else Some email_error.
Proof. destruct n, e, m; reflexivity. Qed.

Lemma errorsFor_message (n e m : bool) :
  errorsFor n e m !! "message"%string
  = if m then None else Some message_error.
Proof. destruct n, e, m; reflexivity. Qed.





(** Two forms: one that passes, one that fails every check (the name is
    a single letter between spaces, the e-mail has no dot after the
    [@]). *)
Example validate_accepts :
  isValid
    (validateContactForm
       {| name := lit "Al"; email := lit "al@example.org";
          message := lit "Hello there!" |})
  = true.
Proof. vm_compute. reflexivity. Qed.

Example validate_rejects :
  let r := validateContactForm
             {| name := lit " A "; email := lit "al@example";
                message := lit "  too short  " |} in
  isValid r = false
  /\ errors r !! "name"%string = Some name_error
  /\ errors r !! "email"%string = Some email_error
  /\ errors r !! "message"%string = Some message_error.
Proof. vm_compute. repeat split. Qed.

End ValidationFacts.

(** ** Arrays: [slice] and [sort] *)

Module ArrayFacts.
Import JS.

Section Slice.
Context {A : Type}.
Implicit Types (l : list A) (n : Z).

(** From index 0 with a non-negative end, [slice] is a prefix. *)
Lemma slice_prefix l n :
  0 <= n -> slice l 0 n = firstn (Z.to_nat n) l.
Proof.
  intros Hn. unfold slice.
  replace (0 <? 0) with false by reflexivity.
  replace (n <? 0) with false by (symmetry; apply Z.ltb_ge; exact Hn).
  rewrite (Z.min_l 0) by lia. rewrite Z.sub_0_r.
  replace (skipn (Z.to_nat 0) l) with l by reflexivity.
  destruct (Z.le_ge_cases n (Z.of_nat (length l))) as [Hle | Hge].
  - rewrite Z.min_l by exact Hle. reflexivity.
  - rewrite Z.min_r by exact Hge. rewrite Nat2Z.id.
    rewrite (firstn_all2 (n := length l)) by reflexivity.
    symmetry. apply firstn_all2. lia.
Qed.

(** With a negative end it drops that many elements from the end. *)
Lemma slice_negative l n :
  n < 0 -> slice l 0 n = firstn (Z.to_nat (Z.of_nat (length l) + n)) l.
Proof.
  intros Hn. unfold slice.
  replace (0 <? 0) with false by reflexivity.
  replace (n <? 0) with true by (symmetry; apply Z.ltb_lt; exact Hn).
  rewrite (Z.min_l 0) by lia. rewrite Z.sub_0_r.
  replace (skipn (Z.to_nat 0) l) with l by reflexivity.
  f_equal. lia.
Qed.

Lemma slice_is_prefix l n : exists k, slice l 0 n = firstn k l.
Proof.
  destruct (Z.lt_ge_cases n 0).
  - eexists. apply slice_negative. assumption.
  - eexists. apply slice_prefix. assumption.
Qed.

End Slice.

Lemma StronglySorted_impl {A} (R R' : A -> A -> Prop) (l : list A) :
  (forall a b, R a b -> R' a b) ->
  StronglySorted R l -> StronglySorted R' l.
Proof.
  intros Himpl Hs. induction Hs as [|x l Hs IH Hx]; constructor.
  - exact IH.
  - revert Hx. apply List.Forall_impl. intros b. apply Himpl.
Qed.

Section Sort.
Context {A : Type} (cmp : A -> A -> Z).
Implicit Types (l : list A) (x y : A).

#[local] Abbreviation before := (Spec.before cmp).
#[local] Abbreviation consistent := (Spec.consistent cmp).

Lemma insert_perm x l : Permutation (insert cmp x l) (x :: l).
Proof.
  induction l as [|y l IH]; simpl; [reflexivity|].
  destruct (cmp x y <=? 0); [reflexivity|].
  rewrite IH. apply perm_swap.
Qed.

Lemma sort_perm l : Permutation (sort cmp l) l.
Proof.
  induction l as [|x l IH]; simpl; [reflexivity|].
  rewrite insert_perm. constructor. exact IH.
Qed.

Lemma sort_In l x : In x (sort cmp l) <-> In x l.
Proof.
  split; apply Permutation_in;
    [apply sort_perm | symmetry; apply sort_perm].
Qed.

Lemma sort_length l : length (sort cmp l) = length l.
Proof. apply Permutation_length, sort_perm. Qed.

Lemma insert_sorted x l :
  consistent (x :: l) ->
  StronglySorted before l -> StronglySorted before (insert cmp x l).
Proof.
  intros [Htot Htr] Hs. induction Hs as [|y l Hs IH Hy]; simpl.
  - repeat constructor.
  - destruct (Z.leb_spec (cmp x y) 0) as [Hxy | Hxy].
    + constructor; [constructor; assumption|].
      constructor; [exact Hxy|].
      rewrite List.Forall_forall in Hy |- *. intros z Hz.
      apply (Htr x y z); simpl; auto.
    + assert (Hyx : before y x).
      { destruct (Htot x y) as [H | H]; simpl; auto.
        unfold Spec.before in H. lia. }
      constructor.
      * apply IH.
        -- intros a b Ha Hb. apply Htot; simpl in *; tauto.
        -- intros a b c Ha Hb Hc. apply Htr; simpl in *; tauto.
      * rewrite List.Forall_forall in Hy |- *. intros z Hz.
        apply (Permutation_in _ (insert_perm x l)) in Hz.
        destruct Hz as [<- | Hz]; auto.
Qed.

(** With a consistent comparator the result is in ascending order. *)
Lemma sort_sorted l :
  consistent l -> StronglySorted before (sort cmp l).
Proof.
  induction l as [|x l IH]; intros [Htot Htr]; simpl; [constructor|].
  apply insert_sorted.
  - split.
    + intros a b Ha Hb. apply Htot; simpl in *;
        rewrite ?sort_In in *; tauto.
    + intros a b c Ha Hb Hc. apply Htr; simpl in *;
        rewrite ?sort_In in *; tauto.
  - apply IH. split.
    + intros a b Ha Hb. apply Htot; simpl; auto.
    + intros a b c Ha Hb Hc. apply Htr; simpl; auto.
Qed.

End Sort.

End ArrayFacts.

(** ** String comparison *)

Module StringFacts.
Import JS.

Lemma str_compare_antisym (a b : jsstring) :
  str_compare b a = CompOpp (str_compare a b).
Proof.
  revert b. induction a as [|x a IH]; intros [|y b]; simpl; auto.
  rewrite (N.compare_antisym x y).
  destruct (x ?= y)%N; simpl; auto.
Qed.

Lemma str_compare_eq (a b : jsstring) : str_compare a b = Eq -> a = b.
Proof.
  revert b. induction a as [|x a IH]; intros [|y b]; simpl;
    try discriminate; auto.
  destruct (N.compare_spec x y) as [Hxy | Hxy | Hxy]; try discriminate.
  intros Hab. f_equal; auto.
Qed.

Lemma str_compare_refl (a : jsstring) : str_compare a a = Eq.
Proof.
  induction a as [|x a IH]; simpl; auto. rewrite N.compare_refl. exact IH.
Qed.

Lemma str_leb_refl (a : jsstring) : str_leb a a = true.
Proof. unfold str_leb. rewrite str_compare_refl. reflexivity. Qed.

Lemma str_leb_total (a b : jsstring) :
  str_leb a b = true \/ str_leb b a = true.
Proof.
  unfold str_leb. rewrite (str_compare_antisym a b).
  destruct (str_compare a b); simpl; auto.
Qed.

Lemma str_leb_antisym (a b : jsstring) :
  str_leb a b = true -> str_leb b a = true -> a = b.
Proof.
  unfold str_leb. rewrite (str_compare_antisym a b).
  destruct (str_compare a b) eqn:E; simpl; try discriminate.
  intros _ _. apply str_compare_eq. exact E.
Qed.

Lemma str_leb_trans (a b c : jsstring) :
  str_leb a b = true -> str_leb b c = true -> str_leb a c = true.
Proof.
  unfold str_leb. revert b c.
  induction a as [|x a IH]; intros [|y b] [|z c]; simpl;
    try discriminate; auto.
  destruct (N.compare_spec x y), (N.compare_spec y z), (N.compare_spec x z);
    subst; try lia; try discriminate; auto.
  apply IH.
Qed.

End StringFacts.

(** ** The two proxy handlers: status codes *)

Module HandlerFacts.
Import JS Http Spec.

(** Case analysis on everything a handler inspects. *)
Ltac handler_cases :=
  unfold bind, try_catch;
  repeat match goal with
    | |- context [match ?x with _ => _ end] =>
        lazymatch x with
        | context [match _ with _ => _ end] => fail
        | _ => idtac
        end;
        match type of x with
        | completion _ => destruct x eqn:?
        | Fetch _ => destruct x eqn:?
        | Body _ => destruct x eqn:?
        | option _ => destruct x eqn:?
        | bool => destruct x eqn:?
        end; cbn beta iota delta [negb]
    end.

Lemma json_ok_success {A} (d : A) : is_success (json_ok d).
Proof. split; [reflexivity | eauto]. Qed.

Lemma json_error_is_error {A} (e : string) (s : Z) :
  is_error (json_error (A := A) e s) s.
Proof. split; [reflexivity | eauto]. Qed.

Lemma json_error_known {A} (e : string) (s : Z) :
  In s errorStatuses -> successOrKnownError (json_error (A := A) e s).
Proof. intros Hs. right. exists s. split; [exact Hs | apply json_error_is_error]. Qed.

Lemma github_truthy (w : GitHub.World) (u : jsstring) :
  u <> [] ->
  GitHub.GET w {| username := Some u |}
  = try_catch (GitHub.fetchStats w u)
      (json_error "Failed to fetch GitHub data" 500).
Proof. destruct u; [congruence | reflexivity]. Qed.

Lemma devto_truthy (w : DevTo.World) (u : jsstring) :
  u <> [] ->
  DevTo.GET w {| username := Some u |}
  = try_catch (DevTo.fetchBlogs w u)
      (json_error "Failed to fetch blog posts" 500).
Proof. destruct u; [congruence | reflexivity]. Qed.

Lemma github_known (w : GitHub.World) (u : jsstring) :
  successOrKnownError
    (try_catch (GitHub.fetchStats w u)
       (json_error "Failed to fetch GitHub data" 500)).
Proof.
  unfold GitHub.fetchStats, GitHub.userError, text, json.
  handler_cases;
    first [ left; apply json_ok_success
          | apply json_error_known; unfold errorStatuses; simpl; tauto ].
Qed.

Lemma devto_known (w : DevTo.World) (u : jsstring) :
  successOrKnownError
    (try_catch (DevTo.fetchBlogs w u)
       (json_error "Failed to fetch blog posts" 500)).
Proof.
  unfold DevTo.fetchBlogs, DevTo.articlesError, text, json.
  handler_cases;
    first [ left; apply json_ok_success
          | apply json_error_known; unfold errorStatuses; simpl; tauto ].
Qed.

Lemma known_not_400 {A} (r : NextResponse A) :
  successOrKnownError r -> code r <> 400.
Proof.
  intros [[Hc _] | (s & Hs & Hc & _)]; rewrite Hc; [lia|].
  unfold errorStatuses in Hs. simpl in Hs. lia.
Qed.

Lemma absentOrEmpty_cases (request : Request) :
  absentOrEmpty request
  \/ exists u, u <> [] /\ request = {| username := Some u |}.
Proof.
  destruct request as [[[|c u]|]]; unfold absentOrEmpty; simpl; auto.
  right. exists (c :: u). split; [discriminate | reflexivity].
Qed.

Lemma absentOrEmpty_truthy (u : jsstring) :
  u <> [] -> ~ absentOrEmpty {| username := Some u |}.
Proof. intros Hu [H | H]; simpl in H; congruence. Qed.

Lemma github_reject (w : GitHub.World) (request : Request) :
  absentOrEmpty request ->
  GitHub.GET w request = json_error "Username required" 400.
Proof. destruct request as [u]. intros [H | H]; simpl in H; subst u; reflexivity. Qed.

Lemma devto_reject (w : DevTo.World) (request : Request) :
  absentOrEmpty request ->
  DevTo.GET w request = json_error "Username required" 400.
Proof. destruct request as [u]. intros [H | H]; simpl in H; subst u; reflexivity. Qed.

Lemma github_user_error (w : GitHub.World) (u : jsstring)
  (res : Response GitHub.GitHubUser) :
  u <> [] -> GitHub.fetchUser w u = Normal res -> ok res = false ->
  body res <> Unreadable ->
  is_error (GitHub.GET w {| username := Some u |})
    (githubErrorStatus (status res)).
Proof.
  intros Hu Hf Hok Hb. rewrite github_truthy by exact Hu.
  unfold GitHub.fetchStats, GitHub.userError, text, githubErrorStatus.
  rewrite Hf. cbn [bind]. rewrite Hok. cbn [negb].
  destruct (body res); [congruence|]. cbn [bind].
  handler_cases; apply json_error_is_error.
Qed.

Lemma devto_articles_error (w : DevTo.World) (u : jsstring)
  (res : Response (list DevTo.DevToArticle)) :
  u <> [] -> DevTo.fetchArticles w u = Normal res -> ok res = false ->
  body res <> Unreadable ->
  is_error (DevTo.GET w {| username := Some u |})
    (devtoErrorStatus (status res)).
Proof.
  intros Hu Hf Hok Hb. rewrite devto_truthy by exact Hu.
  unfold DevTo.fetchBlogs, DevTo.articlesError, text, devtoErrorStatus.
  rewrite Hf. cbn [bind]. rewrite Hok. cbn [negb].
  destruct (body res); [congruence|]. cbn [bind].
  handler_cases; apply json_error_is_error.
Qed.

(** C2, as the code has it.  Each handler answers 400 with a JSON
    [{error}] body exactly when the [username] parameter is absent or
    empty; otherwise every answer is a success or a JSON [{error}] body
    with status 401, 404, 429 or 500.  When the upstream error body can be
    read, the GitHub handler turns a user-fetch status 403 into 429, 401
    into 401, 404 into 404 and any other non-OK status into 500; the
    dev.to handler turns 404 into 404, 429 into 429 and any other non-OK
    status into 500. *)
Theorem proxy_status_contract :
  (forall (w : GitHub.World) (request : Request),
      (code (GitHub.GET w request) = 400 <-> absentOrEmpty request)
      /\ (absentOrEmpty request -> is_error (GitHub.GET w request) 400)
      /\ (~ absentOrEmpty request ->
          successOrKnownError (GitHub.GET w request)))
  /\ (forall (w : DevTo.World) (request : Request),
      (code (DevTo.GET w request) = 400 <-> absentOrEmpty request)
      /\ (absentOrEmpty request -> is_error (DevTo.GET w request) 400)
      /\ (~ absentOrEmpty request ->
          successOrKnownError (DevTo.GET w request)))
  /\ (forall (w : GitHub.World) (u : jsstring)
        (res : Response GitHub.GitHubUser),
      u <> [] -> GitHub.fetchUser w u = Normal res -> ok res = false ->
      body res <> Unreadable ->
      is_error (GitHub.GET w {| username := Some u |})
        (githubErrorStatus (status res)))
  /\ (forall (w : DevTo.World) (u : jsstring)
        (res : Response (list DevTo.DevToArticle)),
      u <> [] -> DevTo.fetchArticles w u = Normal res -> ok res = false ->
      body res <> Unreadable ->
      is_error (DevTo.GET w {| username := Some u |})
        (devtoErrorStatus (status res))).
Proof.
  split; [| split; [| split]].
  - intros w request.
    destruct (absentOrEmpty_cases request) as [Ha | (u & Hu & ->)].
    + rewrite (github_reject w request Ha).
      split; [split; [intros _; exact Ha | reflexivity] |].
      split; [intros _; apply json_error_is_error | intros Hn; contradiction].
    + pose proof (absentOrEmpty_truthy u Hu) as Hn.
      rewrite github_truthy by exact Hu.
      pose proof (github_known w u) as Hk.
      pose proof (known_not_400 _ Hk). tauto.
  - intros w request.
    destruct (absentOrEmpty_cases request) as [Ha | (u & Hu & ->)].
    + rewrite (devto_reject w request Ha).
      split; [split; [intros _; exact Ha | reflexivity] |].
      split; [intros _; apply json_error_is_error | intros Hn; contradiction].
    + pose proof (absentOrEmpty_truthy u Hu) as Hn.
      rewrite devto_truthy by exact Hu.
      pose proof (devto_known w u) as Hk.
      pose proof (known_not_400 _ Hk). tauto.
  - exact github_user_error.
  - exact devto_articles_error.
Qed.

(** With the parameter present but empty ([?username=]) both handlers
    answer 400 all the same: "exactly when absent" does not hold.  And a
    403 from GitHub whose body cannot be read ends in 500, not 429. *)
Lemma empty_username_rejected :
  let request := {| username := Some [] |} in
  (username request <> None
   /\ is_error (GitHub.GET Samples.healthy request) 400
   /\ is_error (DevTo.GET Samples.fourArticles request) 400)
  /\ (GitHub.fetchUser Samples.brokenBody Samples.octocat
      = Normal {| status := 403; body := Unreadable |}
      /\ is_error
           (GitHub.GET Samples.brokenBody
              {| username := Some Samples.octocat |}) 500).
Proof. repeat split; try discriminate; eauto. Qed.

(** The status mapping on the samples: GitHub's 403 becomes 429, dev.to's
    429 stays 429. *)
Example rateLimited_run :
  GitHub.GET Samples.rateLimited {| username := Some Samples.octocat |}
  = json_error "GitHub API rate limit exceeded" 429.
Proof. reflexivity. Qed.

Example devtoDown_run :
  DevTo.GET Samples.devtoDown {| username := Some Samples.octocat |}
  = json_error "Rate limit exceeded" 429.
Proof. reflexivity. Qed.


(** ** The GitHub handler: what a success is built from *)

Lemma json_error_not_success {A} (e : string) (s : Z) :
  s <> 200 -> ~ is_success (json_error (A := A) e s).
Proof. intros Hs [Hc _]. simpl in Hc. congruence. Qed.

Lemma userError_not_success (res : Response GitHub.GitHubUser) (e : string) :
  ~ is_success (try_catch (GitHub.userError res) (json_error e 500)).
Proof.
  unfold GitHub.userError, text.
  handler_cases; apply json_error_not_success; lia.
Qed.

(** The repository list the statistics are computed from. *)
Lemma repos_fallback (reposRes : Response (list GitHub.GitHubRepo)) :
  ok reposRes = false ->
  (if ok reposRes then json reposRes else Normal []) = Normal [].
Proof. intros ->. reflexivity. Qed.

(** A success answer determines how the first two fetches went, and each
    of its fields. *)
Lemma github_success_inv (w : GitHub.World) (u : jsstring) :
  u <> [] ->
  is_success (GitHub.GET w {| username := Some u |}) ->
  exists userRes userData reposRes repos,
    GitHub.fetchUser w u = Normal userRes /\ ok userRes = true
    /\ json userRes = Normal userData
    /\ GitHub.fetchRepos w u = Normal reposRes
    /\ (if ok reposRes then json reposRes else Normal []) = Normal repos
    /\ GitHub.GET w {| username := Some u |}
       = json_ok
           {| GitHub.publicRepos := GitHub.public_repos userData;
              GitHub.followers' := GitHub.followers userData;
              GitHub.following' := GitHub.following userData;
              GitHub.totalStars := GitHub.sumStars repos;
              GitHub.topLanguages := GitHub.computeTopLanguages repos;
              GitHub.totalContributions :=
                GitHub.cs_total (GitHub.fetchContribStats w u);
              GitHub.currentStreak :=
                GitHub.cs_current (GitHub.fetchContribStats w u);
              GitHub.longestStreak :=
                GitHub.cs_longest (GitHub.fetchContribStats w u) |}.
Proof.
  intros Hu. rewrite github_truthy by exact Hu. unfold GitHub.fetchStats.
  destruct (GitHub.fetchUser w u) as [userRes|] eqn:H1; cbn [bind try_catch];
    [| intros H; apply json_error_not_success in H; [tauto | lia]].
  destruct (ok userRes) eqn:Hok; cbn [negb];
    [| intros H; apply userError_not_success in H; tauto].
  destruct (json userRes) as [userData|] eqn:H3; cbn [bind try_catch];
    [| intros H; apply json_error_not_success in H; [tauto | lia]].
  destruct (GitHub.fetchRepos w u) as [reposRes|] eqn:H4; cbn [bind try_catch];
    [| intros H; apply json_error_not_success in H; [tauto | lia]].
  destruct (if ok reposRes then json reposRes else Normal [])
    as [repos|] eqn:Hrepos; cbn [bind try_catch];
    [| intros H; apply json_error_not_success in H; [tauto | lia]].
  intros _. exists userRes, userData, reposRes, repos. repeat split; auto.
Qed.

(** Conversely, the first two fetches going through is all a success
    needs. *)
Lemma github_success (w : GitHub.World) (u : jsstring)
  (userRes : Response GitHub.GitHubUser) (userData : GitHub.GitHubUser)
  (reposRes : Response (list GitHub.GitHubRepo))
  (repos : list GitHub.GitHubRepo) :
  u <> [] ->
  GitHub.fetchUser w u = Normal userRes -> ok userRes = true ->
  json userRes = Normal userData ->
  GitHub.fetchRepos w u = Normal reposRes ->
  (if ok reposRes then json reposRes else Normal []) = Normal repos ->
  is_success (GitHub.GET w {| username := Some u |}).
Proof.
  intros Hu H1 H2 H3 H4 H5. rewrite github_truthy by exact Hu.
  unfold GitHub.fetchStats. rewrite H1. cbn [bind]. rewrite H2. cbn [negb].
  rewrite H3. cbn [bind]. rewrite H4. cbn [bind]. rewrite H5.
  apply json_ok_success.
Qed.

Lemma json_ok_inj {A} (a b : A) : json_ok a = json_ok b -> a = b.
Proof. intros H. injection H. auto. Qed.

(** The contribution figures stay at zero unless the contributions
    service answers OK with a body that parses. *)
Lemma fetchContribStats_absorbs (w : GitHub.World) (u : jsstring) :
  (failed (GitHub.fetchContributions w u)
   \/ exists res, GitHub.fetchContributions w u = Normal res
                  /\ json res = Throw) ->
  GitHub.fetchContribStats w u = GitHub.noContribStats.
Proof.
  unfold GitHub.fetchContribStats.
  intros [[-> | (res & -> & Hok)] | (res & -> & Hj)]; cbn [bind try_catch].
  - reflexivity.
  - rewrite Hok. reflexivity.
  - rewrite Hj. destruct (ok res); reflexivity.
Qed.

(** C4, as the code has it.  A failure of the user fetch (non-OK or
    throwing) and a throwing repository fetch are surfaced as an error
    answer with one of the fixed statuses, never as a success; a success
    means the user fetch answered OK with a body that parses and the
    repository fetch returned (with a body that parses, if OK).  The other
    failures are absorbed: with a non-OK repository answer the handler
    still succeeds, with [totalStars = 0] and no top languages; and when
    the first two fetches go through and the contributions fetch fails in
    any way (throws, non-OK, unparsable), the handler answers 200 with
    the figures of the user and of the repositories and zeros for the
    three contribution figures. *)
Theorem github_failure_handling (w : GitHub.World) (u : jsstring) :
  u <> [] ->
  let r := GitHub.GET w {| username := Some u |} in
  (failed (GitHub.fetchUser w u) ->
   ~ is_success r /\ exists s, In s errorStatuses /\ is_error r s)
  /\ (GitHub.fetchRepos w u = Throw ->
      ~ is_success r /\ exists s, In s errorStatuses /\ is_error r s)
  /\ (is_success r ->
      exists userRes userData reposRes,
        GitHub.fetchUser w u = Normal userRes /\ ok userRes = true
        /\ json userRes = Normal userData
        /\ GitHub.fetchRepos w u = Normal reposRes
        /\ (ok reposRes = true -> exists repos, json reposRes = Normal repos))
  /\ (forall userRes userData reposRes,
        GitHub.fetchUser w u = Normal userRes -> ok userRes = true ->
        json userRes = Normal userData ->
        GitHub.fetchRepos w u = Normal reposRes -> ok reposRes = false ->
        exists stats, r = json_ok stats
                      /\ GitHub.totalStars stats = 0
                      /\ GitHub.topLanguages stats = [])
  /\ (forall userRes userData reposRes repos,
        GitHub.fetchUser w u = Normal userRes -> ok userRes = true ->
        json userRes = Normal userData ->
        GitHub.fetchRepos w u = Normal reposRes ->
        reposFrom reposRes repos ->
        (failed (GitHub.fetchContributions w u)
         \/ exists res, GitHub.fetchContributions w u = Normal res
                        /\ json res = Throw) ->
        is_success r
        /\ r = json_ok
                 {| GitHub.publicRepos := GitHub.public_repos userData;
                    GitHub.followers' := GitHub.followers userData;
                    GitHub.following' := GitHub.following userData;
                    GitHub.totalStars := GitHub.sumStars repos;
                    GitHub.topLanguages := GitHub.computeTopLanguages repos;
                    GitHub.totalContributions := 0;
                    GitHub.currentStreak := 0;
                    GitHub.longestStreak := 0 |}).
Proof.
  intros Hu r. subst r.
  assert (Herr : ~ is_success (GitHub.GET w {| username := Some u |}) ->
                 ~ is_success (GitHub.GET w {| username := Some u |})
                 /\ exists s, In s errorStatuses
                              /\ is_error
                                   (GitHub.GET w {| username := Some u |}) s).
  { intros Hno. split; [exact Hno|].
    pose proof (github_known w u) as Hk.
    rewrite <- github_truthy in Hk by exact Hu.
    destruct Hk as [Hs | Hk]; [contradiction | exact Hk]. }
  split; [| split; [| split; [| split]]].
  - intros Hf. apply Herr. intros Hs.
    destruct (github_success_inv w u Hu Hs)
      as (userRes & userData & reposRes & repos & Hfu & Hok & _).
    destruct Hf as [Hf | (res & Hf & Hno)]; rewrite Hf in Hfu;
      [discriminate|]. injection Hfu as ->. congruence.
  - intros Hf. apply Herr. intros Hs.
    destruct (github_success_inv w u Hu Hs)
      as (userRes & userData & reposRes & repos & _ & _ & _ & Hfr & _).
    congruence.
  - intros Hs.
    destruct (github_success_inv w u Hu Hs)
      as (userRes & userData & reposRes & repos & H1 & H2 & H3 & H4 & H5 & _).
    exists userRes, userData, reposRes. repeat split; auto.
    intros Hok. rewrite Hok in H5. eauto.
  - intros userRes userData reposRes H1 H2 H3 H4 Hno.
    pose proof (github_success w u userRes userData reposRes []
                  Hu H1 H2 H3 H4 (repos_fallback reposRes Hno)) as Hs.
    destruct (github_success_inv w u Hu Hs)
      as (userRes' & userData' & reposRes' & repos
          & _ & _ & _ & H4' & H5 & Heq).
    assert (reposRes' = reposRes) by congruence. subst reposRes'.
    rewrite repos_fallback in H5 by exact Hno.
    assert (repos = []) by congruence. subst repos.
    eexists. split; [exact Heq|]. split; reflexivity.
  - intros userRes userData reposRes repos H1 H2 H3 H4 H5 Hc.
    assert (Heq : GitHub.GET w {| username := Some u |}
                  = json_ok
                      {| GitHub.publicRepos := GitHub.public_repos userData;
                         GitHub.followers' := GitHub.followers userData;
                         GitHub.following' := GitHub.following userData;
                         GitHub.totalStars := GitHub.sumStars repos;
                         GitHub.topLanguages :=
                           GitHub.computeTopLanguages repos;
                         GitHub.totalContributions := 0;
                         GitHub.currentStreak := 0;
                         GitHub.longestStreak := 0 |}).
    { rewrite github_truthy by exact Hu. unfold GitHub.fetchStats.
      rewrite H1. cbn [bind]. rewrite H2. cbn [negb].
      rewrite H3. cbn [bind]. rewrite H4. cbn [bind].
      unfold reposFrom in H5. rewrite H5. cbn [bind try_catch].
      rewrite (fetchContribStats_absorbs w u Hc). reflexivity. }
    split; [| exact Heq]. rewrite Heq. apply json_ok_success.
Qed.

(** On the degraded sample (repository listing 500, contributions service
    unreachable) the handler answers a success. *)
Lemma github_failure_handling_witness :
  Samples.octocat <> []
  /\ exists stats,
       GitHub.GET Samples.degraded {| username := Some Samples.octocat |}
       = json_ok stats
       /\ GitHub.totalStars stats = 0 /\ GitHub.topLanguages stats = [].
Proof.
  assert (Hu : Samples.octocat <> []) by discriminate.
  split; [exact Hu|].
  apply (proj1 (proj2 (proj2 (proj2
           (github_failure_handling Samples.degraded Samples.octocat Hu))))
         (Samples.okResponse Samples.someUser) Samples.someUser
         (Samples.errorResponse 500)); reflexivity.
Defined.

(** Two outbound fetches fail and the answer is a 200 built from the
    defaults: failures are not all surfaced as errors. *)
Lemma partial_failure_success :
  let w := Samples.degraded in
  let u := Samples.octocat in
  failed (GitHub.fetchRepos w u)
  /\ failed (GitHub.fetchContributions w u)
  /\ is_success (GitHub.GET w {| username := Some u |}).
Proof.
  intros w u. split; [| split].
  - right. exists (Samples.errorResponse 500). split; reflexivity.
  - left. reflexivity.
  - apply json_ok_success.
Qed.

(** The whole handler on the [healthy] sample. *)
Example healthy_run :
  GitHub.GET Samples.healthy {| username := Some Samples.octocat |}
  = json_ok Samples.healthyStats.
Proof. vm_compute. reflexivity. Qed.

End HandlerFacts.

(** ** The dev.to handler: the blogs it returns *)

Module DevToFacts.
Import JS Http Spec ArrayFacts HandlerFacts.

Lemma devto_success (w : DevTo.World) (u : jsstring)
  (res : Response (list DevTo.DevToArticle))
  (articles : list DevTo.DevToArticle) :
  u <> [] -> DevTo.fetchArticles w u = Normal res -> ok res = true ->
  json res = Normal articles ->
  DevTo.GET w {| username := Some u |}
  = json_ok {| DevTo.blogs := map DevTo.transformArticle (firstn 3 articles) |}.
Proof.
  intros Hu Hf Hok Hj. rewrite devto_truthy by exact Hu.
  unfold DevTo.fetchBlogs. rewrite Hf. cbn [bind]. rewrite Hok. cbn [negb].
  rewrite Hj. cbn [bind try_catch].
  rewrite slice_prefix by lia. reflexivity.
Qed.

(** C6.  When dev.to answers OK with the article list [articles], the
    handler returns the first [min (length articles) 3] of them, in their
    order, each with every field carried over unchanged under its
    camelCase name. *)
Theorem devto_blogs (w : DevTo.World) (u : jsstring)
  (res : Response (list DevTo.DevToArticle))
  (articles : list DevTo.DevToArticle) :
  u <> [] -> DevTo.fetchArticles w u = Normal res -> ok res = true ->
  json res = Normal articles ->
  exists bs : list DevTo.Blog,
    DevTo.GET w {| username := Some u |} = json_ok {| DevTo.blogs := bs |}
    /\ length bs = Nat.min (length articles) 3
    /\ (forall i, (i < Nat.min (length articles) 3)%nat ->
        exists a b,
          articles !! i = Some a /\ bs !! i = Some b
          /\ DevTo.blog_id b = DevTo.id a
          /\ DevTo.blog_title b = DevTo.title a
          /\ DevTo.blog_description b = DevTo.description a
          /\ DevTo.blog_url b = DevTo.url a
          /\ DevTo.coverImage b = DevTo.cover_image a
          /\ DevTo.socialImage b = DevTo.social_image a
          /\ DevTo.publishedAt b = DevTo.published_at a
          /\ DevTo.readingTimeMinutes b = DevTo.reading_time_minutes a
          /\ DevTo.tags b = DevTo.tag_list a).
Proof.
  intros Hu Hf Hok Hj.
  exists (map DevTo.transformArticle (firstn 3 articles)).
  split; [apply (devto_success w u res); assumption|].
  split; [rewrite length_map, length_firstn; lia|].
  intros i Hi.
  destruct (lookup_lt_is_Some_2 articles i) as [a Ha]; [lia|].
  exists a, (DevTo.transformArticle a).
  split; [exact Ha|]. split; [| repeat split].
  change (map DevTo.transformArticle (firstn 3 articles))
    with (DevTo.transformArticle <$> take 3 articles).
  rewrite list_lookup_fmap, lookup_take_lt by lia. rewrite Ha. reflexivity.
Qed.

(** Four articles upstream: the first three come back. *)
Lemma devto_blogs_witness :
  exists bs : list DevTo.Blog,
    DevTo.GET Samples.fourArticles {| username := Some Samples.octocat |}
    = json_ok {| DevTo.blogs := bs |}
    /\ map DevTo.blog_id bs = [1; 2; 3].
Proof.
  destruct (devto_blogs Samples.fourArticles Samples.octocat
              (Samples.okResponse
                 [Samples.article 1; Samples.article 2; Samples.article 3;
                  Samples.article 4])
              [Samples.article 1; Samples.article 2; Samples.article 3;
               Samples.article 4])
    as (bs & Hget & _); try reflexivity; try discriminate.
  exists bs. split; [exact Hget|].
  apply json_ok_inj in Hget. injection Hget as <-. reflexivity.
Defined.

End DevToFacts.

(** ** The GitHub handler: stars and top languages *)

Module RepoStatsFacts.
Import JS Http Spec ArrayFacts HandlerFacts.
Import GitHub.

Lemma sumStars_from (repos : list GitHubRepo) (sum : Z) :
  fold_left (fun sum repo => sum + stargazers_count repo) repos sum
  = sum + starSum repos.
Proof.
  revert sum. induction repos as [|r repos IH]; intros sum; simpl.
  - unfold starSum. simpl. lia.
  - rewrite IH. unfold starSum. simpl. lia.
Qed.

Lemma sumStars_sum (repos : list GitHubRepo) : sumStars repos = starSum repos.
Proof. unfold sumStars. rewrite sumStars_from. lia. Qed.

(** *** The [langCount] object *)

Lemma str_eqb_eq (a b : jsstring) : str_eqb a b = true <-> a = b.
Proof. unfold str_eqb. apply bool_decide_eq_true. Qed.

Lemma str_eqb_refl (a : jsstring) : str_eqb a a = true.
Proof. apply str_eqb_eq. reflexivity. Qed.

Lemma str_eqb_neq (a b : jsstring) : str_eqb a b = false <-> a <> b.
Proof. unfold str_eqb. apply bool_decide_eq_false. Qed.

Lemma lookup_assign_eq (k : jsstring) (v : PropertyValue) (obj : list (jsstring * PropertyValue)) :
  lookup k (assign k v obj) = Some v.
Proof.
  induction obj as [|[k' v'] obj IH]; simpl.
  - rewrite str_eqb_refl. reflexivity.
  - destruct (str_eqb k' k) eqn:E; simpl; rewrite E; auto.
Qed.

Lemma lookup_assign_ne (k k' : jsstring) (v : PropertyValue) (obj : list (jsstring * PropertyValue)) :
  k <> k' -> lookup k' (assign k v obj) = lookup k' obj.
Proof.
  intros Hne. induction obj as [|[k0 v0] obj IH]; simpl.
  - apply str_eqb_neq in Hne. rewrite Hne. reflexivity.
  - destruct (str_eqb k0 k) eqn:E; simpl.
    + apply str_eqb_eq in E. subst k0.
      apply str_eqb_neq in Hne. rewrite Hne. reflexivity.
    + rewrite IH. reflexivity.
Qed.

Lemma lookup_None_keys (k : jsstring) (obj : list (jsstring * PropertyValue)) :
  lookup k obj = None <-> ~ In k (map fst obj).
Proof.
  induction obj as [|[k0 v0] obj IH]; simpl; [tauto|].
  destruct (str_eqb k0 k) eqn:E.
  - apply str_eqb_eq in E. split; [discriminate | tauto].
  - apply str_eqb_neq in E. tauto.
Qed.

Lemma lookup_Some_In (k : jsstring) (v : PropertyValue) (obj : list (jsstring * PropertyValue)) :
  lookup k obj = Some v -> In (k, v) obj.
Proof.
  induction obj as [|[k0 v0] obj IH]; simpl; [discriminate|].
  destruct (str_eqb k0 k) eqn:E.
  - apply str_eqb_eq in E. intros [= ->]. left. congruence.
  - auto.
Qed.

Lemma In_lookup_Some (k : jsstring) (v : PropertyValue) (obj : list (jsstring * PropertyValue)) :
  NoDup (map fst obj) -> In (k, v) obj -> lookup k obj = Some v.
Proof.
  induction obj as [|[k0 v0] obj IH]; simpl; [tauto|].
  intros Hnd [Heq | Hin].
  - injection Heq as -> ->. rewrite str_eqb_refl. reflexivity.
  - apply NoDup_cons in Hnd as [Hk0 Hnd].
    destruct (str_eqb k0 k) eqn:E; [| auto].
    apply str_eqb_eq in E. subst k0. exfalso. apply Hk0.
    rewrite list_elem_of_In. apply (in_map fst _ _ Hin).
Qed.

(** Assigning a property keeps the property names distinct. *)
Lemma assign_keys (k : jsstring) (v : PropertyValue) (obj : list (jsstring * PropertyValue)) :
  map fst (assign k v obj)
  = match lookup k obj with
    | Some _ => map fst obj
    | None => map fst obj ++ [k]
    end.
Proof.
  induction obj as [|[k0 v0] obj IH]; simpl; [reflexivity|].
  destruct (str_eqb k0 k) eqn:E; simpl; [reflexivity|].
  rewrite IH. destruct (lookup k obj); reflexivity.
Qed.

Lemma assign_NoDup (k : jsstring) (v : PropertyValue) (obj : list (jsstring * PropertyValue)) :
  NoDup (map fst obj) -> NoDup (map fst (assign k v obj)).
Proof.
  intros Hnd. rewrite assign_keys.
  destruct (lookup k obj) eqn:E; [exact Hnd|].
  apply lookup_None_keys in E.
  apply NoDup_app. split; [exact Hnd|]. split.
  - intros x Hx Hx'. apply list_elem_of_singleton in Hx'. subst x.
    apply E. rewrite <- list_elem_of_In. exact Hx.
  - apply NoDup_singleton.
Qed.

(** *** Counting *)

Lemma repoCount_snoc (l : jsstring) (repos : list GitHubRepo)
  (r : GitHubRepo) :
  repoCount l (repos ++ [r])
  = repoCount l repos + if bool_decide (language r = Some l) then 1 else 0.
Proof.
  unfold repoCount. rewrite List.filter_app, List.length_app. simpl.
  destruct (bool_decide (language r = Some l)); simpl; lia.
Qed.

Lemma repoCount_nonneg (l : jsstring) (repos : list GitHubRepo) :
  0 <= repoCount l repos.
Proof. unfold repoCount. lia. Qed.

Lemma repoCount_pos (l : jsstring) (repos : list GitHubRepo) :
  0 < repoCount l repos <-> exists r, In r repos /\ language r = Some l.
Proof.
  unfold repoCount. split.
  - intros Hpos.
    destruct (List.filter (fun r => bool_decide (language r = Some l)) repos)
      as [|r rest] eqn:E; [simpl in Hpos; lia|].
    assert (Hin : In r (List.filter
                          (fun r => bool_decide (language r = Some l)) repos))
      by (rewrite E; left; reflexivity).
    apply filter_In in Hin as [Hin Hl]. apply bool_decide_eq_true in Hl.
    eauto.
  - intros (r & Hin & Hl).
    assert (Hf : In r (List.filter
                         (fun r => bool_decide (language r = Some l)) repos)).
    { apply filter_In. split; [exact Hin|].
      apply bool_decide_eq_true. exact Hl. }
    destruct (List.filter _ repos); [destruct Hf | simpl; lia].
Qed.

Lemma counted_iff (l : jsstring) (repos : list GitHubRepo) :
  counted l repos <-> truthy l = true /\ 0 < repoCount l repos.
Proof.
  unfold counted. rewrite repoCount_pos.
  destruct l; simpl; intuition congruence.
Qed.

(** *** Names inherited from [Object.prototype] *)

Lemma inherited_names (l : jsstring) :
  inherited l = true -> exists s, In s inheritedNames /\ l = lit s.
Proof.
  unfold inherited. rewrite existsb_exists. intros (x & Hin & Heq).
  apply str_eqb_eq in Heq. subst x. unfold objectPrototypeNames in Hin.
  apply in_map_iff in Hin as (s & <- & Hin). exists s.
  split; [| reflexivity]. simpl in Hin. simpl. tauto.
Qed.

Lemma plainName_inherited (l : jsstring) : plainName l -> inherited l = false.
Proof.
  intros Hp. destruct (inherited l) eqn:E; [| reflexivity].
  apply inherited_names in E as (s & Hin & ->).
  exfalso. apply (Hp s Hin). reflexivity.
Qed.

Lemma plainName_set (l : jsstring) (v : PropertyValue)
  (obj : list (jsstring * PropertyValue)) :
  plainName l -> set l v obj = assign l v obj.
Proof.
  intros Hp. unfold set.
  destruct (str_eqb l (lit "__proto__")) eqn:E; [| reflexivity].
  apply str_eqb_eq in E. exfalso. apply (Hp "__proto__"%string); [| exact E].
  simpl. tauto.
Qed.

Lemma plainName_get (l : jsstring) (obj : list (jsstring * PropertyValue)) :
  plainName l ->
  get l obj = match lookup l obj with Some v => Own v | None => Undefined end.
Proof.
  intros Hp. unfold get. rewrite (plainName_inherited l Hp). reflexivity.
Qed.

(** A decision procedure, for concrete lists. *)
Lemma plainLanguages_test (repos : list GitHubRepo) :
  forallb (fun r => match language r with
                    | Some l => negb (inherited l)
                    | None => true
                    end) repos = true ->
  plainLanguages repos.
Proof.
  rewrite forallb_forall. intros H r l Hin Hl s Hs ->.
  specialize (H r Hin). rewrite Hl in H.
  apply negb_true_iff in H.
  assert (Ht : inherited (lit s) = true); [| congruence].
  unfold inherited. apply existsb_exists. exists (lit s).
  split; [| apply str_eqb_refl].
  unfold objectPrototypeNames. apply in_map. simpl in Hs. simpl. tauto.
Qed.

Lemma plainLanguages_app (repos repos' : list GitHubRepo) :
  plainLanguages (repos ++ repos') ->
  plainLanguages repos /\ plainLanguages repos'.
Proof.
  intros H. split; intros r l Hin; apply (H r l); apply in_or_app; auto.
Qed.

(** *** The properties of [langCount] *)

Lemma set_NoDup (k : jsstring) (v : PropertyValue)
  (obj : list (jsstring * PropertyValue)) :
  NoDup (map fst obj) -> NoDup (map fst (set k v obj)).
Proof.
  intros Hnd. unfold set. destruct (str_eqb k (lit "__proto__"));
    [exact Hnd | apply assign_NoDup, Hnd].
Qed.

Lemma countLanguage_NoDup (obj : list (jsstring * PropertyValue))
  (r : GitHubRepo) :
  NoDup (map fst obj) -> NoDup (map fst (countLanguage obj r)).
Proof.
  intros Hnd. unfold countLanguage.
  destruct (language r) as [k|]; [| exact Hnd].
  destruct (truthy k); [apply set_NoDup, Hnd | exact Hnd].
Qed.

Lemma langCountOf_snoc (repos : list GitHubRepo) (r : GitHubRepo) :
  langCountOf (repos ++ [r]) = countLanguage (langCountOf repos) r.
Proof. unfold langCountOf. rewrite fold_left_app. reflexivity. Qed.

Lemma langCountOf_NoDup (repos : list GitHubRepo) :
  NoDup (map fst (langCountOf repos)).
Proof.
  induction repos as [|r repos IH] using rev_ind.
  - constructor.
  - rewrite langCountOf_snoc. apply countLanguage_NoDup, IH.
Qed.

Lemma tallies_nil : tallies [] [].
Proof.
  split; [constructor|]. intros l. simpl.
  rewrite andb_false_r. reflexivity.
Qed.

Lemma countLanguage_tallies (repos : list GitHubRepo)
  (obj : list (jsstring * PropertyValue)) (r : GitHubRepo) :
  (forall l, language r = Some l -> plainName l) ->
  tallies repos obj -> tallies (repos ++ [r]) (countLanguage obj r).
Proof.
  intros Hplain [Hnd Hl]. unfold countLanguage.
  destruct (language r) as [k|] eqn:Hk; [destruct (truthy k) eqn:Ht|].
  - specialize (Hplain k eq_refl).
    rewrite plainName_set, plainName_get by exact Hplain.
    split; [apply assign_NoDup; exact Hnd|].
    intros l. rewrite repoCount_snoc, Hk.
    pose proof (repoCount_nonneg l repos) as Hge.
    destruct (decide (k = l)) as [-> | Hne].
    + rewrite lookup_assign_eq, bool_decide_eq_true_2 by reflexivity.
      rewrite Hl, Ht. cbn [andb].
      replace (0 <? repoCount l repos + 1) with true
        by (symmetry; apply Z.ltb_lt; lia).
      destruct (Z.ltb_spec 0 (repoCount l repos)) as [Hpos | Hzero];
        cbn [or_zero_plus_one].
      * destruct (Z.eqb_spec (repoCount l repos) 0); [lia | reflexivity].
      * do 2 f_equal. lia.
    + rewrite lookup_assign_ne by exact Hne.
      rewrite bool_decide_eq_false_2 by congruence.
      rewrite Z.add_0_r. apply Hl.
  - split; [exact Hnd|]. intros l. rewrite repoCount_snoc, Hk.
    destruct k; [| discriminate].
    destruct l as [|c l]; [rewrite Hl; reflexivity|].
    rewrite bool_decide_eq_false_2 by congruence.
    rewrite Z.add_0_r. apply Hl.
  - split; [exact Hnd|]. intros l. rewrite repoCount_snoc, Hk.
    rewrite bool_decide_eq_false_2 by congruence.
    rewrite Z.add_0_r. apply Hl.
Qed.

Lemma langCountOf_tallies (repos : list GitHubRepo) :
  plainLanguages repos -> tallies repos (langCountOf repos).
Proof.
  induction repos as [|r repos IH] using rev_ind; intros Hplain.
  - apply tallies_nil.
  - apply plainLanguages_app in Hplain as [Hrepos Hr].
    rewrite langCountOf_snoc. apply countLanguage_tallies; [| apply IH, Hrepos].
    intros l Hl. apply (Hr r l); [left; reflexivity | exact Hl].
Qed.

(** The own properties of [langCount] are the counted languages with
    their counts. *)
Lemma langCountOf_In (repos : list GitHubRepo) (l : jsstring)
  (v : PropertyValue) :
  plainLanguages repos ->
  In (l, v) (langCountOf repos)
  <-> counted l repos /\ v = Num (repoCount l repos).
Proof.
  intros Hplain.
  destruct (langCountOf_tallies repos Hplain) as [Hnd Hl].
  rewrite counted_iff. split.
  - intros Hin. apply (In_lookup_Some _ _ _ Hnd) in Hin.
    rewrite Hl in Hin.
    destruct (truthy l), (Z.ltb_spec 0 (repoCount l repos));
      simpl in Hin; try discriminate.
    injection Hin as <-. auto.
  - intros [[Ht Hpos] ->]. apply lookup_Some_In. rewrite Hl, Ht.
    apply Z.ltb_lt in Hpos. rewrite Hpos. reflexivity.
Qed.

(** *** [Object.entries] *)

Lemma filter_split {A} (p : A -> bool) (l : list A) :
  Permutation (List.filter p l ++ List.filter (fun x => negb (p x)) l) l.
Proof.
  induction l as [|x l IH]; simpl; [constructor|].
  destruct (p x); simpl.
  - constructor. exact IH.
  - symmetry. apply Permutation_cons_app. symmetry. exact IH.
Qed.

(** The entries are the own properties, in another order. *)
Lemma entries_perm (obj : list (jsstring * PropertyValue)) :
  Permutation (entries obj) obj.
Proof.
  unfold entries.
  rewrite (sort_perm _ (List.filter (fun p => isArrayIndex (fst p)) obj)).
  apply (filter_split (fun p => isArrayIndex (fst p))).
Qed.

(** *** The top five *)

Lemma firstn_In {A} (n : nat) (l : list A) (x : A) :
  In x (firstn n l) -> In x l.
Proof.
  intros Hin. rewrite <- (firstn_skipn n l). apply in_or_app. auto.
Qed.

Lemma StronglySorted_impl_In {A} (R R' : A -> A -> Prop) (l : list A) :
  (forall a b, In a l -> In b l -> R a b -> R' a b) ->
  StronglySorted R l -> StronglySorted R' l.
Proof.
  intros Himpl Hs. induction Hs as [|x l Hs IH Hx]; constructor.
  - apply IH. intros a b Ha Hb. apply Himpl; right; assumption.
  - apply List.Forall_forall. intros b Hb.
    apply Himpl; [left; reflexivity | right; exact Hb|].
    revert b Hb. apply List.Forall_forall. exact Hx.
Qed.

(** On entries that all hold numbers the comparator is consistent. *)
Lemma compareCounts_consistent (l : list Language) :
  (forall e, In e l -> exists n, counts e n) ->
  consistent compareCounts l.
Proof.
  intros Hnum. split.
  - intros x y Hx Hy. destruct (Hnum x Hx) as (a & Ha).
    destruct (Hnum y Hy) as (b & Hb). unfold before, compareCounts.
    unfold counts in *. rewrite Ha, Hb. lia.
  - intros x y z Hx Hy Hz. destruct (Hnum x Hx) as (a & Ha).
    destruct (Hnum y Hy) as (b & Hb). destruct (Hnum z Hz) as (c & Hc).
    unfold before, compareCounts. unfold counts in *.
    rewrite Ha, Hb, Hc. lia.
Qed.

Lemma computeTopLanguages_names (repos : list GitHubRepo) :
  let top := computeTopLanguages repos in
  (length top <= 5)%nat /\ NoDup (map name top).
Proof.
  unfold computeTopLanguages. rewrite slice_prefix by lia.
  change (Z.to_nat 5) with 5%nat.
  set (mk := fun '(name, count) => {| name := name; lcount := count |}).
  set (sorted := sort compareCounts (map mk (entries (langCountOf repos)))).
  split; [rewrite length_firstn; lia|].
  assert (Hnd : NoDup (map name sorted)).
  { unfold sorted.
    rewrite (Permutation_map name (sort_perm compareCounts _)), map_map.
    rewrite (map_ext (fun x => name (mk x)) fst) by (intros [l n]; reflexivity).
    rewrite (Permutation_map fst (entries_perm _)).
    apply langCountOf_NoDup. }
  rewrite <- (firstn_skipn 5 sorted), map_app in Hnd.
  apply NoDup_app in Hnd. tauto.
Qed.

Lemma computeTopLanguages_spec (repos : list GitHubRepo) :
  plainLanguages repos ->
  let top := computeTopLanguages repos in
  (forall e, In e top ->
     counted (name e) repos /\ counts e (repoCount (name e) repos))
  /\ StronglySorted byCountDesc top
  /\ (forall l, counted l repos ->
        In l (map name top)
        \/ (length top = 5%nat
            /\ forall e, In e top ->
                 exists n, counts e n /\ repoCount l repos <= n)).
Proof.
  intros Hplain. unfold computeTopLanguages. rewrite slice_prefix by lia.
  change (Z.to_nat 5) with 5%nat.
  set (mk := fun '(name, count) => {| name := name; lcount := count |}).
  set (listed := map mk (entries (langCountOf repos))).
  set (sorted := sort compareCounts listed).
  assert (Hlisted : forall e,
             In e listed <-> In (name e, lcount e) (langCountOf repos)).
  { intros [l n]. unfold listed. rewrite in_map_iff. simpl. split.
    - intros ([l' n'] & Heq & Hin). simpl in Heq.
      apply (Permutation_in _ (entries_perm _)) in Hin. congruence.
    - intros Hin. exists (l, n). split; [reflexivity|].
      apply (Permutation_in _ (Permutation_sym (entries_perm _))), Hin. }
  assert (Hsorted : forall e, In e sorted <-> In e listed)
    by (intros e; apply sort_In).
  assert (Hcount : forall e, In e sorted ->
             counted (name e) repos /\ counts e (repoCount (name e) repos)).
  { intros e He. apply Hsorted, Hlisted in He.
    apply (langCountOf_In _ _ _ Hplain) in He. exact He. }
  assert (Hss : StronglySorted byCountDesc sorted).
  { assert (H : StronglySorted (before compareCounts) sorted).
    { apply sort_sorted, compareCounts_consistent.
      intros e He. apply Hsorted, Hcount in He as [_ He]. eauto. }
    revert H. apply StronglySorted_impl_In.
    intros a b Ha Hb. destruct (Hcount a Ha) as [_ Hna].
    destruct (Hcount b Hb) as [_ Hnb].
    unfold before, compareCounts, byCountDesc. unfold counts in *.
    rewrite Hna, Hnb. intros Hle. do 2 eexists.
    split; [reflexivity|]. split; [reflexivity | lia]. }
  rewrite <- (firstn_skipn 5 sorted) in Hss.
  apply StronglySorted_app in Hss as (Hcross & Htop & _).
  repeat apply conj.
  - intros e He. apply Hcount, (firstn_In 5), He.
  - exact Htop.
  - intros l Hl.
    assert (Hin : In {| name := l; lcount := Num (repoCount l repos) |}
                    sorted).
    { apply Hsorted, Hlisted. simpl. apply langCountOf_In; auto. }
    rewrite <- (firstn_skipn 5 sorted) in Hin.
    apply in_app_or in Hin as [Hin | Hin].
    + left. apply (in_map name) in Hin. exact Hin.
    + right. split.
      * apply firstn_length_le.
        destruct (Nat.le_gt_cases 5 (length sorted)) as [H | H]; [exact H|].
        rewrite skipn_all2 in Hin by lia. destruct Hin.
      * intros e He. rewrite <- !list_elem_of_In in *.
        destruct (Hcross e _ He Hin) as (x & y & Hx & Hy & Hle).
        exists x. split; [exact Hx|]. unfold counts in Hy. simpl in Hy.
        injection Hy as <-. exact Hle.
Qed.

(** C7, as the code has it.  A success answer carries [totalStars], the
    sum of [stargazers_count] over the repository list, and
    [topLanguages]: at most five entries with distinct names.  When no
    language is a name that objects inherit from [Object.prototype], each
    entry is a non-null, non-empty language of some repository with the
    number of its repositories, the entries are in descending order of
    count, and no language left out has a larger count than one listed
    (none is left out while there are fewer than five).  When the
    repository fetch answers non-OK the list is empty: [totalStars = 0]
    and [topLanguages = []]. *)
Theorem github_repo_stats (w : World) (u : jsstring) (stats : Stats) :
  u <> [] ->
  GET w {| username := Some u |} = json_ok stats ->
  exists reposRes repos,
    fetchRepos w u = Normal reposRes
    /\ reposFrom reposRes repos
    /\ (ok reposRes = false ->
        repos = [] /\ totalStars stats = 0 /\ topLanguages stats = [])
    /\ totalStars stats = starSum repos
    /\ (length (topLanguages stats) <= 5)%nat
    /\ NoDup (map name (topLanguages stats))
    /\ (plainLanguages repos ->
        (forall e, In e (topLanguages stats) ->
           counted (name e) repos /\ counts e (repoCount (name e) repos))
        /\ StronglySorted byCountDesc (topLanguages stats)
        /\ (forall l, counted l repos ->
              In l (map name (topLanguages stats))
              \/ (length (topLanguages stats) = 5%nat
                  /\ forall e, In e (topLanguages stats) ->
                       exists n, counts e n /\ repoCount l repos <= n))).
Proof.
  intros Hu Hget.
  assert (Hs : is_success (GET w {| username := Some u |}))
    by (rewrite Hget; apply json_ok_success).
  destruct (github_success_inv w u Hu Hs)
    as (userRes & userData & reposRes & repos & _ & _ & _ & Hfr & Hrepos & Heq).
  rewrite Heq in Hget. apply json_ok_inj in Hget. subst stats.
  cbn [totalStars topLanguages].
  exists reposRes, repos.
  split; [exact Hfr|]. split; [exact Hrepos|]. split.
  - intros Hno. rewrite repos_fallback in Hrepos by exact Hno.
    injection Hrepos as <-. auto.
  - split; [apply sumStars_sum|].
    destruct (computeTopLanguages_names repos) as [Hlen Hnd].
    split; [exact Hlen|]. split; [exact Hnd|].
    apply computeTopLanguages_spec.
Qed.

Lemma someRepos_plain : plainLanguages Samples.someRepos.
Proof. apply plainLanguages_test. vm_compute. reflexivity. Qed.

(** On the [healthy] sample: 15 stars, Java with two repositories before
    Go with one; the repository whose language is the empty string is not
    counted. *)
Lemma github_repo_stats_witness :
  Samples.octocat <> []
  /\ totalStars Samples.healthyStats = starSum Samples.someRepos
  /\ StronglySorted byCountDesc (topLanguages Samples.healthyStats).
Proof.
  assert (Hu : Samples.octocat <> []) by discriminate.
  split; [exact Hu|].
  destruct (github_repo_stats Samples.healthy Samples.octocat
              Samples.healthyStats Hu healthy_run)
    as (reposRes & repos & Hfr & Hrepos & _ & Hstars & _ & _ & Hplain).
  injection Hfr as <-. injection Hrepos as <-.
  split; [exact Hstars | exact (proj1 (proj2 (Hplain someRepos_plain)))].
Defined.

(** A repository whose language is the empty string, which is not null,
    gets no entry. *)
Lemma empty_language_dropped :
  fetchRepos Samples.unnamedLanguage Samples.octocat
  = Normal (Samples.okResponse [Samples.repo 7 (Some EmptyString)])
  /\ language (Samples.repo 7 (Some EmptyString)) <> None
  /\ GET Samples.unnamedLanguage {| username := Some Samples.octocat |}
     = json_ok Samples.unnamedLanguageStats
  /\ topLanguages Samples.unnamedLanguageStats = [].
Proof. repeat split. discriminate. Qed.

(** Two repositories in a language named [constructor] leave a string
    for its count, one named [__proto__] leaves no entry. *)
Example inherited_language_entries :
  computeTopLanguages Samples.inheritedLanguage
  = [ {| name := lit "constructor"; lcount := Text (lit "constructor") 2 |};
      {| name := lit "Go"; lcount := Num 1 |} ].
Proof. vm_compute. reflexivity. Qed.

(** Languages named by array indices come first, in ascending order. *)
Example index_language_order :
  map name (computeTopLanguages Samples.indexLanguages)
  = [lit "9"; lit "10"; lit "Go"; lit "007"].
Proof. vm_compute. reflexivity. Qed.

End RepoStatsFacts.

(** ** The GitHub handler: streaks *)

Module StreakFacts.
Import JS Http Spec ArrayFacts StringFacts HandlerFacts.
Import GitHub.

Lemma activeb_active (c : Contribution) : activeb c = true <-> active c.
Proof. unfold activeb, active. apply Z.ltb_lt. Qed.

Lemma count_gtb (c : Contribution) : (count c >? 0) = activeb c.
Proof. unfold activeb. apply Z.gtb_ltb. Qed.

(** Splitting a list that ends in [c]. *)
Lemma snoc_split {A} (p pre r : list A) (c : A) :
  p ++ [c] = pre ++ r ->
  (r = [] /\ pre = p ++ [c]) \/ exists r', r = r' ++ [c] /\ p = pre ++ r'.
Proof.
  destruct r as [|x r' _] using rev_ind.
  - rewrite app_nil_r. auto.
  - rewrite app_assoc. intros H. apply app_inj_tail in H as [-> ->]. eauto.
Qed.

(** *** The longest streak *)

Lemma suffixRun_run (v r : list Contribution) : suffixRun v r -> activeRun v r.
Proof.
  intros (pre & -> & Hr). exists pre, []. rewrite app_nil_r. auto.
Qed.

Lemma run_snoc (p r : list Contribution) (c : Contribution) :
  activeRun p r -> activeRun (p ++ [c]) r.
Proof.
  intros (pre & post & -> & Hr). exists pre, (post ++ [c]).
  rewrite <- !app_assoc. auto.
Qed.

(** A run of [p ++ [c]] ends at [c] or lies within [p]. *)
Lemma run_snoc_inv (p r : list Contribution) (c : Contribution) :
  activeRun (p ++ [c]) r -> suffixRun (p ++ [c]) r \/ activeRun p r.
Proof.
  intros (pre & post & Heq & Hr).
  rewrite app_assoc in Heq. apply snoc_split in Heq as [[-> Heq] | (post' & -> & ->)].
  - left. exists pre. auto.
  - right. exists pre, post'. rewrite app_assoc. auto.
Qed.

Lemma suffixRun_snoc_inv (p r : list Contribution) (c : Contribution) :
  suffixRun (p ++ [c]) r ->
  r = [] \/ exists r', r = r' ++ [c] /\ suffixRun p r' /\ active c.
Proof.
  intros (pre & Heq & Hr).
  apply snoc_split in Heq as [[-> _] | (r' & -> & ->)]; [auto|].
  right. exists r'. apply Forall_app in Hr as [Hr' Hc].
  split; [reflexivity|]. split; [exists pre; auto|].
  apply Forall_inv in Hc. exact Hc.
Qed.

Lemma streakState_nil : streakState [] (0, 0).
Proof.
  assert (Hnil : forall r, activeRun [] r -> r = []).
  { intros r (pre & post & Heq & _). symmetry in Heq.
    apply app_eq_nil in Heq as [_ Heq]. apply app_eq_nil in Heq as [Heq _].
    exact Heq. }
  repeat split; simpl.
  - exists []. split; [exists []; auto | reflexivity].
  - intros r Hr. apply suffixRun_run, Hnil in Hr. subst r. simpl. lia.
  - exists []. split; [exists [], []; auto | reflexivity].
  - intros r Hr. apply Hnil in Hr. subst r. simpl. lia.
Qed.

Lemma streakState_step (p : list Contribution) (st : Z * Z)
  (c : Contribution) :
  streakState p st -> streakState (p ++ [c]) (longestStreakStep st c).
Proof.
  destruct st as [streak longest].
  intros ((r0 & Hr0 & Hlen0) & Hmax & (rl & Hrl & Hlenl) & Hall).
  simpl in Hlen0, Hmax, Hlenl, Hall.
  assert (Hsl : streak <= longest)
    by (rewrite <- Hlen0; apply Hall, suffixRun_run, Hr0).
  unfold longestStreakStep. rewrite count_gtb.
  destruct (activeb c) eqn:Hc.
  - apply activeb_active in Hc.
    assert (Hsuf : suffixRun (p ++ [c]) (r0 ++ [c])).
    { destruct Hr0 as (pre & -> & Hr0). exists pre.
      rewrite <- app_assoc. split; [reflexivity|].
      apply Forall_app. auto. }
    assert (Hsufmax : forall r, suffixRun (p ++ [c]) r ->
                                Z.of_nat (length r) <= streak + 1).
    { intros r Hr.
      apply suffixRun_snoc_inv in Hr as [-> | (r' & -> & Hr' & _)].
      - simpl. lia.
      - apply Hmax in Hr'. rewrite length_app. simpl. lia. }
    repeat split; simpl.
    + exists (r0 ++ [c]). split; [exact Hsuf|].
      rewrite length_app. simpl. lia.
    + exact Hsufmax.
    + destruct (Z.max_spec longest (streak + 1)) as [[_ ->] | [_ ->]].
      * exists (r0 ++ [c]). split; [apply suffixRun_run, Hsuf|].
        rewrite length_app. simpl. lia.
      * exists rl. split; [apply run_snoc, Hrl | exact Hlenl].
    + intros r Hr. apply run_snoc_inv in Hr as [Hr | Hr].
      * apply Hsufmax in Hr. lia.
      * apply Hall in Hr. lia.
  - assert (Hnc : ~ active c)
      by (rewrite <- activeb_active; congruence).
    assert (Hsufmax : forall r, suffixRun (p ++ [c]) r -> r = []).
    { intros r Hr.
      apply suffixRun_snoc_inv in Hr as [-> | (r' & _ & _ & Hac)];
        [reflexivity | contradiction]. }
    repeat split; simpl.
    + exists []. split; [| reflexivity].
      exists (p ++ [c]). rewrite app_nil_r. auto.
    + intros r Hr. apply Hsufmax in Hr. subst r. simpl. lia.
    + exists rl. split; [apply run_snoc, Hrl | exact Hlenl].
    + intros r Hr. apply run_snoc_inv in Hr as [Hr | Hr].
      * apply Hsufmax in Hr. subst r. simpl. lia.
      * apply Hall, Hr.
Qed.

Lemma longestStreak_state (v : list Contribution) :
  streakState v (fold_left longestStreakStep v (0, 0)).
Proof.
  induction v as [|c v IH] using rev_ind.
  - apply streakState_nil.
  - rewrite fold_left_app. apply streakState_step, IH.
Qed.

(** The forward loop leaves the length of the longest run. *)
Lemma computeLongestStreak_longestRun (v : list Contribution) :
  longestRun v (computeLongestStreak v).
Proof. apply (longestStreak_state v). Qed.

(** *** The current streak *)

Lemma currentStreakLoop_scan (today : jsstring)
  (backwards : list Contribution) (tempStreak : Z) :
  exists scanned rest,
    backwards = scanned ++ rest
    /\ Forall (passed today) scanned
    /\ (rest = [] \/ exists c rest', rest = c :: rest' /\ stops today c)
    /\ currentStreakLoop today backwards tempStreak
       = tempStreak + Z.of_nat (length (List.filter activeb scanned)).
Proof.
  revert tempStreak.
  induction backwards as [|c rest IH]; intros tempStreak.
  - exists [], []. simpl. repeat split; auto. lia.
  - simpl. rewrite count_gtb. destruct (activeb c) eqn:Hc.
    + destruct (IH (tempStreak + 1)) as (scanned & rest' & -> & Hs & Hr & ->).
      exists (c :: scanned), rest'. simpl. rewrite Hc. simpl.
      repeat split; auto; [| lia].
      constructor; [| exact Hs]. left. apply activeb_active, Hc.
    + assert (Hnc : ~ active c)
        by (rewrite <- activeb_active; congruence).
      destruct (str_eqb (date c) today) eqn:Hd; simpl.
      * destruct (IH tempStreak) as (scanned & rest' & -> & Hs & Hr & ->).
        exists (c :: scanned), rest'. simpl. rewrite Hc.
        repeat split; auto.
        constructor; [| exact Hs]. right. apply bool_decide_eq_true in Hd.
        exact Hd.
      * exists [], (c :: rest). simpl. repeat split; auto; [| lia].
        right. exists c, rest. split; [reflexivity|].
        split; [exact Hnc|]. apply bool_decide_eq_false in Hd. exact Hd.
Qed.

(** The backward loop computes the trailing scan. *)
Lemma computeCurrentStreak_trailingScan (today : jsstring)
  (v : list Contribution) :
  trailingScan today v (computeCurrentStreak today v).
Proof.
  unfold computeCurrentStreak.
  destruct (currentStreakLoop_scan today (rev v) 0)
    as (scanned & rest & Heq & Hs & Hr & ->).
  exists (rev rest), (rev scanned). repeat split.
  - rewrite <- rev_app_distr, <- Heq, rev_involutive. reflexivity.
  - apply Forall_rev. exact Hs.
  - destruct Hr as [-> | (c & rest' & -> & Hc)]; [auto|].
    right. exists (rev rest'), c. simpl. auto.
  - rewrite List.filter_rev, length_rev. lia.
Qed.

(** *** In the handler *)

Lemma validContribs_sort (w : World) (cs : list Contribution) :
  validContribs w cs = sort (dateCompare w) (upToToday w cs).
Proof. reflexivity. Qed.

(** The streaks of a success answer, when the contributions service
    answered OK with a list. *)
Lemma github_streaks_computed (w : World) (u : jsstring) (stats : Stats)
  (res : Response AllYearsData) (data : AllYearsData)
  (cs : list Contribution) :
  u <> [] ->
  GET w {| username := Some u |} = json_ok stats ->
  fetchContributions w u = Normal res -> ok res = true ->
  json res = Normal data -> contributions data = Some cs ->
  currentStreak stats = computeCurrentStreak (today w) (validContribs w cs)
  /\ longestStreak stats = computeLongestStreak (validContribs w cs).
Proof.
  intros Hu Hget Hf Hok Hj Hcs.
  assert (Hs : is_success (GET w {| username := Some u |}))
    by (rewrite Hget; apply json_ok_success).
  destruct (github_success_inv w u Hu Hs)
    as (userRes & userData & reposRes & repos & _ & _ & _ & _ & _ & Heq).
  rewrite Heq in Hget. apply json_ok_inj in Hget. subst stats.
  cbn [currentStreak longestStreak].
  unfold fetchContribStats. rewrite Hf. cbn [bind]. rewrite Hok, Hj.
  cbn [bind try_catch]. unfold contribStatsOf. rewrite Hcs.
  split; reflexivity.
Qed.

(** C3.  When the contributions service answers OK with the list [cs],
    the handler works on [v], the entries of [cs] not dated after today,
    in ascending order of date (for a comparator that is consistent on
    them).  Its [longestStreak] is the length of the longest run of
    consecutive entries of [v] with [count > 0], and its [currentStreak]
    is what the scan of [v] from its end counts: the entries with
    [count > 0] it meets, passing over an entry without contributions
    dated today and stopping at any other entry without contributions. *)
Theorem github_streaks (w : World) (u : jsstring) (stats : Stats)
  (res : Response AllYearsData) (data : AllYearsData)
  (cs : list Contribution) :
  u <> [] ->
  GET w {| username := Some u |} = json_ok stats ->
  fetchContributions w u = Normal res -> ok res = true ->
  json res = Normal data -> contributions data = Some cs ->
  let v := validContribs w cs in
  Permutation v (upToToday w cs)
  /\ (forall c, In c v <-> In c cs /\ str_leb (date c) (today w) = true)
  /\ (consistent (dateCompare w) (upToToday w cs) ->
      StronglySorted (byDate w) v)
  /\ longestRun v (longestStreak stats)
  /\ trailingScan (today w) v (currentStreak stats).
Proof.
  intros Hu Hget Hf Hok Hj Hcs v.
  destruct (github_streaks_computed w u stats res data cs Hu Hget Hf Hok Hj Hcs)
    as [-> ->].
  subst v. rewrite validContribs_sort.
  split; [| split; [| split; [| split]]].
  - apply sort_perm.
  - intros c. rewrite sort_In. unfold upToToday. apply filter_In.
  - apply sort_sorted.
  - apply computeLongestStreak_longestRun.
  - apply computeCurrentStreak_trailingScan.
Qed.

(** On the [healthy] sample the longest run has three days and the scan
    from the end counts one. *)
Lemma github_streaks_witness :
  Samples.octocat <> []
  /\ longestRun (validContribs Samples.healthy Samples.someContributions) 3
  /\ trailingScan (today Samples.healthy)
       (validContribs Samples.healthy Samples.someContributions) 1.
Proof.
  assert (Hu : Samples.octocat <> []) by discriminate.
  split; [exact Hu|].
  destruct (github_streaks Samples.healthy Samples.octocat
              Samples.healthyStats (Samples.okResponse Samples.someYears)
              Samples.someYears Samples.someContributions
              Hu healthy_run eq_refl eq_refl eq_refl eq_refl)
    as (_ & _ & _ & Hlongest & Hcurrent).
  split; [exact Hlongest | exact Hcurrent].
Defined.

(** *** Bounds *)

Lemma longestRun_nonneg (v : list Contribution) (n : Z) :
  longestRun v n -> 0 <= n.
Proof. intros [(r & _ & <-) _]. lia. Qed.

Lemma longestRun_length (v : list Contribution) (n : Z) :
  longestRun v n -> n <= Z.of_nat (length v).
Proof.
  intros [(r & (pre & post & -> & _) & <-) _].
  rewrite !length_app. lia.
Qed.

Lemma filter_activeb_all (l : list Contribution) :
  Forall active l -> List.filter activeb l = l.
Proof.
  induction 1 as [|c l Hc Hl IH]; simpl; [reflexivity|].
  apply activeb_active in Hc. rewrite Hc, IH. reflexivity.
Qed.

(** When only the last entry can be dated today, the scan from the end
    counts a run. *)
Lemma trailingScan_le_longestRun (today : jsstring) (v : list Contribution)
  (n m : Z) :
  todayLast today v -> trailingScan today v n -> longestRun v m -> n <= m.
Proof.
  intros Hlast (pre & suf & -> & Hsuf & _ & ->) [_ Hmax].
  destruct suf as [|z suf' _] using rev_ind.
  - simpl. apply Z.le_trans with (Z.of_nat (length (@nil Contribution))).
    + simpl. lia.
    + apply Hmax. exists pre, []. auto.
  - apply Forall_app in Hsuf as [Hsuf' Hz].
    assert (Hact : Forall active suf').
    { rewrite List.Forall_forall in Hsuf' |- *. intros x Hx.
      destruct (Hsuf' x Hx) as [Ha | Hd]; [exact Ha|].
      apply in_split in Hx as (s1 & s2 & ->).
      specialize (Hlast (pre ++ s1) x (s2 ++ [z])).
      rewrite <- !app_assoc in Hlast. simpl in Hlast.
      specialize (Hlast eq_refl Hd). destruct s2; discriminate. }
    rewrite List.filter_app, length_app, (filter_activeb_all suf' Hact).
    cbn [List.filter]. destruct (activeb z) eqn:Hzb.
    + rewrite <- length_app. apply Hmax. exists pre, [].
      rewrite app_nil_r. split; [reflexivity|].
      apply Forall_app. split; [exact Hact|].
      constructor; [apply activeb_active, Hzb | constructor].
    + cbn [length]. rewrite Nat.add_0_r. apply Hmax. exists pre, [z]. auto.
Qed.

Lemma NoDup_map_filter {A B} (g : A -> B) (p : A -> bool) (l : list A) :
  NoDup (map g l) -> NoDup (map g (List.filter p l)).
Proof.
  induction l as [|x l IH]; simpl; [auto|].
  rewrite NoDup_cons. intros [Hx Hl].
  destruct (p x); simpl; [| auto].
  apply NoDup_cons. split; [| auto].
  rewrite list_elem_of_In, in_map_iff in *.
  intros (y & Hy & Hin). apply Hx. exists y.
  apply filter_In in Hin. tauto.
Qed.

Lemma upToToday_In (w : World) (cs : list Contribution) (c : Contribution) :
  In c (upToToday w cs) <-> In c cs /\ str_leb (date c) (today w) = true.
Proof. apply filter_In. Qed.

(** A collation that agrees with [<=] on the dates makes the comparator
    consistent. *)
Lemma collates_consistent (w : World) (cs : list Contribution) :
  collatesByCodeUnit w (map date cs) ->
  consistent (dateCompare w) (upToToday w cs).
Proof.
  intros Hcol.
  assert (Hb : forall x y, In x (upToToday w cs) -> In y (upToToday w cs) ->
                 (before (dateCompare w) x y
                  <-> str_leb (date x) (date y) = true)).
  { intros x y Hx Hy. apply upToToday_In in Hx as [Hx _], Hy as [Hy _].
    apply Hcol; apply in_map; assumption. }
  split.
  - intros x y Hx Hy. rewrite !Hb by assumption. apply str_leb_total.
  - intros x y z Hx Hy Hz. rewrite !Hb by assumption. apply str_leb_trans.
Qed.

(** With pairwise-distinct dates, after the sort only the last entry can
    be dated today. *)
Lemma validContribs_todayLast (w : World) (cs : list Contribution) :
  NoDup (map date cs) -> collatesByCodeUnit w (map date cs) ->
  todayLast (today w) (validContribs w cs).
Proof.
  intros Hnd Hcol. rewrite validContribs_sort.
  pose proof (sort_sorted (dateCompare w) _ (collates_consistent w cs Hcol))
    as Hsorted.
  assert (Hnd' : NoDup (map date (sort (dateCompare w) (upToToday w cs)))).
  { rewrite (Permutation_map date (sort_perm (dateCompare w) _)).
    apply NoDup_map_filter, Hnd. }
  assert (Hin : forall c, In c (sort (dateCompare w) (upToToday w cs)) ->
                          In c cs /\ str_leb (date c) (today w) = true).
  { intros c Hc. apply sort_In, upToToday_In in Hc. exact Hc. }
  intros pre x [|y post] Hv Hd; [reflexivity|]. exfalso.
  rewrite Hv in Hsorted, Hnd', Hin.
  apply StronglySorted_app in Hsorted as (_ & _ & Hsorted).
  apply StronglySorted_inv in Hsorted as [_ Hxy].
  apply Forall_inv in Hxy.
  destruct (Hin x) as [Hx _]; [apply in_or_app; simpl; auto|].
  destruct (Hin y) as [Hy Hyt]; [apply in_or_app; simpl; auto|].
  apply Hcol in Hxy; [| apply in_map; assumption ..].
  rewrite Hd in Hxy.
  pose proof (str_leb_antisym _ _ Hyt Hxy) as Hyd.
  rewrite map_app in Hnd'. simpl in Hnd'.
  apply NoDup_app in Hnd' as (_ & _ & Hnd').
  apply NoDup_cons in Hnd' as [Hnd' _]. apply Hnd'.
  rewrite Hd, <- Hyd. left.
Qed.

(** C10.  Neither streak is negative nor more than the number of
    entries not dated after today; and with pairwise-distinct date
    strings that the collation orders as [<=] does, the streaks are
    ordered: [currentStreak <= longestStreak]. *)
Theorem github_streak_bounds (w : World) (u : jsstring) (stats : Stats)
  (res : Response AllYearsData) (data : AllYearsData)
  (cs : list Contribution) :
  u <> [] ->
  GET w {| username := Some u |} = json_ok stats ->
  fetchContributions w u = Normal res -> ok res = true ->
  json res = Normal data -> contributions data = Some cs ->
  0 <= currentStreak stats
  /\ currentStreak stats <= Z.of_nat (length (upToToday w cs))
  /\ 0 <= longestStreak stats
  /\ longestStreak stats <= Z.of_nat (length (upToToday w cs))
  /\ (NoDup (map date cs) -> collatesByCodeUnit w (map date cs) ->
      currentStreak stats <= longestStreak stats).
Proof.
  intros Hu Hget Hf Hok Hj Hcs.
  destruct (github_streaks_computed w u stats res data cs Hu Hget Hf Hok Hj Hcs)
    as [-> ->].
  pose proof (computeLongestStreak_longestRun (validContribs w cs)) as Hlong.
  pose proof (computeCurrentStreak_trailingScan (today w) (validContribs w cs))
    as Hcur.
  assert (Hlen : length (validContribs w cs) = length (upToToday w cs))
    by (rewrite validContribs_sort; apply sort_length).
  split; [| split; [| split; [| split]]].
  - destruct Hcur as (pre & suf & _ & _ & _ & ->). lia.
  - destruct Hcur as (pre & suf & Hv & _ & _ & ->).
    rewrite <- Hlen, Hv, length_app.
    pose proof (List.filter_length_le activeb suf). lia.
  - destruct Hlong as [(r & _ & <-) _]. lia.
  - apply longestRun_length in Hlong. rewrite Hlen in Hlong. exact Hlong.
  - intros Hnd Hcol.
    apply (trailingScan_le_longestRun (today w) (validContribs w cs));
      [apply validContribs_todayLast |..]; assumption.
Qed.

(** A collation by code units agrees with [<=] on all strings. *)
Lemma codeUnitCompare_collates (w : World) (dates : list jsstring) :
  localeCompare w = Samples.codeUnitCompare -> collatesByCodeUnit w dates.
Proof.
  intros Hw a b _ _. rewrite Hw. unfold Samples.codeUnitCompare, str_leb.
  destruct (str_compare a b); split; (lia || congruence).
Qed.

Lemma someContributions_distinct :
  NoDup (map date Samples.someContributions).
Proof. apply (bool_decide_unpack _). vm_compute. exact I. Qed.

(** On the [healthy] sample: [0 <= 1 <= 3 <= 6]. *)
Lemma github_streak_bounds_witness :
  NoDup (map date Samples.someContributions)
  /\ collatesByCodeUnit Samples.healthy (map date Samples.someContributions)
  /\ 0 <= currentStreak Samples.healthyStats
  /\ currentStreak Samples.healthyStats <= longestStreak Samples.healthyStats
  /\ longestStreak Samples.healthyStats
     <= Z.of_nat (length (upToToday Samples.healthy
                            Samples.someContributions)).
Proof.
  assert (Hu : Samples.octocat <> []) by discriminate.
  pose proof someContributions_distinct as Hnd.
  pose proof (codeUnitCompare_collates Samples.healthy
                (map date Samples.someContributions) eq_refl) as Hcol.
  split; [exact Hnd|]. split; [exact Hcol|].
  destruct (github_streak_bounds Samples.healthy Samples.octocat
              Samples.healthyStats (Samples.okResponse Samples.someYears)
              Samples.someYears Samples.someContributions
              Hu healthy_run eq_refl eq_refl eq_refl eq_refl)
    as (H0 & _ & _ & Hlen & Hle).
  split; [exact H0|]. split; [exact (Hle Hnd Hcol) | exact Hlen].
Defined.

(** Pairwise-distinct dates are not enough.  Under a collation that
    ignores a control character, an entry written with it passes the
    filter (as a string it is [<=] today) and sorts after today: the idle
    today is skipped in the middle of the list, and the backward scan
    counts 2 where the longest run is 1. *)
Lemma loose_collation_streaks :
  let w := Samples.looseCollation in
  let u := Samples.octocat in
  fetchContributions w u = Normal (Samples.okResponse Samples.controlYears)
  /\ contributions Samples.controlYears = Some Samples.controlContributions
  /\ NoDup (map date Samples.controlContributions)
  /\ GET w {| username := Some u |} = json_ok Samples.looseCollationStats
  /\ currentStreak Samples.looseCollationStats = 2
  /\ longestStreak Samples.looseCollationStats = 1
  /\ ~ currentStreak Samples.looseCollationStats
       <= longestStreak Samples.looseCollationStats.
Proof.
  intros w u. repeat split.
  - apply (bool_decide_unpack _). vm_compute. exact I.
  - simpl. lia.
Qed.

End StreakFacts.

(** ** Quality selection *)

Module PerformanceFacts.
Import JS Spec Performance.

Lemma Qltb_lt (a b : Q) : Qltb a b = true <-> (a < b)%Q.
Proof.
  unfold Qltb. rewrite negb_true_iff, <- not_true_iff_false, Qle_bool_iff.
  split; [apply Qnot_le_lt | apply Qlt_not_le].
Qed.

Lemma Qgeb_ge (a b : Q) : Qgeb a b = true <-> (b <= a)%Q.
Proof. unfold Qgeb. apply Qle_bool_iff. Qed.

(** *** The mobile pattern *)

Lemma canonicalize_sameLetter (a b : N) :
  (canonicalize a =? canonicalize b)%N = true <-> sameLetter a b.
Proof.
  unfold canonicalize, sameLetter, asciiLower. rewrite N.eqb_eq.
  destruct (N.leb_spec 97 a), (N.leb_spec a 122), (N.leb_spec 97 b),
    (N.leb_spec b 122); simpl; lia.
Qed.

Lemma prefix_ci_spec (pat s : jsstring) :
  prefix_ci pat s = true
  <-> exists occurrence post,
        s = occurrence ++ post /\ Forall2 sameLetter pat occurrence.
Proof.
  revert s. induction pat as [|p pat IH]; intros s; simpl.
  - split; [| reflexivity]. intros _. exists [], s. split; [reflexivity|].
    constructor.
  - destruct s as [|c s].
    + split; [discriminate|]. intros (occ & post & Hs & Hocc).
      inversion Hocc; subst. discriminate.
    + rewrite andb_true_iff, canonicalize_sameLetter, IH. split.
      * intros (Hpc & occ & post & -> & Hocc).
        exists (c :: occ), post. split; [reflexivity|].
        constructor; assumption.
      * intros (occ & post & Hs & Hocc).
        inversion Hocc as [|p' c' pat' occ' Hpc Hocc']; subst.
        injection Hs as -> ->. eauto.
Qed.

Lemma search_ci_spec (pat s : jsstring) :
  search_ci pat s = true
  <-> exists pre occurrence post,
        s = pre ++ occurrence ++ post /\ Forall2 sameLetter pat occurrence.
Proof.
  induction s as [|c s IH].
  - simpl. rewrite orb_false_r, prefix_ci_spec. split.
    + intros (occ & post & Hs & Hocc). exists [], occ, post. auto.
    + intros (pre & occ & post & Hs & Hocc).
      destruct pre; [| discriminate]. simpl in Hs. eauto.
  - cbn [search_ci]. rewrite orb_true_iff, prefix_ci_spec, IH. split.
    + intros [(occ & post & Hs & Hocc) | (pre & occ & post & -> & Hocc)].
      * exists [], occ, post. auto.
      * exists (c :: pre), occ, post. auto.
    + intros (pre & occ & post & Hs & Hocc). destruct pre as [|c' pre].
      * left. simpl in Hs. eauto.
      * right. injection Hs as -> ->. eauto.
Qed.

(** The test of the code is the occurrence of one of the names. *)
Lemma isMobile_spec (n : Navigator) :
  isMobile n = true <-> mobileUserAgent (userAgent n).
Proof.
  unfold isMobile, test_alternatives_ci, mobileUserAgent.
  rewrite existsb_exists.
  change mobilePattern with (map lit mobileNames). split.
  - intros (pat & Hin & Hs). apply in_map_iff in Hin as (name & <- & Hin).
    apply search_ci_spec in Hs as (pre & occ & post & Hs & Hocc).
    exists name, pre, occ, post. auto.
  - intros (name & pre & occ & post & Hin & Hs & Hocc).
    exists (lit name). split; [apply in_map, Hin|].
    apply search_ci_spec. eauto.
Qed.

(** *** The hardware figures *)

(** [navigator.hardwareConcurrency || 2] is at most 2 when the browser
    reports at most 2 cores, or none. *)
Lemma cores_few (win : Window) :
  cores (navigator win) <= 2
  <-> fewCores win \/ hardwareConcurrency (navigator win) = None.
Proof.
  unfold cores, fewCores, reportsCores.
  destruct (hardwareConcurrency (navigator win)) as [c|].
  - destruct (Z.eqb_spec c 0) as [-> | Hc]; split.
    + intros _. left. exists 0. split; [reflexivity | lia].
    + lia.
    + intros Hle. left. eauto.
    + intros [(c' & [= <-] & Hle) | [=]]. exact Hle.
  - split; [auto | lia].
Qed.

Lemma cores_many (win : Window) :
  8 <= cores (navigator win) <-> manyCores win.
Proof.
  unfold cores, manyCores, reportsCores.
  destruct (hardwareConcurrency (navigator win)) as [c|].
  - destruct (Z.eqb_spec c 0) as [-> | Hc]; split.
    + lia.
    + intros (c' & [= <-] & Hle). lia.
    + eauto.
    + intros (c' & [= <-] & Hle). exact Hle.
  - split; [lia|]. intros (c' & [=] & _).
Qed.

(** [navigator.deviceMemory || 4] is below 4 when the browser reports
    less, unless it reports 0. *)
Lemma memory_little (win : Window) :
  (memory (navigator win) < 4)%Q
  <-> exists m, reportsMemory win m /\ (m < 4)%Q /\ ~ (m == 0)%Q.
Proof.
  unfold memory, reportsMemory.
  destruct (deviceMemory (navigator win)) as [m|].
  - destruct (Qeq_bool m 0) eqn:E; split.
    + intros H. exfalso. revert H. apply Qlt_irrefl.
    + intros (m' & [= <-] & _ & Hne). apply Qeq_bool_iff in E. tauto.
    + intros Hlt. exists m. repeat split; [exact Hlt|].
      intros Heq. apply Qeq_bool_iff in Heq. congruence.
    + intros (m' & [= <-] & Hlt & _). exact Hlt.
  - split.
    + intros H. exfalso. revert H. apply Qlt_irrefl.
    + intros (m' & [=] & _).
Qed.

Lemma memory_much (win : Window) :
  (8 <= memory (navigator win))%Q <-> muchMemory win.
Proof.
  unfold memory, muchMemory, reportsMemory.
  destruct (deviceMemory (navigator win)) as [m|].
  - destruct (Qeq_bool m 0) eqn:E; split.
    + intros H. exfalso. revert H. apply Qlt_not_le. reflexivity.
    + intros (m' & [= <-] & Hle). apply Qeq_bool_iff in E.
      rewrite E in Hle. exfalso. revert Hle. apply Qlt_not_le. reflexivity.
    + eauto.
    + intros (m' & [= <-] & Hle). exact Hle.
  - split.
    + intros H. exfalso. revert H. apply Qlt_not_le. reflexivity.
    + intros (m' & [=] & _).
Qed.

(** The two tests of the detection, as conditions on the device. *)
Lemma lowDevice_test (win : Window) :
  lowDevice win <->
  negb (webgl win || experimental_webgl win)
  || (isMobile (navigator win) || (cores (navigator win) <=? 2)
      || Qltb (memory (navigator win)) 4) = true.
Proof.
  unfold lowDevice, webglAvailable.
  rewrite <- isMobile_spec, <- memory_little, <- Qltb_lt.
  pose proof (cores_few win) as Hc. rewrite <- Z.leb_le in Hc.
  destruct (webgl win), (experimental_webgl win), (isMobile (navigator win)),
    (cores (navigator win) <=? 2), (Qltb (memory (navigator win)) 4);
    simpl; intuition congruence.
Qed.

Lemma highDevice_test (win : Window) :
  highDevice win <->
  (cores (navigator win) >=? 8) && Qgeb (memory (navigator win)) 8 = true.
Proof.
  unfold highDevice.
  rewrite andb_true_iff, Z.geb_le, Qgeb_ge, cores_many, memory_much. tauto.
Qed.

Lemma detect_window (win : Window) :
  detectDeviceCapability (Some win)
  = if negb (webgl win || experimental_webgl win)
       || (isMobile (navigator win) || (cores (navigator win) <=? 2)
           || Qltb (memory (navigator win)) 4)
    then low
    else if (cores (navigator win) >=? 8)
            && Qgeb (memory (navigator win)) 8
         then high else medium.
Proof.
  unfold detectDeviceCapability.
  destruct (negb (webgl win || experimental_webgl win)); reflexivity.
Qed.

(** The four listed conditions and those of the code differ in two
    cases only: cores that are not reported, and a reported memory of
    0. *)
Lemma lowConditions_lowDevice (win : Window) :
  (lowConditions win ->
   lowDevice win \/ exists m, reportsMemory win m /\ (m == 0)%Q)
  /\ (lowDevice win ->
      lowConditions win \/ hardwareConcurrency (navigator win) = None).
Proof.
  unfold lowConditions, lowDevice, littleMemory. split.
  - intros [H | [H | [H | (m & Hm & Hlt)]]]; auto.
    destruct (Qeq_dec m 0) as [Heq | Hne]; [right; eauto|].
    left. right. right. right. right. eauto.
  - intros [H | [H | [H | [H | (m & Hm & Hlt & _)]]]]; eauto 7.
Qed.

(** C5.  Without a window the detection answers ['medium'].  With one it
    answers ['low'] exactly when WebGL is unavailable, the user agent
    contains one of the mobile names in whatever case, the browser
    reports at most 2 cores or does not report its cores, or it reports a
    memory below 4 other than 0; ['high'] exactly when none of these
    holds and it reports at least 8 cores and a memory of at least 8; and
    ['medium'] exactly in the remaining case.  [getPerformanceConfig] of
    a quality is its preset, and the presets have the fixed values. *)
Theorem quality_selection :
  detectDeviceCapability None = medium
  /\ (forall win : Window,
        (detectDeviceCapability (Some win) = low <-> lowDevice win)
        /\ (detectDeviceCapability (Some win) = high
            <-> ~ lowDevice win /\ highDevice win)
        /\ (detectDeviceCapability (Some win) = medium
            <-> ~ lowDevice win /\ ~ highDevice win))
  /\ (forall (window : option Window) (q : QualityLevel),
        getPerformanceConfig window (Some q) = QUALITY_PRESETS q
        /\ quality (QUALITY_PRESETS q) = q)
  /\ (forall window : option Window,
        getPerformanceConfig window None
        = QUALITY_PRESETS (detectDeviceCapability window))
  /\ QUALITY_PRESETS low
     = {| quality := low; maxNodes := 4; geometryDetail := 8;
          enableAnimations := false; enableGlow := false; targetFPS := 30 |}
  /\ QUALITY_PRESETS medium
     = {| quality := medium; maxNodes := 6; geometryDetail := 12;
          enableAnimations := true; enableGlow := false; targetFPS := 30 |}
  /\ QUALITY_PRESETS high
     = {| quality := high; maxNodes := 8; geometryDetail := 16;
          enableAnimations := true; enableGlow := true; targetFPS := 60 |}.
Proof.
  split; [reflexivity|]. split.
  - intros win. rewrite detect_window, lowDevice_test, highDevice_test.
    destruct (negb (webgl win || experimental_webgl win)
              || (isMobile (navigator win) || (cores (navigator win) <=? 2)
                  || Qltb (memory (navigator win)) 4));
      destruct ((cores (navigator win) >=? 8)
                && Qgeb (memory (navigator win)) 8);
      intuition congruence.
  - split; [| split; [| repeat split]].
    + intros window q. split; [reflexivity | destruct q; reflexivity].
    + reflexivity.
Qed.

(** A browser with WebGL and a desktop user agent that reports neither
    cores nor memory: none of the four conditions of ['low'] holds of
    it, nor those of ['high'], and the detection answers ['low'], not
    ['medium']. *)
Lemma unreported_cores_low :
  let win := Samples.opaqueBrowser in
  webglAvailable win
  /\ ~ mobileUserAgent (userAgent (navigator win))
  /\ ~ fewCores win
  /\ ~ littleMemory win
  /\ ~ lowConditions win
  /\ ~ (manyCores win /\ muchMemory win)
  /\ detectDeviceCapability (Some win) = low
  /\ detectDeviceCapability (Some win) <> medium.
Proof.
  intros win.
  assert (Hgl : webglAvailable win) by reflexivity.
  assert (Hua : ~ mobileUserAgent (userAgent (navigator win))).
  { rewrite <- isMobile_spec. vm_compute. discriminate. }
  assert (Hc : ~ fewCores win) by (intros (c & [=] & _)).
  assert (Hm : ~ littleMemory win) by (intros (m & [=] & _)).
  repeat split; try assumption.
  - unfold lowConditions. tauto.
  - intros [(c & [=] & _) _].
  - discriminate.
Qed.

(** Same hardware figures, different user agents. *)
Example detect_desktop : detectDeviceCapability (Some Samples.desktop) = high.
Proof. reflexivity. Qed.

Example detect_phone : detectDeviceCapability (Some Samples.phone) = low.
Proof. reflexivity. Qed.

End PerformanceFacts.

(** ** The adaptive-quality hook *)

Module HooksFacts.
Import Performance Hooks.

Lemma QualityLevel_eqb_eq (a b : QualityLevel) :
  QualityLevel_eqb a b = true <-> a = b.
Proof. destruct a, b; simpl; split; congruence. Qed.

Lemma adjust_quality (frameCount : Z) (st : AdaptiveState) :
  quality (adjust frameCount st)
  = if (frameCount <? 20) && negb (QualityLevel_eqb (quality st) low)
    then low
    else if (frameCount <? 30) && QualityLevel_eqb (quality st) high
         then medium else quality st.
Proof.
  unfold adjust.
  destruct ((frameCount <? 20) && negb (QualityLevel_eqb (quality st) low));
    [reflexivity|].
  destruct ((frameCount <? 30) && QualityLevel_eqb (quality st) high);
    reflexivity.
Qed.

Lemma adjust_rank (frameCount : Z) (st : AdaptiveState) :
  rank (quality (adjust frameCount st)) <= rank (quality st).
Proof.
  rewrite adjust_quality.
  destruct (frameCount <? 20), (frameCount <? 30), (quality st);
    simpl; lia.
Qed.

Lemma run_rank (samples : list Z) (st : AdaptiveState) :
  rank (quality (run samples st)) <= rank (quality st).
Proof.
  unfold run. revert st.
  induction samples as [|frameCount samples IH]; intros st; simpl; [lia|].
  etransitivity; [apply IH | apply adjust_rank].
Qed.

(** C9.  One adjustment step of [useAdaptiveQuality], on the frames
    counted in the last second: fewer than 20 with a quality other than
    ['low'] gives ['low']; otherwise fewer than 30 with quality ['high']
    gives ['medium']; otherwise the quality is unchanged.  The step never
    raises the quality in the order [low < medium < high], nor does any
    run of steps, and the configuration stays the preset of the
    quality. *)
Theorem adaptive_quality_never_upgrades :
  (forall (frameCount : Z) (st : AdaptiveState),
      let st' := adjust frameCount st in
      (frameCount < 20 -> quality st <> low -> quality st' = low)
      /\ (20 <= frameCount < 30 -> quality st = high ->
          quality st' = medium)
      /\ (20 <= frameCount \/ quality st = low ->
          30 <= frameCount \/ quality st <> high ->
          quality st' = quality st)
      /\ rank (quality st') <= rank (quality st)
      /\ fps st' = frameCount
      /\ (config st = QUALITY_PRESETS (quality st) ->
          config st' = QUALITY_PRESETS (quality st')))
  /\ (forall (samples : list Z) (st : AdaptiveState),
        rank (quality (run samples st)) <= rank (quality st)).
Proof.
  split; [| exact run_rank].
  intros frameCount st st'.
  split; [| split; [| split; [| split; [| split]]]].
  - intros Hf Hq. subst st'. rewrite adjust_quality.
    apply Z.ltb_lt in Hf. rewrite Hf.
    destruct (quality st); simpl; congruence.
  - intros [Hge Hlt] Hq. subst st'. rewrite adjust_quality, Hq.
    apply Z.ltb_ge in Hge. apply Z.ltb_lt in Hlt. rewrite Hge, Hlt.
    reflexivity.
  - subst st'. rewrite adjust_quality. generalize (quality st).
    intros q H20 H30.
    destruct (Z.ltb_spec frameCount 20), (Z.ltb_spec frameCount 30), q;
      simpl; try reflexivity;
      destruct H20 as [H20 | H20], H30 as [H30 | H30];
      try lia; congruence.
  - apply adjust_rank.
  - subst st'. unfold adjust.
    destruct ((frameCount <? 20) && negb (QualityLevel_eqb (quality st) low));
      [reflexivity|].
    destruct ((frameCount <? 30) && QualityLevel_eqb (quality st) high);
      reflexivity.
  - intros Hc. subst st'. unfold adjust.
    destruct ((frameCount <? 20) && negb (QualityLevel_eqb (quality st) low));
      [reflexivity|].
    destruct ((frameCount <? 30) && QualityLevel_eqb (quality st) high);
      [reflexivity | exact Hc].
Qed.

(** A run that starts high: 25 frames, then 10, then a full 60. *)
Example run_degrades :
  map (fun samples => quality (run samples (init (Some high))))
    [[25]; [25; 10]; [25; 10; 60]]
  = [medium; low; low].
Proof. reflexivity. Qed.

End HooksFacts.

(** ** The network scene graph *)

Module NetworkGraphFacts.
Import JS Spec ArrayFacts Performance NetworkGraph.

Lemma findNode_Some (visible : list NodeData) (targetId : string)
  (m : NodeData) :
  findNode visible targetId = Some m -> In m visible /\ id m = targetId.
Proof.
  unfold findNode. intros H. apply find_some in H as [Hin Heq].
  apply String.eqb_eq in Heq. auto.
Qed.

Lemma idsOf_In (visible : list NodeData) (targetId : string) :
  targetId ∈ idsOf visible <-> In targetId (map id visible).
Proof. unfold idsOf. rewrite elem_of_list_to_set. apply list_elem_of_In. Qed.

(** The inner callback pushes at most one connection, and only one that
    joins two visible nodes. *)
Lemma connectTarget_joins (visible : list NodeData) (node : NodeData)
  (conns : list Connection) (targetId : string) :
  In node visible -> In targetId (connections node) ->
  Forall (joins visible) conns ->
  Forall (joins visible)
    (connectTarget visible (idsOf visible) node conns targetId).
Proof.
  intros Hn Ht Hconns. unfold connectTarget.
  destruct (negb (bool_decide (targetId ∈ idsOf visible))); [exact Hconns|].
  destruct (findNode visible targetId) as [m|] eqn:Hm; [| exact Hconns].
  apply findNode_Some in Hm as [Hm Hid].
  apply Forall_app. split; [exact Hconns|].
  constructor; [| constructor].
  exists node, m. simpl. rewrite Hid. auto 10.
Qed.

(** A target that is not visible is skipped. *)
Lemma connectTarget_cut_off (visible : list NodeData) (node : NodeData)
  (conns : list Connection) (targetId : string) :
  ~ In targetId (map id visible) ->
  connectTarget visible (idsOf visible) node conns targetId = conns.
Proof.
  intros Hcut. unfold connectTarget.
  rewrite bool_decide_eq_false_2; [reflexivity|].
  rewrite idsOf_In. exact Hcut.
Qed.

Lemma connectTargets_joins (visible : list NodeData) (node : NodeData)
  (targets : list string) (conns : list Connection) :
  In node visible -> incl targets (connections node) ->
  Forall (joins visible) conns ->
  Forall (joins visible)
    (fold_left (connectTarget visible (idsOf visible) node) targets conns).
Proof.
  intros Hn. revert conns.
  induction targets as [|t targets IH]; intros conns Hincl Hconns; simpl;
    [exact Hconns|].
  apply IH.
  - intros t' Ht'. apply Hincl. right. exact Ht'.
  - apply connectTarget_joins; auto. apply Hincl. left. reflexivity.
Qed.

Lemma connectNodes_joins (visible nodes : list NodeData)
  (conns : list Connection) :
  incl nodes visible -> Forall (joins visible) conns ->
  Forall (joins visible)
    (fold_left
       (fun conns node =>
          fold_left (connectTarget visible (idsOf visible) node)
            (connections node) conns)
       nodes conns).
Proof.
  revert conns.
  induction nodes as [|n nodes IH]; intros conns Hincl Hconns; simpl;
    [exact Hconns|].
  apply IH.
  - intros n' Hn'. apply Hincl. right. exact Hn'.
  - apply connectTargets_joins; auto.
    + apply Hincl. left. reflexivity.
    + apply incl_refl.
Qed.

(** Every connection joins two visible nodes, whatever the visible
    nodes. *)
Lemma connectionsOf_joins (visible : list NodeData) :
  Forall (joins visible) (connectionsOf visible).
Proof.
  unfold connectionsOf. apply connectNodes_joins;
    [apply incl_refl | constructor].
Qed.

Lemma NETWORK_NODES_length : length NETWORK_NODES = 8%nat.
Proof. reflexivity. Qed.

Lemma visibleNodes_prefix (cfg : PerformanceConfig) :
  0 <= maxNodes cfg ->
  visibleNodes cfg
  = firstn (Z.to_nat (Z.min 8 (maxNodes cfg))) NETWORK_NODES.
Proof.
  intros Hn. unfold visibleNodes, visibleNodesOf.
  rewrite slice_prefix by exact Hn.
  destruct (Z.le_ge_cases (maxNodes cfg) 8) as [Hle | Hge].
  - rewrite Z.min_r by exact Hle. reflexivity.
  - rewrite Z.min_l by exact Hge.
    rewrite !firstn_all2; [reflexivity | simpl; lia | simpl; lia].
Qed.

(** C8, as the code has it.  The scene graph is a fixed list of 8 nodes.
    For a configuration with [maxNodes >= 0] (the presets have 4, 6 and
    8) the rendered nodes are the first [min 8 maxNodes] of the list; for
    every configuration, each connection line joins two rendered nodes,
    from a node to one of its targets, and a target that is not rendered
    adds no line. *)
Theorem network_graph :
  length NETWORK_NODES = 8%nat
  /\ (forall cfg : PerformanceConfig,
        0 <= maxNodes cfg ->
        visibleNodes cfg
        = firstn (Z.to_nat (Z.min 8 (maxNodes cfg))) NETWORK_NODES)
  /\ (forall q : QualityLevel,
        visibleNodes (QUALITY_PRESETS q)
        = firstn (Z.to_nat (maxNodes (QUALITY_PRESETS q))) NETWORK_NODES)
  /\ (forall (cfg : PerformanceConfig) (c : Connection),
        In c (connectionsOf (visibleNodes cfg)) ->
        joins (visibleNodes cfg) c)
  /\ (forall (cfg : PerformanceConfig) (n : NodeData) (t : string)
        (conns : list Connection),
        In n (visibleNodes cfg) -> In t (connections n) ->
        ~ In t (map id (visibleNodes cfg)) ->
        connectTarget (visibleNodes cfg) (idsOf (visibleNodes cfg))
          n conns t
        = conns).
Proof.
  split; [exact NETWORK_NODES_length|].
  split; [exact visibleNodes_prefix|].
  split; [intros q; destruct q; reflexivity|].
  split.
  - intros cfg c. apply List.Forall_forall, connectionsOf_joins.
  - intros cfg n t conns _ _. apply connectTarget_cut_off.
Qed.

(** With [maxNodes = -2] the component renders six nodes, not the first
    [min 8 (-2)] (none). *)
Lemma negative_maxNodes_renders_six :
  maxNodes Samples.negativeNodes = -2
  /\ length (visibleNodes Samples.negativeNodes) = 6%nat
  /\ visibleNodes Samples.negativeNodes
     <> firstn (Z.to_nat (Z.min 8 (maxNodes Samples.negativeNodes)))
          NETWORK_NODES.
Proof. repeat split. discriminate. Qed.

(** The lines drawn at each preset. *)
Example connections_low :
  map key (connectionsOf (visibleNodes (QUALITY_PRESETS low)))
  = ["api-gateway-auth"; "api-gateway-users"; "api-gateway-data";
     "auth-users"]%string.
Proof. vm_compute. reflexivity. Qed.

Example connections_medium :
  map key (connectionsOf (visibleNodes (QUALITY_PRESETS medium)))
  = ["api-gateway-auth"; "api-gateway-users"; "api-gateway-data";
     "auth-users"; "auth-cache"; "users-db"; "users-cache"; "data-db";
     "db-cache"]%string.
Proof. vm_compute. reflexivity. Qed.

Example connections_high :
  map key (connectionsOf (visibleNodes (QUALITY_PRESETS high)))
  = ["api-gateway-auth"; "api-gateway-users"; "api-gateway-data";
     "auth-users"; "auth-cache"; "users-db"; "users-cache"; "data-db";
     "data-queue"; "db-cache"; "queue-workers"]%string.
Proof. vm_compute. reflexivity. Qed.

End NetworkGraphFacts.

(** * The rest of the code *)

(** ** Validation: white space around the fields *)

Module TrimFacts.
Import JS Validation Spec SpecMore ValidationFacts.

Lemma trimStart_padding (pre s : jsstring) :
  allWhiteSpace pre -> trimStart (pre ++ s) = trimStart s.
Proof.
  induction 1 as [|c pre Hc _ IH]; simpl; [reflexivity|].
  rewrite Hc. exact IH.
Qed.

Lemma trimStart_allWhiteSpace (s : jsstring) :
  allWhiteSpace s -> trimStart s = [].
Proof.
  intros Hs. rewrite <- (app_nil_r s), trimStart_padding by exact Hs.
  reflexivity.
Qed.

(** What is left starts with a character that is not white space. *)
Lemma trimStart_app (s post : jsstring) :
  trimStart s <> [] -> trimStart (s ++ post) = trimStart s ++ post.
Proof.
  induction s as [|c s IH]; simpl; [congruence|].
  destruct (isWhiteSpace c); [exact IH | reflexivity].
Qed.

Lemma trimStart_empty (s : jsstring) :
  trimStart s = [] -> allWhiteSpace s.
Proof.
  induction s as [|c s IH]; simpl; [constructor|].
  destruct (isWhiteSpace c) eqn:Hc; [| discriminate].
  intros H. constructor; [exact Hc | apply IH, H].
Qed.

Lemma trimEnd_padding (s post : jsstring) :
  allWhiteSpace post -> trimEnd (s ++ post) = trimEnd s.
Proof.
  intros Hp. unfold trimEnd. rewrite rev_app_distr.
  rewrite trimStart_padding; [reflexivity|]. apply Forall_rev. exact Hp.
Qed.

(** [trim] does not see the white space around a string. *)
Lemma trim_padding (pre s post : jsstring) :
  allWhiteSpace pre -> allWhiteSpace post ->
  trim (pre ++ s ++ post) = trim s.
Proof.
  intros Hpre Hpost. unfold trim. rewrite trimStart_padding by exact Hpre.
  destruct (trimStart s) as [|c t] eqn:Hs.
  - apply trimStart_empty in Hs.
    rewrite trimStart_allWhiteSpace; [reflexivity|].
    apply Forall_app. auto.
  - rewrite trimStart_app by congruence. rewrite Hs.
    apply trimEnd_padding. exact Hpost.
Qed.

(** The e-mail pattern accepts no white space anywhere. *)
Lemma emailRegex_noWhiteSpace (s : jsstring) :
  test_anchored emailRegex s = true -> noWhiteSpace s.
Proof.
  intros H. apply emailRegex_shape in H
    as (l & d & t & -> & _ & _ & _ & Fl & Fd & Ft).
  assert (Hplain : forall p, Forall plainChar p -> noWhiteSpace p).
  { intros p. apply List.Forall_impl. intros c [Hc _]. exact Hc. }
  unfold noWhiteSpace.
  repeat (apply Forall_app; split) || constructor; try reflexivity;
    try (apply Hplain; assumption).
Qed.

(** It accepts exactly one [@]. *)
Lemma emailRegex_one_at (s : jsstring) :
  test_anchored emailRegex s = true -> count_occ N.eq_dec s 64%N = 1%nat.
Proof.
  intros H. apply emailRegex_shape in H
    as (l & d & t & -> & _ & _ & _ & Fl & Fd & Ft).
  assert (Hplain : forall p, Forall plainChar p ->
                             count_occ N.eq_dec p 64%N = 0%nat).
  { intros p Hp. apply count_occ_not_In.
    rewrite List.Forall_forall in Hp. intros Hin.
    destruct (Hp _ Hin) as [_ Hne]. congruence. }
  rewrite count_occ_app. simpl. rewrite count_occ_app. simpl.
  rewrite !Hplain by assumption. reflexivity.
Qed.

(** X1.  An accepted e-mail address has no white space and exactly one
    [@], with a dot somewhere after it that is neither next to the [@]
    nor last. *)
Theorem accepted_email_shape (s : jsstring) :
  test_anchored emailRegex s = true ->
  noWhiteSpace s
  /\ count_occ N.eq_dec s 64%N = 1%nat
  /\ exists l d t : jsstring,
       s = l ++ 64%N :: d ++ 46%N :: t /\ l <> [] /\ d <> [] /\ t <> [].
Proof.
  intros H. split; [apply emailRegex_noWhiteSpace, H|].
  split; [apply emailRegex_one_at, H|].
  apply emailRegex_shape in H as (l & d & t & ? & ? & ? & ? & _).
  exists l, d, t. auto.
Qed.

Lemma accepted_email_shape_witness :
  test_anchored emailRegex (lit "alice@example.org") = true
  /\ count_occ N.eq_dec (lit "alice@example.org") 64%N = 1%nat.
Proof.
  assert (H : test_anchored emailRegex (lit "alice@example.org") = true)
    by reflexivity.
  split; [exact H|].
  exact (proj1 (proj2 (accepted_email_shape (lit "alice@example.org") H))).
Defined.

Lemma errors_depends (d d' : ContactFormData) :
  trim (name d) = trim (name d') -> email d = email d' ->
  trim (message d) = trim (message d') ->
  errors (validateContactForm d) = errors (validateContactForm d').
Proof.
  intros Hn He Hm. rewrite !validateContactForm_errors, Hn, He, Hm.
  reflexivity.
Qed.

(** X2.  White space around the name and the message changes nothing of
    the verdict, while any white space around the e-mail address makes it
    invalid. *)
Theorem padding_verdict (data : ContactFormData) (pre post : jsstring) :
  allWhiteSpace pre -> allWhiteSpace post ->
  errors
    (validateContactForm
       {| name := pre ++ name data ++ post; email := email data;
          message := pre ++ message data ++ post |})
  = errors (validateContactForm data)
  /\ (pre ++ post <> [] ->
      errors
        (validateContactForm
           {| name := name data; email := pre ++ email data ++ post;
              message := message data |}) !! "email"%string
      = Some email_error).
Proof.
  intros Hpre Hpost. split.
  - apply errors_depends; simpl; auto using trim_padding.
  - intros Hne. rewrite validateContactForm_errors, errorsFor_email.
    simpl email.
    destruct (test_anchored emailRegex (pre ++ email data ++ post)) eqn:He;
      [| reflexivity].
    exfalso. apply emailRegex_noWhiteSpace in He. unfold noWhiteSpace in He.
    apply Forall_app in He as [He1 He2]. apply Forall_app in He2 as [_ He2].
    destruct pre as [|c pre].
    + destruct post as [|c post]; [apply Hne; reflexivity|].
      apply Forall_inv in He2. apply Forall_inv in Hpost. congruence.
    + apply Forall_inv in He1. apply Forall_inv in Hpre. congruence.
Qed.

Lemma padding_verdict_witness :
  allWhiteSpace (lit "  ")
  /\ errors
       (validateContactForm
          {| name := name SamplesMore.alice;
             email := lit "  " ++ email SamplesMore.alice ++ lit "  ";
             message := message SamplesMore.alice |}) !! "email"%string
     = Some email_error.
Proof.
  assert (Hws : allWhiteSpace (lit "  "))
    by (repeat constructor).
  split; [exact Hws|].
  apply (proj2 (padding_verdict SamplesMore.alice (lit "  ") (lit "  ")
                  Hws Hws)).
  discriminate.
Defined.

End TrimFacts.

(** ** Responsive breakpoints *)

Module ResponsiveFacts.
Import JS JSText JSNumber Responsive SpecMore.

Lemma Breakpoint_eqb_eq (a b : Breakpoint) :
  Breakpoint_eqb a b = true <-> a = b.
Proof. destruct a, b; simpl; split; congruence. Qed.

(** Every breakpoint has its configuration: [find] never comes back
    empty. *)
Lemma findConfig_name (b : Breakpoint) :
  exists config, findConfig b = Some config /\ name config = b.
Proof. destruct b; eexists; split; reflexivity. Qed.

(** The comparisons against an integer literal. *)
Lemma ltb_Finite (q : Q) (z : Z) :
  ltb (Finite q) (ofZ z) = true <-> (q < inject_Z z)%Q.
Proof.
  unfold ltb, ofZ. rewrite negb_true_iff, <- not_true_iff_false, Qle_bool_iff.
  split; [apply Qnot_le_lt | apply Qlt_not_le].
Qed.

Lemma geb_Finite (q : Q) (z : Z) :
  geb (Finite q) (ofZ z) = true <-> (inject_Z z <= q)%Q.
Proof.
  change (geb (Finite q) (ofZ z)) with (negb (ltb (Finite q) (ofZ z))).
  rewrite negb_true_iff, <- not_true_iff_false, ltb_Finite.
  split; [apply Qnot_lt_le | apply Qle_not_lt].
Qed.

Lemma leb_Finite (q : Q) (z : Z) :
  leb (Finite q) (ofZ z) = true <-> (q <= inject_Z z)%Q.
Proof.
  unfold leb, ofZ, ltb. rewrite negb_involutive. apply Qle_bool_iff.
Qed.

(** Decide the three comparisons of the code on a finite width. *)
Ltac compare_width q :=
  repeat match goal with
  | |- context [ltb (Finite q) (ofZ ?z)] =>
      let H := fresh "H" in
      destruct (ltb (Finite q) (ofZ z)) eqn:H;
      [apply ltb_Finite in H
      | apply not_true_iff_false in H; rewrite ltb_Finite in H;
        apply Qnot_lt_le in H]
  | |- context [geb (Finite q) (ofZ ?z)] =>
      let H := fresh "H" in
      destruct (geb (Finite q) (ofZ z)) eqn:H;
      [apply geb_Finite in H
      | apply not_true_iff_false in H; rewrite geb_Finite in H;
        apply Qnot_le_lt in H]
  | |- context [leb (Finite q) (ofZ ?z)] =>
      let H := fresh "H" in
      destruct (leb (Finite q) (ofZ z)) eqn:H;
      [apply leb_Finite in H
      | apply not_true_iff_false in H; rewrite leb_Finite in H;
        apply Qnot_le_lt in H]
  end;
  unfold inject_Z in *.

(** X3.  [matchesBreakpoint] never throws.  For a width outside the
    gaps it holds of exactly the breakpoint [getBreakpoint] returns; a
    width in a gap (negative, strictly between 767 and 768 or between
    1023 and 1024, minus infinity or [NaN]) matches no breakpoint at all,
    although [getBreakpoint] names one.  A whole number of pixels that is
    not negative is in no gap. *)
Theorem breakpoint_matches (width : number) (b : Breakpoint) :
  (~ inGap width ->
   matchesBreakpoint width b = Normal (Breakpoint_eqb (getBreakpoint width) b))
  /\ (inGap width -> matchesBreakpoint width b = Normal false)
  /\ (forall z, 0 <= z -> wholePixels width z -> ~ inGap width).
Proof.
  unfold matchesBreakpoint, getBreakpoint. split; [| split].
  - destruct width as [q| | |]; simpl inGap; intros Hgap;
      [| destruct b; reflexivity | tauto | tauto].
    destruct b; cbn [findConfig breakpoints List.find name Breakpoint_eqb
                     maxWidth minWidth];
      compare_width q; simpl; try reflexivity; exfalso; lra.
  - destruct width as [q| | |]; simpl inGap; intros Hgap;
      [| tauto | destruct b; reflexivity | destruct b; reflexivity].
    destruct b; cbn [findConfig breakpoints List.find name Breakpoint_eqb
                     maxWidth minWidth];
      compare_width q; simpl; try reflexivity; exfalso; lra.
  - intros z Hz (q & -> & Hq). simpl. rewrite Hq. unfold inject_Z.
    assert (H0 : (0 <= z # 1)%Q) by (unfold Qle; simpl; lia).
    intros [H | [[H1 H2] | [H1 H2]]]; unfold Qlt in *; simpl in *; lia.
Qed.

(** X4.  [getBreakpointConfig] always finds a configuration, that of the
    breakpoint of the width; the width lies within its bounds exactly
    when it is in no gap. *)
Theorem breakpoint_config_bounds (width : number) :
  exists config,
    getBreakpointConfig width = Some config
    /\ name config = getBreakpoint width
    /\ (within width config <-> ~ inGap width).
Proof.
  unfold getBreakpointConfig, getBreakpoint.
  destruct width as [q| | |].
  - compare_width q; eexists; (split; [reflexivity|]);
      (split; [reflexivity|]); simpl; unfold inject_Z; split.
    all: try (intros [Hlo Hhi]; try specialize (Hhi _ eq_refl); lra).
    all: intros Hgap; split; [lra |]; intros m [= <-]; lra.
  - eexists. split; [reflexivity|]. split; [reflexivity|]. simpl. tauto.
  - eexists. split; [reflexivity|]. split; [reflexivity|]. simpl. tauto.
  - eexists. split; [reflexivity|]. split; [reflexivity|]. simpl. tauto.
Qed.

(** Half a pixel past the mobile range: [getBreakpoint] says mobile, and
    no breakpoint matches. *)
Example between_breakpoints :
  getBreakpoint (Finite (1535 # 2)) = mobile
  /\ map (matchesBreakpoint (Finite (1535 # 2))) [mobile; tablet; desktop]
     = [Normal false; Normal false; Normal false].
Proof. split; reflexivity. Qed.

(** *** Splitting a class string *)

Lemma splitFrom_plain (inGap : bool) (piece s : jsstring) :
  noWhiteSpace s -> splitFrom inGap piece s = [piece ++ s].
Proof.
  intros Hs. revert inGap piece.
  induction Hs as [|c s Hc _ IH]; intros inGap piece; simpl.
  - rewrite app_nil_r. reflexivity.
  - rewrite Hc, IH, <- app_assoc. reflexivity.
Qed.

(** After a gap, a piece that starts with a plain character is read as
    at the start. *)
Lemma splitFrom_gap (s : jsstring) :
  (forall c s', s = c :: s' -> isWhiteSpace c = false) ->
  splitFrom true [] s = splitFrom false [] s.
Proof.
  destruct s as [|c s']; [reflexivity|]. intros H. simpl.
  rewrite (H c s' eq_refl). reflexivity.
Qed.

Lemma splitFrom_piece (piece a rest : jsstring) :
  noWhiteSpace a ->
  splitFrom false piece (a ++ 32%N :: rest)
  = (piece ++ a) :: splitFrom true [] rest.
Proof.
  intros Ha. revert piece.
  induction Ha as [|c a Hc _ IH]; intros piece; simpl.
  - rewrite app_nil_r. reflexivity.
  - rewrite Hc, IH, <- app_assoc. reflexivity.
Qed.

(** Joining with single spaces and splitting again gives the pieces
    back, when they have no white space and only the first may be
    empty. *)
Lemma split_join (p0 : jsstring) (pieces : list jsstring) :
  Forall noWhiteSpace (p0 :: pieces) ->
  Forall (fun p => p <> []) pieces ->
  splitWhiteSpace (joinSpace (p0 :: pieces)) = p0 :: pieces.
Proof.
  unfold splitWhiteSpace. revert p0.
  induction pieces as [|p1 pieces IH]; intros p0 Hws Hne.
  - apply Forall_inv in Hws. simpl. apply splitFrom_plain. exact Hws.
  - change (joinSpace (p0 :: p1 :: pieces))
      with (p0 ++ 32%N :: joinSpace (p1 :: pieces)).
    apply Forall_cons_1 in Hws as [Hp0 Hws].
    apply Forall_cons_1 in Hne as [Hp1 Hne].
    rewrite splitFrom_piece by exact Hp0. simpl app. f_equal.
    rewrite splitFrom_gap; [apply IH; assumption|].
    intros c s' Heq. apply Forall_inv in Hws.
    destruct p1 as [|c1 p1]; [congruence|].
    apply Forall_inv in Hws.
    destruct pieces; simpl in Heq; injection Heq as <- _; exact Hws.
Qed.

Lemma splitFrom_noWhiteSpace (inGap : bool) (piece s : jsstring) :
  noWhiteSpace piece -> Forall noWhiteSpace (splitFrom inGap piece s).
Proof.
  revert inGap piece.
  induction s as [|c s IH]; intros inGap piece Hp; simpl.
  - constructor; [exact Hp | constructor].
  - destruct (isWhiteSpace c) eqn:Hc.
    + destruct inGap; [apply IH; constructor|].
      constructor; [exact Hp | apply IH; constructor].
    + apply IH. apply Forall_app. split; [exact Hp|].
      constructor; [exact Hc | constructor].
Qed.

Lemma splitFrom_trailing (inGap : bool) (piece s : jsstring) (c : N) :
  isWhiteSpace c = true -> In [] (splitFrom inGap piece (s ++ [c])).
Proof.
  intros Hc. revert inGap piece.
  induction s as [|c0 s IH]; intros inGap piece; simpl.
  - rewrite Hc. destruct inGap; simpl; auto.
  - destruct (isWhiteSpace c0); [| apply IH].
    destruct inGap; [apply IH | right; apply IH].
Qed.

Lemma nonEmpty_In {A} (l : list A) :
  nonEmpty l = true <-> exists x, In x l.
Proof.
  unfold nonEmpty. destruct l as [|x l]; simpl.
  - split; [discriminate | intros [? []]].
  - split; [eauto | intros _; apply Z.gtb_lt; lia].
Qed.

Lemma startsWith_first (cls prefix : jsstring) (p : N) :
  startsWith cls (p :: prefix) = true -> exists cls', cls = p :: cls'.
Proof.
  destruct cls as [|c cls]; simpl; [discriminate|].
  rewrite andb_true_iff, N.eqb_eq. intros [-> _]. eauto.
Qed.

Lemma mobile_filter (cls : jsstring) :
  negb (startsWith cls (lit "sm:")) && negb (startsWith cls (lit "md:"))
  && negb (startsWith cls (lit "lg:")) && negb (startsWith cls (lit "xl:"))
  = true
  <-> unprefixed cls.
Proof.
  unfold unprefixed. rewrite !andb_true_iff, !negb_true_iff. tauto.
Qed.

(** X5.  [extractResponsiveClasses] sorts the pieces of the class string,
    none of which has white space: a piece is a mobile class exactly when
    it has none of the prefixes [sm:], [md:], [lg:], [xl:] (so the empty
    piece is one), a tablet class exactly when it starts with [md:], a
    desktop class exactly when it starts with [lg:]; no class is in two
    of the lists, and a class starting with [sm:] or [xl:] is in none. *)
Theorem extract_classification (classString cls : jsstring) :
  let ex := extractResponsiveClasses classString in
  let pieces := splitWhiteSpace classString in
  Forall noWhiteSpace pieces
  /\ (In cls (ex_mobile ex) <-> In cls pieces /\ unprefixed cls)
  /\ (In cls (ex_tablet ex)
      <-> In cls pieces /\ startsWith cls (lit "md:") = true)
  /\ (In cls (ex_desktop ex)
      <-> In cls pieces /\ startsWith cls (lit "lg:") = true)
  /\ ~ (In cls (ex_mobile ex) /\ In cls (ex_tablet ex))
  /\ ~ (In cls (ex_mobile ex) /\ In cls (ex_desktop ex))
  /\ ~ (In cls (ex_tablet ex) /\ In cls (ex_desktop ex))
  /\ (startsWith cls (lit "sm:") = true \/ startsWith cls (lit "xl:") = true ->
      ~ In cls (ex_mobile ex) /\ ~ In cls (ex_tablet ex)
      /\ ~ In cls (ex_desktop ex)).
Proof.
  intros ex pieces. subst ex pieces. unfold extractResponsiveClasses.
  cbn [ex_mobile ex_tablet ex_desktop].
  rewrite !filter_In, mobile_filter. unfold unprefixed.
  split; [apply splitFrom_noWhiteSpace; constructor|].
  assert (Hmd_lg : startsWith cls (lit "md:") = true ->
                   startsWith cls (lit "lg:") = true -> False)
    by (intros H1 H2; apply startsWith_first in H1 as [? ->];
        apply startsWith_first in H2 as [? [=]]).
  assert (Hsm_md : startsWith cls (lit "sm:") = true ->
                   startsWith cls (lit "md:") = true -> False)
    by (intros H1 H2; apply startsWith_first in H1 as [? ->];
        apply startsWith_first in H2 as [? [=]]).
  assert (Hsm_lg : startsWith cls (lit "sm:") = true ->
                   startsWith cls (lit "lg:") = true -> False)
    by (intros H1 H2; apply startsWith_first in H1 as [? ->];
        apply startsWith_first in H2 as [? [=]]).
  assert (Hxl_md : startsWith cls (lit "xl:") = true ->
                   startsWith cls (lit "md:") = true -> False)
    by (intros H1 H2; apply startsWith_first in H1 as [? ->];
        apply startsWith_first in H2 as [? [=]]).
  assert (Hxl_lg : startsWith cls (lit "xl:") = true ->
                   startsWith cls (lit "lg:") = true -> False)
    by (intros H1 H2; apply startsWith_first in H1 as [? ->];
        apply startsWith_first in H2 as [? [=]]).
  repeat split; try tauto; intuition congruence.
Qed.

(** X6.  [validateResponsiveClasses] accepts a class string exactly when
    one of its pieces has none of the four prefixes.  The empty piece is
    such a piece: the empty string, and every string that begins or ends
    with white space, is accepted whatever its classes. *)
Theorem validate_responsive_edge (classString : jsstring) :
  (isValid (validateResponsiveClasses classString) = true
   <-> exists cls, In cls (splitWhiteSpace classString) /\ unprefixed cls)
  /\ (classString = []
      \/ (exists c rest, classString = c :: rest /\ isWhiteSpace c = true)
      \/ (exists c front, classString = front ++ [c]
                          /\ isWhiteSpace c = true) ->
      isValid (validateResponsiveClasses classString) = true).
Proof.
  assert (Hiff : isValid (validateResponsiveClasses classString) = true
                 <-> exists cls, In cls (splitWhiteSpace classString)
                                 /\ unprefixed cls).
  { unfold validateResponsiveClasses, extractResponsiveClasses.
    cbn [isValid ex_mobile]. rewrite nonEmpty_In.
    split; intros (cls & H); exists cls;
      rewrite filter_In, mobile_filter in *; exact H. }
  split; [exact Hiff|]. intros Hedge. apply Hiff. exists [].
  split; [| repeat split].
  destruct Hedge as [-> | [(c & rest & -> & Hc) | (c & front & -> & Hc)]].
  - left. reflexivity.
  - unfold splitWhiteSpace. simpl. rewrite Hc. left. reflexivity.
  - apply splitFrom_trailing. exact Hc.
Qed.

(** The same class, with and without a leading space. *)
Example validate_md_flex :
  isValid (validateResponsiveClasses (lit "md:flex")) = false
  /\ isValid (validateResponsiveClasses (lit " md:flex")) = true.
Proof. split; reflexivity. Qed.

(** X7.  For a mobile class that has no white space and none of the
    prefixes [sm:], [md:], [lg:], [xl:], and optional tablet and desktop
    classes that have no white space, [extractResponsiveClasses] takes
    apart what [getResponsiveClass] builds: the lists are the mobile
    class, the tablet class under [md:] and the desktop class under
    [lg:], each optional class being left out when absent or empty. *)
Theorem responsive_round_trip (m : jsstring) (t d : option jsstring) :
  noWhiteSpace m -> unprefixed m ->
  (forall t', t = Some t' -> noWhiteSpace t') ->
  (forall d', d = Some d' -> noWhiteSpace d') ->
  extractResponsiveClasses (getResponsiveClass m t d)
  = {| ex_mobile := [m];
       ex_tablet :=
         match t with
         | Some t' => if truthy t' then [lit "md:" ++ t'] else []
         | None => []
         end;
       ex_desktop :=
         match d with
         | Some d' => if truthy d' then [lit "lg:" ++ d'] else []
         | None => []
         end |}.
Proof.
  intros Hm Hum Ht Hd.
  destruct Hum as (Hsm & Hmd & Hlg & Hxl).
  assert (Hpre : forall pre x, noWhiteSpace (lit pre) -> noWhiteSpace x ->
                               noWhiteSpace (lit pre ++ x)).
  { intros pre x Hp Hx. apply Forall_app. auto. }
  assert (Hmdp : noWhiteSpace (lit "md:")) by (repeat constructor).
  assert (Hlgp : noWhiteSpace (lit "lg:")) by (repeat constructor).
  unfold getResponsiveClass, extractResponsiveClasses.
  destruct t as [[|tc t']|], d as [[|dc d']|]; cbn [truthy app];
    rewrite split_join;
    repeat match goal with
      | |- Forall _ _ => constructor
      | |- noWhiteSpace (lit _ ++ _) => apply Hpre
      | |- noWhiteSpace (_ :: _) =>
          first [apply Ht; reflexivity | apply Hd; reflexivity]
      | |- _ <> [] => discriminate
      | |- noWhiteSpace m => exact Hm
      | |- noWhiteSpace (lit _) => assumption
      end;
    cbn [List.filter]; rewrite Hsm, Hmd, Hlg, Hxl; reflexivity.
Qed.

Lemma responsive_round_trip_witness :
  noWhiteSpace (lit "p-4") /\ unprefixed (lit "p-4")
  /\ extractResponsiveClasses
       (getResponsiveClass (lit "p-4") (Some (lit "p-6")) None)
     = {| ex_mobile := [lit "p-4"]; ex_tablet := [lit "md:p-6"];
          ex_desktop := [] |}.
Proof.
  assert (Hm : noWhiteSpace (lit "p-4")) by (repeat constructor).
  assert (Hu : unprefixed (lit "p-4")) by (repeat split).
  split; [exact Hm|]. split; [exact Hu|].
  apply (responsive_round_trip (lit "p-4") (Some (lit "p-6")) None Hm Hu).
  - intros t' [= <-]. repeat constructor.
  - discriminate.
Defined.

(** The conditions are needed: of a tablet class made of two classes the
    second comes back as a mobile class. *)
Example round_trip_two_classes :
  extractResponsiveClasses
    (getResponsiveClass (lit "p-4") (Some (lit "p-6 m-2")) None)
  = {| ex_mobile := [lit "p-4"; lit "m-2"]; ex_tablet := [lit "md:p-6"];
       ex_desktop := [] |}.
Proof. reflexivity. Qed.

End ResponsiveFacts.

(** ** [throttle] and [debounce] *)

Module TimerFacts.
Import Timers SpecMore.

Lemma fires_call {A} (events : list (Event A)) (args : A) :
  fires (Call args :: events) = fires events.
Proof. reflexivity. Qed.

Lemma fires_fire {A} (events : list (Event A)) :
  fires (@Fire A :: events) = S (fires events).
Proof. reflexivity. Qed.

(** Induction on what [func] does, through the calls it makes. *)
Lemma Invocation_induction {A} (P : Invocation A -> Prop) :
  (forall args during returns,
      Forall P during -> P (Invoke args during returns)) ->
  forall i, P i.
Proof.
  intros H. fix IH 1. intros [args during returns]. apply H.
  induction during as [|j during IHd]; constructor; [apply IH | exact IHd].
Qed.

Section Throttle.
Context {A : Type}.
Implicit Types (st : Throttled A) (events : list (ThrottleEvent A)).

Lemma throttleCall_eq (args : A) (during : list (Invocation A))
  (returns : bool) st :
  throttleCall (Invoke args during returns) st
  = if negb (inThrottle st) then
      let st' :=
        fold_left (fun st j => throttleCall j st) during
          {| inThrottle := inThrottle st; th_timers := th_timers st;
             th_invoked := th_invoked st ++ [args] |} in
      if returns then
        {| inThrottle := true; th_timers := S (th_timers st');
           th_invoked := th_invoked st' |}
      else st'
    else st.
Proof. reflexivity. Qed.

Lemma throttleRun_app events events' :
  throttleRun (events ++ events')
  = fold_left throttleStep events' (throttleRun events).
Proof. unfold throttleRun. apply fold_left_app. Qed.

(** A call made while the function waits does nothing, whatever [func]
    would have done. *)
Lemma throttleCall_waiting (i : Invocation A) st :
  inThrottle st = true -> throttleCall i st = st.
Proof. intros Hin. destruct i. rewrite throttleCall_eq, Hin. reflexivity. Qed.

Lemma throttle_dropped (more : list (Invocation A)) st :
  inThrottle st = true ->
  fold_left throttleStep (map TCall more) st = st.
Proof.
  intros Hin. induction more as [|i more IH]; simpl; [reflexivity|].
  rewrite throttleCall_waiting by exact Hin. exact IH.
Qed.

Lemma during_adds (during : list (Invocation A)) :
  Forall callAdds during ->
  forall st,
    willWake st ->
    willWake (fold_left (fun st j => throttleCall j st) during st)
    /\ exists extra,
         th_invoked (fold_left (fun st j => throttleCall j st) during st)
         = th_invoked st ++ extra
         /\ sublist extra (flat_map invocationArgs during).
Proof.
  induction 1 as [|j during Hj _ IH]; intros st Hst.
  - split; [exact Hst|]. exists []. rewrite app_nil_r.
    split; [reflexivity | constructor].
  - destruct (Hj st Hst) as (Hst1 & e1 & He1 & Hs1).
    destruct (IH _ Hst1) as (Hst2 & e2 & He2 & Hs2).
    cbn [fold_left flat_map]. split; [exact Hst2|].
    exists (e1 ++ e2). rewrite He2, He1, <- app_assoc.
    split; [reflexivity | apply sublist_app; assumption].
Qed.

Lemma throttleCall_adds (i : Invocation A) : callAdds i.
Proof.
  induction i as [args during returns IH] using Invocation_induction.
  intros st Hst. rewrite throttleCall_eq.
  destruct (inThrottle st) eqn:Hin; cbn [negb].
  - split; [exact Hst|]. exists []. rewrite app_nil_r.
    split; [reflexivity | apply sublist_nil_l].
  - cbv zeta.
    destruct (during_adds during IH
                {| inThrottle := false; th_timers := th_timers st;
                   th_invoked := th_invoked st ++ [args] |})
      as (Hw & extra & He & Hs); [intros [=]|].
    cbn [th_invoked] in He.
    assert (Hadd : forall st',
               th_invoked st'
               = th_invoked
                   (fold_left (fun st j => throttleCall j st) during
                      {| inThrottle := false; th_timers := th_timers st;
                         th_invoked := th_invoked st ++ [args] |}) ->
               exists extra',
                 th_invoked st' = th_invoked st ++ extra'
                 /\ sublist extra' (invocationArgs (Invoke args during returns))).
    { intros st' ->. exists (args :: extra). rewrite He, <- app_assoc.
      split; [reflexivity|]. simpl. apply sublist_skip, Hs. }
    destruct returns.
    + split; [intros _; discriminate | apply Hadd; reflexivity].
    + split; [exact Hw | apply Hadd; reflexivity].
Qed.

Lemma throttleStep_adds (e : ThrottleEvent A) st :
  willWake st ->
  willWake (throttleStep st e)
  /\ exists extra,
       th_invoked (throttleStep st e) = th_invoked st ++ extra
       /\ sublist extra (calledArgs [e]).
Proof.
  intros Hst. destruct e as [i|].
  - destruct (throttleCall_adds i st Hst) as (Hw & extra & He & Hs).
    split; [exact Hw|]. exists extra. split; [exact He|].
    unfold calledArgs. simpl. rewrite app_nil_r. exact Hs.
  - cbn [throttleStep]. destruct (th_timers st) as [|n] eqn:Ht.
    + split; [exact Hst|]. exists []. rewrite app_nil_r.
      split; [reflexivity | constructor].
    + split; [intros [=]|]. exists []. cbn [th_invoked].
      rewrite app_nil_r. split; [reflexivity | constructor].
Qed.

Lemma calledArgs_cons (e : ThrottleEvent A) events :
  calledArgs (e :: events) = calledArgs [e] ++ calledArgs events.
Proof. unfold calledArgs. simpl. rewrite app_nil_r. reflexivity. Qed.

Lemma throttle_run_adds events st :
  willWake st ->
  willWake (fold_left throttleStep events st)
  /\ exists extra,
       th_invoked (fold_left throttleStep events st) = th_invoked st ++ extra
       /\ sublist extra (calledArgs events).
Proof.
  revert st. induction events as [|e events IH]; intros st Hst.
  - split; [exact Hst|]. exists []. rewrite app_nil_r.
    split; [reflexivity | constructor].
  - destruct (throttleStep_adds e st Hst) as (Hst1 & e1 & He1 & Hs1).
    destruct (IH _ Hst1) as (Hst2 & e2 & He2 & Hs2).
    cbn [fold_left]. split; [exact Hst2|].
    exists (e1 ++ e2). rewrite He2, He1, <- app_assoc, calledArgs_cons.
    split; [reflexivity | apply sublist_app; assumption].
Qed.

Lemma throttleRun_willWake events : willWake (throttleRun events).
Proof. apply throttle_run_adds. intros [=]. Qed.

(** *** A [func] that returns and does not call back *)

Lemma plainCall_step (args : A) st :
  throttleStep st (plainCall args)
  = if negb (inThrottle st) then
      {| inThrottle := true; th_timers := S (th_timers st);
         th_invoked := th_invoked st ++ [args] |}
    else st.
Proof. reflexivity. Qed.

Lemma firings_call (i : Invocation A) events :
  firings (TCall i :: events) = firings events.
Proof. reflexivity. Qed.

Lemma firings_fire events : firings (@TFire A :: events) = S (firings events).
Proof. reflexivity. Qed.

Lemma throttleOk_step st (e : ThrottleEvent A) :
  e = TFire \/ (exists args, e = plainCall args) ->
  throttleOk st -> throttleOk (throttleStep st e).
Proof.
  intros [-> | (args & ->)] [[Hf Ht] | [Hf Ht]];
    rewrite ?plainCall_step; unfold throttleOk; cbn [throttleStep];
    rewrite ?Hf, ?Ht; simpl; auto.
Qed.

(** What a run of such events adds to the calls of [func]: at most one
    per timer firing, and one more if it started idle. *)
Lemma throttle_invoked_from events st :
  wellBehaved events -> throttleOk st ->
  throttleOk (fold_left throttleStep events st)
  /\ (length (th_invoked (fold_left throttleStep events st))
      <= length (th_invoked st) + firings events
         + if inThrottle st then 0 else 1)%nat.
Proof.
  intros Hwb. revert st.
  induction Hwb as [|e events He _ IH]; intros st Hst.
  - simpl. split; [exact Hst | lia].
  - pose proof (throttleOk_step st e He Hst) as Hst'.
    destruct (IH _ Hst') as (Hok & Hlen).
    cbn [fold_left]. split; [exact Hok|].
    destruct He as [-> | (args & ->)].
    + rewrite firings_fire. cbn [throttleStep] in *.
      destruct Hst as [[Hf Ht] | [Hf Ht]]; rewrite Ht in *; rewrite Hf;
        cbn [th_invoked inThrottle] in *; rewrite ?Hf in *; lia.
    + unfold plainCall at 2. rewrite firings_call.
      rewrite plainCall_step in *. destruct (inThrottle st) eqn:Hin;
        cbn [negb th_invoked inThrottle] in *.
      * rewrite Hin in Hlen. lia.
      * rewrite length_app in Hlen. simpl in Hlen. lia.
Qed.

(** X8.  The throttled function calls [func] on a call that finds it
    idle, and once [func] has returned it sets the timer and drops every
    call until a timer fires.  A [func] that throws is not throttled: the
    next call reaches it again and no timer is set.  A [func] that calls
    the throttled function while it runs is called a second time, and two
    timers are set.  After a timer has fired the function is idle.  The
    calls of [func] are some of the calls made, in order; with a [func]
    that returns and does not call back, they are at most one more than
    the timer firings, and the function is idle with no timer or waiting
    with exactly one. *)
Theorem throttle_spec (events : list (ThrottleEvent A)) (a b : A)
  (more : list (Invocation A)) :
  let st := throttleRun events in
  (inThrottle st = false ->
   throttleRun (events ++ [plainCall a])
   = {| inThrottle := true; th_timers := S (th_timers st);
        th_invoked := th_invoked st ++ [a] |})
  /\ (inThrottle st = true -> throttleRun (events ++ map TCall more) = st)
  /\ (inThrottle st = false ->
      throttleRun
        (events ++ [TCall (Invoke a [] false); TCall (Invoke b [] false)])
      = {| inThrottle := false; th_timers := th_timers st;
           th_invoked := th_invoked st ++ [a; b] |})
  /\ (inThrottle st = false ->
      throttleRun (events ++ [TCall (Invoke a [Invoke b [] true] true)])
      = {| inThrottle := true; th_timers := S (S (th_timers st));
           th_invoked := th_invoked st ++ [a; b] |})
  /\ inThrottle (throttleRun (events ++ [TFire])) = false
  /\ sublist (th_invoked st) (calledArgs events)
  /\ (wellBehaved events ->
      throttleOk st
      /\ (length (th_invoked st) <= S (firings events))%nat).
Proof.
  intros st. subst st.
  split; [| split; [| split; [| split; [| split; [| split]]]]].
  - intros Hin. rewrite throttleRun_app. cbn [fold_left].
    rewrite plainCall_step, Hin. reflexivity.
  - intros Hin. rewrite throttleRun_app. apply throttle_dropped, Hin.
  - intros Hin. rewrite throttleRun_app. cbn [fold_left throttleStep].
    rewrite !throttleCall_eq. cbn [fold_left inThrottle].
    rewrite Hin. cbn [negb inThrottle th_timers th_invoked].
    rewrite <- app_assoc. reflexivity.
  - intros Hin. rewrite throttleRun_app. cbn [fold_left throttleStep].
    rewrite throttleCall_eq, Hin. cbn [negb fold_left].
    rewrite throttleCall_eq. cbn [negb inThrottle fold_left th_timers
                                    th_invoked].
    rewrite <- app_assoc. reflexivity.
  - rewrite throttleRun_app. cbn [fold_left throttleStep].
    pose proof (throttleRun_willWake events) as Hw.
    destruct (th_timers (throttleRun events)) eqn:Ht; [| reflexivity].
    destruct (inThrottle (throttleRun events)) eqn:Hin; [| reflexivity].
    exfalso. apply Hw; [exact Hin | exact Ht].
  - destruct (throttle_run_adds events throttle) as (_ & extra & He & Hs);
      [intros [=]|].
    unfold throttleRun. rewrite He. exact Hs.
  - intros Hwb.
    destruct (throttle_invoked_from events throttle Hwb) as (Hok & Hlen);
      [left; split; reflexivity|].
    split; [exact Hok|]. unfold throttleRun. simpl in Hlen. lia.
Qed.

End Throttle.

Section Debounce.
Context {A : Type}.
Implicit Types (st : Debounced A) (events : list (Event A)).

Lemma debounceRun_app events events' :
  debounceRun (events ++ events')
  = fold_left debounceStep events' (debounceRun events).
Proof. unfold debounceRun. apply fold_left_app. Qed.

Lemma debounce_calls (calls : list A) (a : A) st :
  fold_left debounceStep (map Call calls ++ [Call a]) st
  = {| db_pending := Some a; db_invoked := db_invoked st |}.
Proof.
  revert st. induction calls as [|c calls IH]; intros st; simpl;
    [reflexivity|].
  rewrite IH. reflexivity.
Qed.

Lemma debounce_invoked_from events st :
  exists extra,
    db_invoked (fold_left debounceStep events st) = db_invoked st ++ extra
    /\ sublist extra (pendingArgs st ++ callArgs events)
    /\ (length extra <= fires events)%nat.
Proof.
  revert st. induction events as [|e events IH]; intros st.
  - exists []. simpl. rewrite app_nil_r.
    repeat split; [apply sublist_nil_l | lia].
  - destruct (IH (debounceStep st e)) as (extra & Heq & Hsub & Hlen).
    cbn [fold_left]. rewrite Heq. clear Heq.
    destruct e as [args|].
    + rewrite fires_call. change (callArgs (Call args :: events))
        with (args :: callArgs events).
      exists extra. cbn [debounceStep db_invoked] in *.
      repeat split; [| exact Hlen].
      unfold pendingArgs in *. cbn [db_pending] in Hsub.
      destruct (db_pending st); [apply sublist_cons|]; exact Hsub.
    + rewrite fires_fire. change (callArgs (@Fire A :: events))
        with (callArgs events).
      unfold pendingArgs in *. cbn [debounceStep] in *.
      destruct (db_pending st) as [p|] eqn:Hp;
        cbn [db_invoked db_pending] in *.
      * exists (p :: extra). rewrite <- app_assoc.
        repeat split; [apply sublist_skip, Hsub | simpl; lia].
      * rewrite Hp in Hsub. exists extra. repeat split; [exact Hsub | lia].
Qed.

(** X9.  The debounced function calls [func] only when the timer fires,
    with the arguments of the last call before it: a burst of calls
    followed by one firing makes one call of [func], a second firing
    makes none.  The calls of [func] are some of the calls made, in
    order, and no more than the timer firings. *)
Theorem debounce_spec (events : list (Event A)) (calls : list A) (a : A) :
  db_invoked (debounceRun (events ++ map Call calls ++ [Call a; Fire]))
  = db_invoked (debounceRun events) ++ [a]
  /\ db_invoked
       (debounceRun (events ++ map Call calls ++ [Call a; Fire; Fire]))
     = db_invoked (debounceRun events) ++ [a]
  /\ db_invoked (debounceRun (events ++ map Call calls ++ [Call a]))
     = db_invoked (debounceRun events)
  /\ sublist (db_invoked (debounceRun events)) (callArgs events)
  /\ (length (db_invoked (debounceRun events)) <= fires events)%nat.
Proof.
  assert (Hsplit : forall tail : list (Event A),
             map Call calls ++ Call a :: tail
             = (map Call calls ++ [Call a]) ++ tail)
    by (intros tail; rewrite <- app_assoc; reflexivity).
  split; [| split; [| split]].
  - rewrite debounceRun_app, Hsplit, fold_left_app, debounce_calls.
    reflexivity.
  - rewrite debounceRun_app, Hsplit, fold_left_app, debounce_calls.
    reflexivity.
  - rewrite debounceRun_app, debounce_calls. reflexivity.
  - destruct (debounce_invoked_from events debounce)
      as (extra & Heq & Hsub & Hlen).
    unfold debounceRun. rewrite Heq. simpl in *. split; [exact Hsub | lia].
Qed.

End Debounce.

(** Calls 2 and 4 arrive while the throttled function waits; the
    debounced one answers the burst 1, 2 with 2 and leaves 3 pending. *)
Example throttle_trace :
  th_invoked
    (throttleRun [plainCall 1; plainCall 2; TFire; plainCall 3; plainCall 4])
  = [1; 3].
Proof. reflexivity. Qed.

Example debounce_trace :
  db_invoked (debounceRun [Call 1; Call 2; Fire; Fire; Call 3]) = [2].
Proof. reflexivity. Qed.

End TimerFacts.

(** ** The quality hooks under [setQuality] *)

Module QualityHooksFacts.
Import Performance Hooks QualityHooks HooksFacts.






End QualityHooksFacts.

(** ** The theme provider *)

Module ThemeFacts.
Import JS ThemeContext SpecMore.

Lemma str_eqb_true (a b : jsstring) : str_eqb a b = true <-> a = b.
Proof. unfold str_eqb. apply bool_decide_eq_true. Qed.






(** Before mounting the second effect touches nothing. *)
Lemma syncEffect_unmounted (st : ThemeState) (b : Browser) :
  mounted st = false -> syncEffect st b = Normal b.
Proof. intros Hm. unfold syncEffect. rewrite Hm. reflexivity. Qed.

(** X12.  [toggleTheme] always lands on [light] or [dark]: it swaps the
    two, so that toggling twice restores the theme, and it turns any
    other stored value into [dark], which toggling twice does not
    restore. *)
Theorem toggle_theme (st : ThemeState) :
  (theme (toggleTheme st) = light \/ theme (toggleTheme st) = dark)
  /\ (theme st = light \/ theme st = dark ->
      toggleTheme (toggleTheme st) = st)
  /\ (theme st <> light -> theme st <> dark ->
      theme (toggleTheme st) = dark
      /\ theme (toggleTheme (toggleTheme st)) = light)
  /\ mounted (toggleTheme st) = mounted st.
Proof.
  destruct st as [t m]. unfold toggleTheme. cbn [theme mounted].
  destruct (str_eqb t dark) eqn:Ht.
  - apply str_eqb_true in Ht. subst t.
    repeat split; auto; try congruence.
  - assert (Hne : t <> dark)
      by (intros ->; unfold str_eqb in Ht;
          rewrite bool_decide_eq_true_2 in Ht; congruence).
    repeat split; auto.
    intros [-> | ->]; [reflexivity | congruence].
Qed.

End ThemeFacts.

(** ** The contact form component *)

Module FormFacts.
Import JS Validation ContactFormUI Spec SpecMore ValidationFacts.

Lemma fieldName_inj (f g : Field) : fieldName f = fieldName g -> f = g.
Proof. destruct f, g; simpl; congruence. Qed.

(** The validator judges each field on its own. *)
Lemma fieldError_name (d : ContactFormData) :
  fieldError d fName
  = if 2 <=? strlen (trim (name d)) then None else Some name_error.
Proof.
  unfold fieldError. rewrite validateContactForm_errors. apply errorsFor_name.
Qed.

Lemma fieldError_email (d : ContactFormData) :
  fieldError d fEmail
  = if test_anchored emailRegex (email d) then None else Some email_error.
Proof.
  unfold fieldError. rewrite validateContactForm_errors. apply errorsFor_email.
Qed.

Lemma fieldError_message (d : ContactFormData) :
  fieldError d fMessage
  = if 10 <=? strlen (trim (message d)) then None else Some message_error.
Proof.
  unfold fieldError. rewrite validateContactForm_errors.
  apply errorsFor_message.
Qed.

Lemma fieldError_other (f g : Field) (value : jsstring)
  (d : ContactFormData) :
  f <> g -> fieldError (setField f value d) g = fieldError d g.
Proof.
  intros Hne.
  destruct g; rewrite ?fieldError_name, ?fieldError_email,
    ?fieldError_message; destruct f; simpl; congruence.
Qed.

(** An error of the validator is a non-empty message. *)
Lemma fieldError_truthy (d : ContactFormData) (f : Field) (e : string) :
  fieldError d f = Some e -> truthyError (Some e) = true.
Proof.
  destruct f; rewrite ?fieldError_name, ?fieldError_email,
    ?fieldError_message;
    match goal with |- context [if ?b then _ else _] => destruct b end;
    intros [= <-]; reflexivity.
Qed.

Lemma isValid_passes (d : ContactFormData) :
  isValid (validateContactForm d) = true <-> passes d.
Proof.
  rewrite validateContactForm_isValid, validateContactForm_errors.
  rewrite errorsFor_size, !andb_true_iff, !Z.leb_le.
  unfold passes, nameOk, emailOk, messageOk. tauto.
Qed.

(** When the data passes, the validator has no error for any field. *)
Lemma passes_no_error (d : ContactFormData) (f : Field) :
  isValid (validateContactForm d) = true -> fieldError d f = None.
Proof.
  rewrite validateContactForm_isValid, validateContactForm_errors.
  rewrite errorsFor_size, !andb_true_iff.
  intros [[Hn He] Hm].
  destruct f; rewrite ?fieldError_name, ?fieldError_email,
    ?fieldError_message, ?Hn, ?He, ?Hm; reflexivity.
Qed.

Lemma errorOf_ofResult (d : ContactFormData) (f : Field) :
  errorOf (fv_errors (ofResult (validateContactForm d))) f = fieldError d f.
Proof.
  unfold errorOf, ofResult, fieldError. cbn [fv_errors].
  rewrite lookup_fmap. destruct (errors (validateContactForm d) !! fieldName f);
    reflexivity.
Qed.

Lemma errorOf_insert_eq (errs : gmap string (option string)) (f : Field)
  (e : option string) :
  errorOf (<[fieldName f := e]> errs) f = e.
Proof. unfold errorOf. rewrite lookup_insert_eq. reflexivity. Qed.

Lemma errorOf_insert_ne (errs : gmap string (option string)) (f g : Field)
  (e : option string) :
  f <> g -> errorOf (<[fieldName f := e]> errs) g = errorOf errs g.
Proof.
  intros Hne. unfold errorOf. rewrite lookup_insert_ne; [reflexivity|].
  intros H. apply Hne, fieldName_inj, H.
Qed.

Lemma Field_cases (f g : Field) : f = g \/ f <> g.
Proof. destruct f, g; auto; right; discriminate. Qed.

Lemma fresh_initial : fresh initial.
Proof. intros f e. unfold errorOf. simpl. rewrite lookup_empty. discriminate. Qed.

Lemma fresh_change (f : Field) (value : jsstring) (st : FormState) :
  fresh st -> fresh (handleChange f value st).
Proof.
  intros Hst g e. unfold handleChange. cbn [validation formData].
  destruct (Field_cases f g) as [<- | Hne].
  - destruct (truthyError (errorOf (fv_errors (validation st)) f)) eqn:Ht;
      cbn [fv_errors].
    + rewrite errorOf_insert_eq. discriminate.
    + intros He. pose proof (Hst f e He) as Hv.
      apply fieldError_truthy in Hv. rewrite He in Ht. congruence.
  - rewrite fieldError_other by exact Hne.
    destruct (truthyError (errorOf (fv_errors (validation st)) f));
      cbn [fv_errors]; [rewrite errorOf_insert_ne by exact Hne|];
      apply Hst.
Qed.

Lemma fresh_blur (f : Field) (st : FormState) :
  fresh st -> fresh (handleBlur f st).
Proof.
  intros Hst g e. unfold handleBlur. cbn [validation formData].
  fold (fieldError (formData st) f).
  destruct (truthyError (fieldError (formData st) f)); cbn [fv_errors];
    [| apply Hst].
  destruct (Field_cases f g) as [<- | Hne].
  - rewrite errorOf_insert_eq. auto.
  - rewrite errorOf_insert_ne by exact Hne. apply Hst.
Qed.

Lemma fresh_submit
  (onSubmit : option (ContactFormData -> completion unit)) (st : FormState) :
  fresh (fst (handleSubmit onSubmit st)).
Proof.
  unfold handleSubmit.
  destruct (isValid (validateContactForm (formData st))) eqn:Hv; cbn [negb].
  - destruct (match onSubmit with
              | Some send => send (formData st)
              | None => Normal tt
              end); cbn [fst]; intros f e; cbn [validation formData];
      rewrite errorOf_ofResult, (passes_no_error _ f Hv); discriminate.
  - cbn [fst]. intros f e. cbn [validation formData].
    rewrite errorOf_ofResult. auto.
Qed.

Lemma formRun_snoc
  (onSubmit : option (ContactFormData -> completion unit))
  (events : list FormEvent) (e : FormEvent) :
  formRun onSubmit (events ++ [e])
  = formStep onSubmit (formRun onSubmit events) e.
Proof. unfold formRun. rewrite fold_left_app. reflexivity. Qed.

(** X13.  Whatever the visitor does, an error the form shows for a field
    is the one the validator gives for the data as it is now: typing in a
    field clears its error and leaves the others, which still apply. *)
Theorem form_errors_fresh
  (onSubmit : option (ContactFormData -> completion unit))
  (events : list FormEvent) (f : Field) (e : string) :
  let st := fst (formRun onSubmit events) in
  getFieldError st f = Some e -> fieldError (formData st) f = Some e.
Proof.
  intros st. subst st.
  assert (Hfresh : fresh (fst (formRun onSubmit events))).
  { induction events as [|ev events IH] using rev_ind;
      [apply fresh_initial|].
    rewrite formRun_snoc. destruct (formRun onSubmit events) as [st log].
    cbn [fst] in IH. destruct ev as [g value | g |]; cbn [formStep fst].
    - apply fresh_change, IH.
    - apply fresh_blur, IH.
    - pose proof (fresh_submit onSubmit st) as Hs.
      destruct (handleSubmit onSubmit st) as [st' sent]. exact Hs. }
  unfold getFieldError.
  destruct (touched (fst (formRun onSubmit events)) !! fieldName f)
    as [[|]|]; try discriminate.
  apply Hfresh.
Qed.

(** X14.  Only data that passes the three checks is ever handed to
    [onSubmit]. *)
Theorem form_sends_valid_only
  (onSubmit : option (ContactFormData -> completion unit))
  (events : list FormEvent) (d : ContactFormData) :
  In d (snd (formRun onSubmit events)) -> passes d.
Proof.
  revert d. induction events as [|ev events IH] using rev_ind;
    intros d; [intros []|].
  rewrite formRun_snoc. destruct (formRun onSubmit events) as [st log].
  cbn [snd] in IH. destruct ev as [g value | g |]; cbn [formStep snd];
    try apply IH.
  destruct (handleSubmit onSubmit st) as [st' sent] eqn:Hs. cbn [snd].
  destruct sent as [d'|]; [| apply IH].
  intros Hin. apply in_app_or in Hin as [Hin | [<- | []]]; [apply IH, Hin|].
  unfold handleSubmit in Hs.
  destruct (isValid (validateContactForm (formData st))) eqn:Hv;
    cbn [negb] in Hs; [| congruence].
  apply isValid_passes.
  destruct onSubmit as [send|];
    [| destruct (Normal tt : completion unit); congruence].
  destruct (send (formData st)); injection Hs as _ <-; exact Hv.
Qed.

Lemma form_errors_fresh_witness :
  let st := fst (formRun SamplesMore.delivers (firstn 2 SamplesMore.session)) in
  getFieldError st fName = Some name_error
  /\ fieldError (formData st) fName = Some name_error.
Proof.
  assert (H : getFieldError
                (fst (formRun SamplesMore.delivers
                        (firstn 2 SamplesMore.session))) fName
              = Some name_error) by (vm_compute; reflexivity).
  split; [exact H|].
  exact (form_errors_fresh SamplesMore.delivers (firstn 2 SamplesMore.session)
           fName name_error H).
Defined.

(** The sample session: the first submission is held back, the second
    goes out. *)
Example session_log :
  snd (formRun SamplesMore.delivers SamplesMore.session) = [SamplesMore.alice].
Proof. vm_compute. reflexivity. Qed.

Lemma form_sends_valid_only_witness :
  In SamplesMore.alice (snd (formRun SamplesMore.delivers SamplesMore.session))
  /\ passes SamplesMore.alice.
Proof.
  assert (H : In SamplesMore.alice
                (snd (formRun SamplesMore.delivers SamplesMore.session)))
    by (rewrite session_log; left; reflexivity).
  split; [exact H|].
  exact (form_sends_valid_only SamplesMore.delivers SamplesMore.session
           SamplesMore.alice H).
Defined.

Lemma getFieldError_allTouched (st : FormState) (f : Field) :
  touched st = allTouched ->
  getFieldError st f = errorOf (fv_errors (validation st)) f.
Proof.
  intros Ht. unfold getFieldError. rewrite Ht. destruct f; reflexivity.
Qed.

(** X15.  A submission of data that fails a check goes nowhere: the data
    and the status stay, and every field shows exactly what the validator
    says of it.  A submission of data that passes shows no error.
    Without [onSubmit] nothing is sent and the form is emptied with status
    [success]; with one, the data is handed to it, and the form is emptied
    with status [success] when it resolves, and keeps the data with
    status [error] when it rejects. *)
Theorem submit_feedback
  (onSubmit : option (ContactFormData -> completion unit)) (st : FormState) :
  let st' := fst (handleSubmit onSubmit st) in
  let sent := snd (handleSubmit onSubmit st) in
  (~ passes (formData st) ->
   sent = None /\ formData st' = formData st /\ status st' = status st
   /\ forall f, getFieldError st' f = fieldError (formData st) f)
  /\ (passes (formData st) ->
      (forall f, getFieldError st' f = None)
      /\ (onSubmit = None ->
          sent = None /\ status st' = success /\ formData st' = emptyData)
      /\ (forall send, onSubmit = Some send ->
            sent = Some (formData st)
            /\ (forall done, send (formData st) = Normal done ->
                  status st' = success /\ formData st' = emptyData)
            /\ (send (formData st) = Throw ->
                status st' = error /\ formData st' = formData st))).
Proof.
  intros st' sent. subst st' sent. rewrite <- isValid_passes.
  unfold handleSubmit.
  destruct (isValid (validateContactForm (formData st))) eqn:Hv; cbn [negb].
  - split; [congruence|]. intros _.
    destruct onSubmit as [send|].
    + destruct (send (formData st)) eqn:Hsend; cbn [fst snd];
        (split; [| split; [discriminate|]]).
      * intros f. reflexivity.
      * intros send' [= <-]. rewrite Hsend.
        split; [reflexivity|]. split; [auto | discriminate].
      * intros f. rewrite getFieldError_allTouched by reflexivity.
        cbn [validation]. rewrite errorOf_ofResult.
        apply passes_no_error, Hv.
      * intros send' [= <-]. rewrite Hsend.
        split; [reflexivity|]. split; [discriminate | auto].
    + cbn [fst snd]. split; [intros f; reflexivity|].
      split; [auto | discriminate].
  - split; [| congruence]. intros _. cbn [fst snd].
    repeat split. intros f.
    rewrite getFieldError_allTouched by reflexivity.
    cbn [validation]. apply errorOf_ofResult.
Qed.

End FormFacts.

(** ** More on the streaks *)

Module StreakMoreFacts.
Import JS Http Spec ArrayFacts StringFacts HandlerFacts StreakFacts.
Import GitHub.

Lemma currentStreakLoop_shift (today : jsstring)
  (backwards : list Contribution) (tempStreak k : Z) :
  currentStreakLoop today backwards (tempStreak + k)
  = currentStreakLoop today backwards tempStreak + k.
Proof.
  revert tempStreak.
  induction backwards as [|c rest IH]; intros tempStreak; simpl;
    [reflexivity|].
  destruct (count c >? 0).
  - rewrite <- IH. f_equal. lia.
  - destruct (negb (str_eqb (date c) today)); [reflexivity | apply IH].
Qed.

(** X16.  How the current streak moves with one more day at the end of
    the list: a day with contributions extends it by one, a day without
    that is today leaves it as it was, and any other day without
    contributions resets it to 0. *)
Theorem currentStreak_next_day (today : jsstring) (v : list Contribution)
  (c : Contribution) :
  computeCurrentStreak today (v ++ [c])
  = if count c >? 0 then computeCurrentStreak today v + 1
    else if str_eqb (date c) today then computeCurrentStreak today v
    else 0.
Proof.
  unfold computeCurrentStreak. rewrite rev_app_distr. simpl.
  destruct (count c >? 0).
  - apply (currentStreakLoop_shift today (rev v) 0 1).
  - destruct (str_eqb (date c) today); reflexivity.
Qed.

Lemma In_singleton_run (v : list Contribution) (c : Contribution) :
  In c v -> active c -> activeRun v [c].
Proof.
  intros Hin Hc. apply in_split in Hin as (pre & post & ->).
  exists pre, post. split; [reflexivity|]. constructor; [exact Hc | constructor].
Qed.

Lemma activeRun_incl (v r : list Contribution) :
  activeRun v r -> incl r v.
Proof.
  intros (pre & post & -> & _) x Hx.
  apply in_or_app. right. apply in_or_app. left. exact Hx.
Qed.

(** X17.  The longest streak is 0 exactly when no entry of the list has
    contributions, and when every entry has, both streaks are the number
    of entries. *)
Theorem streak_extremes (today : jsstring) (v : list Contribution) :
  (computeLongestStreak v = 0 <-> Forall (fun c => ~ active c) v)
  /\ (Forall active v ->
      computeLongestStreak v = Z.of_nat (length v)
      /\ computeCurrentStreak today v = Z.of_nat (length v)).
Proof.
  destruct (computeLongestStreak_longestRun v) as [(r & Hr & Hlen) Hmax].
  split; [split|].
  - intros Hzero. apply List.Forall_forall. intros c Hin Hc.
    pose proof (Hmax [c] (In_singleton_run v c Hin Hc)) as Hle.
    simpl in Hle. lia.
  - intros Hnone. rewrite <- Hlen.
    destruct r as [|c r]; [reflexivity|]. exfalso.
    rewrite List.Forall_forall in Hnone. apply (Hnone c).
    + apply (activeRun_incl v (c :: r) Hr). left. reflexivity.
    + destruct Hr as (_ & _ & _ & Hact). apply Forall_inv in Hact. exact Hact.
  - intros Hall. split.
    + apply Z.le_antisymm.
      * apply longestRun_length. split; [eauto | exact Hmax].
      * apply Hmax. exists [], []. rewrite app_nil_r. auto.
    + destruct (computeCurrentStreak_trailingScan today v)
        as (pre & suf & Hv & _ & Hpre & ->).
      destruct Hpre as [-> | (pre' & c & -> & Hc & _)].
      * simpl in Hv. subst suf. rewrite filter_activeb_all by exact Hall.
        reflexivity.
      * exfalso. apply Hc. rewrite List.Forall_forall in Hall.
        apply Hall. rewrite Hv. apply in_or_app. left.
        apply in_or_app. right. left. reflexivity.
Qed.

(** *** The order of the list *)

Lemma filter_perm {A} (p : A -> bool) (l l' : list A) :
  Permutation l l' -> Permutation (List.filter p l) (List.filter p l').
Proof.
  induction 1 as [| x l l' _ IH | x y l | l l' l'' _ IH1 _ IH2]; simpl.
  - reflexivity.
  - destruct (p x); [constructor|]; exact IH.
  - destruct (p x), (p y); try reflexivity. apply perm_swap.
  - etransitivity; eassumption.
Qed.

Lemma NoDup_map_inj {A B} (g : A -> B) (l : list A) (x y : A) :
  NoDup (map g l) -> In x l -> In y l -> g x = g y -> x = y.
Proof.
  induction l as [|a l IH]; simpl; [tauto|].
  rewrite NoDup_cons, list_elem_of_In, in_map_iff.
  intros [Ha Hl] [-> | Hx] [-> | Hy] Heq; auto.
  - exfalso. apply Ha. eauto.
  - exfalso. apply Ha. eauto.
Qed.

(** With distinct dates that the collation orders as [<=] does, the list
    the handler works on does not depend on the order in which the
    service lists the days. *)
Lemma validContribs_perm (w : World) (cs cs' : list Contribution) :
  Permutation cs cs' -> NoDup (map date cs) ->
  collatesByCodeUnit w (map date cs) ->
  validContribs w cs = validContribs w cs'.
Proof.
  intros Hperm Hnd Hcol.
  assert (Hcol' : collatesByCodeUnit w (map date cs')).
  { intros a b Ha Hb. apply Hcol;
      eapply Permutation_in; try eassumption;
      apply Permutation_map, Permutation_sym, Hperm. }
  rewrite !validContribs_sort.
  apply StronglySorted_unique_strong with (R := byDate w).
  - intros x y Hx Hy Hxy Hyx.
    apply list_elem_of_In, sort_In, upToToday_In in Hx as [Hx _].
    apply list_elem_of_In, sort_In, upToToday_In in Hy as [Hy _].
    apply (Permutation_in _ (Permutation_sym Hperm)) in Hy.
    apply (NoDup_map_inj date cs); auto.
    apply str_leb_antisym; apply Hcol; auto using in_map.
  - apply sort_sorted, collates_consistent, Hcol.
  - apply sort_sorted, collates_consistent, Hcol'.
  - rewrite !sort_perm. apply filter_perm, Hperm.
Qed.

(** X18.  With pairwise-distinct dates that the collation orders as [<=]
    does, the three contribution figures do not depend on the order in
    which the service lists the days. *)
Theorem contribStats_order (w : World) (total : option (list (jsstring * Z)))
  (cs cs' : list Contribution) :
  Permutation cs cs' -> NoDup (map date cs) ->
  collatesByCodeUnit w (map date cs) ->
  contribStatsOf w {| total := total; contributions := Some cs |}
  = contribStatsOf w {| total := total; contributions := Some cs' |}.
Proof.
  intros Hperm Hnd Hcol. unfold contribStatsOf. cbn [GitHub.total contributions].
  rewrite (validContribs_perm w cs cs' Hperm Hnd Hcol). reflexivity.
Qed.

Lemma contribStats_order_witness :
  Permutation Samples.someContributions (rev Samples.someContributions)
  /\ contribStatsOf Samples.healthy Samples.someYears
     = contribStatsOf Samples.healthy
         {| total := total Samples.someYears;
            contributions := Some (rev Samples.someContributions) |}.
Proof.
  assert (Hperm : Permutation Samples.someContributions
                    (rev Samples.someContributions))
    by apply Permutation_rev.
  split; [exact Hperm|].
  exact (contribStats_order Samples.healthy (total Samples.someYears)
           Samples.someContributions (rev Samples.someContributions)
           Hperm someContributions_distinct
           (codeUnitCompare_collates Samples.healthy _ eq_refl)).
Defined.

End StreakMoreFacts.

(** ** From the upstream services to the page *)

Module ClientFacts.
Import JS Http Spec SpecMore ArrayFacts HandlerFacts DevToFacts Clients.

(** The exact error answers of the two handlers. *)
Lemma github_user_error_body (w : GitHub.World) (u : jsstring)
  (res : Response GitHub.GitHubUser) :
  u <> [] -> GitHub.fetchUser w u = Normal res -> ok res = false ->
  body res <> Unreadable ->
  GitHub.GET w {| username := Some u |}
  = if status res =? 403 then
      json_error "GitHub API rate limit exceeded" 429
    else if status res =? 401 then json_error "Invalid GitHub token" 401
    else if status res =? 404 then json_error "User not found" 404
    else json_error "Failed to fetch GitHub data" 500.
Proof.
  intros Hu Hf Hok Hb. rewrite github_truthy by exact Hu.
  unfold GitHub.fetchStats, GitHub.userError, text.
  rewrite Hf. cbn [bind]. rewrite Hok. cbn [negb].
  destruct (body res); [congruence|]. cbn [bind].
  destruct (status res =? 403); [reflexivity|].
  destruct (status res =? 401); [reflexivity|].
  destruct (status res =? 404); reflexivity.
Qed.

Lemma devto_error_body (w : DevTo.World) (u : jsstring)
  (res : Response (list DevTo.DevToArticle)) :
  u <> [] -> DevTo.fetchArticles w u = Normal res -> ok res = false ->
  body res <> Unreadable ->
  DevTo.GET w {| username := Some u |}
  = if status res =? 404 then json_error "User not found" 404
    else if status res =? 429 then json_error "Rate limit exceeded" 429
    else json_error "Failed to fetch blog posts" 500.
Proof.
  intros Hu Hf Hok Hb. rewrite devto_truthy by exact Hu.
  unfold DevTo.fetchBlogs, DevTo.articlesError, text.
  rewrite Hf. cbn [bind]. rewrite Hok. cbn [negb].
  destruct (body res); [congruence|]. cbn [bind].
  destruct (status res =? 404); [reflexivity|].
  destruct (status res =? 429); reflexivity.
Qed.

Lemma github_unreadable (w : GitHub.World) (u : jsstring)
  (res : Response GitHub.GitHubUser) :
  u <> [] -> GitHub.fetchUser w u = Normal res -> ok res = false ->
  body res = Unreadable ->
  GitHub.GET w {| username := Some u |}
  = json_error "Failed to fetch GitHub data" 500.
Proof.
  intros Hu Hf Hok Hb. rewrite github_truthy by exact Hu.
  unfold GitHub.fetchStats, GitHub.userError, text.
  rewrite Hf. cbn [bind]. rewrite Hok. cbn [negb]. rewrite Hb. reflexivity.
Qed.

Lemma github_unreachable (w : GitHub.World) (u : jsstring) :
  u <> [] -> GitHub.fetchUser w u = Throw ->
  GitHub.GET w {| username := Some u |}
  = json_error "Failed to fetch GitHub data" 500.
Proof.
  intros Hu Hf. rewrite github_truthy by exact Hu.
  unfold GitHub.fetchStats. rewrite Hf. reflexivity.
Qed.

(** What the component makes of an error answer whose status is not
    429. *)
Lemma shows_handler_error (now : jsstring) (st : ActivityState)
  (message : string) (status : Z) :
  status <> 429 -> (status < 200 \/ 299 < status) ->
  message <> EmptyString ->
  showsError st
    (fetchGitHubData now (Done (served (json_error message status))) st)
    message.
Proof.
  intros H429 Hrange Hmsg. unfold showsError, fetchGitHubData, loadStats.
  assert (Hok : cr_ok (served (json_error (A := GitHub.Stats) message status))
                = false).
  { unfold cr_ok. cbn [cr_status served code json_error].
    destruct (Z.leb_spec 200 status), (Z.leb_spec status 299);
      simpl; try reflexivity; lia. }
  rewrite Hok. cbn [negb served cr_json cr_status code payload json_error].
  destruct (Z.eqb_spec status 429) as [He | _]; [contradiction|].
  cbn [errorField orElse newError isAbort messageOf].
  destruct (String.eqb_spec message EmptyString) as [He | _];
    [contradiction|].
  cbn [String.eqb Ascii.eqb Bool.eqb andb].
  split; [reflexivity|].
  unfold render. cbn [loading stats error isSet orElse].
  destruct (String.eqb_spec message EmptyString) as [He | _];
    [contradiction|].
  destruct (stats st); reflexivity.
Qed.

(** X19.  [GitHubActivity] in front of the GitHub handler, for whatever
    request reaches the handler.  When the handler reads no username or
    an empty one, the component keeps the statistics it had and shows the
    error panel with the message of the 400 answer.  When the handler
    succeeds the component stores its statistics and shows them.  When
    GitHub answers the user request with a non-OK status, the component
    keeps its statistics and shows the error panel: with a body that can
    be read, the rate-limit text for 403, the handler's own message for
    401 and 404 and the general failure message otherwise; with a body
    that cannot be read, or when GitHub cannot be reached, the general
    failure message.  The spinner is gone in every case. *)
Theorem activity_end_to_end (w : GitHub.World) (request : Request)
  (now : jsstring) (st : ActivityState) :
  let r := GitHub.GET w request in
  let st' := fetchGitHubData now (Done (served r)) st in
  loading st' = false
  /\ (absentOrEmpty request -> showsError st st' "Username required")
  /\ (forall s, r = json_ok s ->
        st' = {| stats := Some (shown s now); loading := false;
                 error := None |}
        /\ render st' = StatsPanel (shown s now))
  /\ (forall u res,
        username request = Some u -> u <> [] ->
        GitHub.fetchUser w u = Normal res -> ok res = false ->
        (body res <> Unreadable ->
         showsError st st' (activityMessage (status res)))
        /\ (body res = Unreadable ->
            showsError st st' "Failed to fetch GitHub data"))
  /\ (forall u,
        username request = Some u -> u <> [] ->
        GitHub.fetchUser w u = Throw ->
        showsError st st' "Failed to fetch GitHub data").
Proof.
  intros r st'. subst r st'. split; [| split; [| split; [| split]]].
  - unfold fetchGitHubData.
    destruct (loadStats now _) as [s | e]; reflexivity.
  - intros Hreq. rewrite (github_reject w request Hreq).
    apply shows_handler_error; [lia | lia | discriminate].
  - intros s Hr. rewrite Hr. split; reflexivity.
  - intros u res Hreq Hu Hf Hok.
    destruct request as [x]. cbn [username] in Hreq. subst x. split.
    + intros Hb. rewrite (github_user_error_body w u res Hu Hf Hok Hb).
      unfold activityMessage.
      destruct (status res =? 403).
      { unfold showsError. destruct st as [[s|] l e]; split; reflexivity. }
      destruct (status res =? 401);
        [apply shows_handler_error; [lia | lia | discriminate]|].
      destruct (status res =? 404);
        apply shows_handler_error; (lia || discriminate).
    + intros Hb. rewrite (github_unreadable w u res Hu Hf Hok Hb).
      apply shows_handler_error; [lia | lia | discriminate].
  - intros u Hreq Hu Hf.
    destruct request as [x]. cbn [username] in Hreq. subst x.
    rewrite (github_unreachable w u Hu Hf).
    apply shows_handler_error; [lia | lia | discriminate].
Qed.

(** GitHub answers 403: the handler answers 429 and the component shows
    its own rate-limit text. *)
Lemma activity_end_to_end_witness :
  render
    (fetchGitHubData (lit "2024-03-10T08:00:00.000Z")
       (Done (served (GitHub.GET Samples.rateLimited
                        {| username := Some Samples.octocat |})))
       initialActivity)
  = ErrorPanel "GitHub API rate limit exceeded. Try again later.".
Proof.
  destruct (activity_end_to_end Samples.rateLimited
              {| username := Some Samples.octocat |}
              (lit "2024-03-10T08:00:00.000Z") initialActivity)
    as (_ & _ & _ & H & _).
  destruct (H Samples.octocat (Samples.errorResponse 403) eq_refl)
    as [Hr _]; [discriminate | reflexivity | reflexivity |].
  destruct Hr as [_ Hr]; [discriminate | exact Hr].
Defined.

(** X20.  [Blogs] in front of the dev.to handler, for [maxPosts >= 0].
    When dev.to answers OK with the articles [articles], the component
    holds the first [min maxPosts 3] of them, transformed, and no error;
    when dev.to answers a non-OK status (with a readable body) it holds
    no blog and the message of the handler. *)
Theorem blogs_end_to_end (w : DevTo.World) (u : jsstring) (maxPosts : Z) :
  u <> [] -> 0 <= maxPosts ->
  let st := fetchBlogs maxPosts
              (Done (served (DevTo.GET w {| username := Some u |}))) in
  (forall res articles,
      DevTo.fetchArticles w u = Normal res -> ok res = true ->
      json res = Normal articles ->
      st = {| b_blogs :=
                map DevTo.transformArticle
                  (firstn (Nat.min (Z.to_nat maxPosts) 3) articles);
              b_loading := false; b_error := None |})
  /\ (forall res,
        DevTo.fetchArticles w u = Normal res -> ok res = false ->
        body res <> Unreadable ->
        st = {| b_blogs := []; b_loading := false;
                b_error := Some (blogsMessage (status res)) |}).
Proof.
  intros Hu Hmax st. subst st. split.
  - intros res articles Hf Hok Hj.
    rewrite (devto_success w u res articles Hu Hf Hok Hj).
    unfold fetchBlogs, loadBlogs, served. cbn.
    rewrite slice_prefix by exact Hmax.
    rewrite firstn_map, firstn_firstn. reflexivity.
  - intros res Hf Hok Hb.
    rewrite (devto_error_body w u res Hu Hf Hok Hb). unfold blogsMessage.
    destruct (status res =? 404); [reflexivity|].
    destruct (status res =? 429); reflexivity.
Qed.

Lemma blogs_end_to_end_witness :
  Samples.octocat <> [] /\ 0 <= 2
  /\ map DevTo.blog_id
       (b_blogs
          (fetchBlogs 2
             (Done (served (DevTo.GET Samples.fourArticles
                              {| username := Some Samples.octocat |})))))
     = [1; 2].
Proof.
  assert (Hu : Samples.octocat <> []) by discriminate.
  assert (Hmax : 0 <= 2) by lia.
  split; [exact Hu|]. split; [exact Hmax|].
  rewrite (proj1 (blogs_end_to_end Samples.fourArticles Samples.octocat 2
                    Hu Hmax)
             (Samples.okResponse
                [Samples.article 1; Samples.article 2; Samples.article 3;
                 Samples.article 4])
             [Samples.article 1; Samples.article 2; Samples.article 3;
              Samples.article 4] eq_refl eq_refl eq_refl).
  reflexivity.
Defined.

(** *** The counters of a success answer *)

Lemma sumTotal_from (values : list Z) (sum : Z) :
  fold_left (fun sum count => sum + count) values sum
  = sum + fold_right Z.add 0 values.
Proof.
  revert sum. induction values as [|v values IH]; intros sum; simpl;
    [lia|]. rewrite IH. lia.
Qed.

Lemma sumTotal_sum (total : list (jsstring * Z)) :
  GitHub.sumTotal total = yearlySum total.
Proof. unfold GitHub.sumTotal, yearlySum. rewrite sumTotal_from. lia. Qed.

(** X21.  A success answer carries the three counters of the user
    answer unchanged; when the contributions service answers OK, its
    [totalContributions] is the sum of the yearly totals (0 without
    [total]), also when the list of days is missing, in which case both
    streaks are 0. *)
Theorem github_counters (w : GitHub.World) (u : jsstring)
  (stats : GitHub.Stats) :
  u <> [] ->
  GitHub.GET w {| username := Some u |} = json_ok stats ->
  (exists userRes userData,
      GitHub.fetchUser w u = Normal userRes
      /\ json userRes = Normal userData
      /\ GitHub.publicRepos stats = GitHub.public_repos userData
      /\ GitHub.followers' stats = GitHub.followers userData
      /\ GitHub.following' stats = GitHub.following userData)
  /\ (forall res data,
        GitHub.fetchContributions w u = Normal res -> ok res = true ->
        json res = Normal data ->
        GitHub.totalContributions stats
        = match GitHub.total data with
          | Some total => yearlySum total
          | None => 0
          end
        /\ (GitHub.contributions data = None ->
            GitHub.currentStreak stats = 0
            /\ GitHub.longestStreak stats = 0)).
Proof.
  intros Hu Hget.
  assert (Hs : is_success (GitHub.GET w {| username := Some u |}))
    by (rewrite Hget; apply json_ok_success).
  destruct (github_success_inv w u Hu Hs)
    as (userRes & userData & reposRes & repos & H1 & _ & H3 & _ & _ & Heq).
  rewrite Heq in Hget. apply json_ok_inj in Hget. subst stats.
  split.
  - exists userRes, userData. repeat split; auto.
  - intros res data Hf Hok Hj.
    cbn [GitHub.totalContributions GitHub.currentStreak GitHub.longestStreak].
    unfold GitHub.fetchContribStats. rewrite Hf. cbn [bind].
    rewrite Hok, Hj. cbn [bind try_catch]. unfold GitHub.contribStatsOf.
    destruct (GitHub.total data) as [total|]; rewrite ?sumTotal_sum;
      destruct (GitHub.contributions data); split; try reflexivity;
      try discriminate; intros _; split; reflexivity.
Qed.

Lemma github_counters_witness :
  Samples.octocat <> []
  /\ GitHub.totalContributions Samples.healthyStats
     = yearlySum [(lit "2023", 40); (lit "2024", 14)].
Proof.
  assert (Hu : Samples.octocat <> []) by discriminate.
  split; [exact Hu|].
  exact (proj1 (proj2 (github_counters Samples.healthy Samples.octocat
                         Samples.healthyStats Hu healthy_run)
                  (Samples.okResponse Samples.someYears) Samples.someYears
                  eq_refl eq_refl eq_refl)).
Defined.

End ClientFacts.
